(** * Flood: staged upload pipeline (Go), shallow embedding

    The development embeds [src/main.go] (the retrying executor) and, in
    [Module Part000], the functions of [src/unnamed/part_000] that differ
    from it (the single-attempt executor with the HEAD-request check).

    Everything the program does to the outside world (file system, S3
    endpoint, SQLite ledger, log, clock, sleeps) is recorded, in order, in a
    trace of events; everything the outside world answers is read from an
    environment of oracles that see the whole trace so far.  Functions of the
    program are state-passing functions on that trace which either return,
    exit the process ([log.Fatal]) or panic. *)

From Stdlib Require Import ZArith List Ascii String DecimalString Lia Bool.
From stdpp Require Import base gmap strings.
From Equations Require Import Equations.

Local Open Scope string_scope.
Local Open Scope list_scope.

(** ** Go's [strings] package, on [string] *)

Module strings.

(** [strings.HasPrefix(s, prefix)] *)
Fixpoint HasPrefix (s prefix : string) : bool :=
  match prefix, s with
  | EmptyString, _ => true
  | String _ _, EmptyString => false
  | String a p, String b s' => if Ascii.eqb a b then HasPrefix s' p else false
  end.

Fixpoint drop (n : nat) (s : string) : string :=
  match n, s with
  | O, _ => s
  | S _, EmptyString => EmptyString
  | S n', String _ s' => drop n' s'
  end.

(** [strings.Contains(s, substr)] *)
Fixpoint Contains (s substr : string) : bool :=
  HasPrefix s substr ||
  match s with
  | EmptyString => false
  | String _ s' => Contains s' substr
  end.

(** [strings.Cut(s, sep)]: the text before and after the first occurrence
    of [sep], or [None] when [sep] does not occur. *)
Fixpoint Cut (s sep : string) : option (string * string) :=
  if HasPrefix s sep then Some (EmptyString, drop (String.length sep) s)
  else match s with
       | EmptyString => None
       | String c s' =>
           match Cut s' sep with
           | Some (before, after) => Some (String c before, after)
           | None => None
           end
       end.

(** [strings.SplitN(s, sep, n)] for [n >= 0] and a non-empty [sep]: at
    most [n] pieces, the last one being the unsplit remainder; [n = 0]
    gives the empty slice. *)
Fixpoint SplitN (s sep : string) (n : nat) : list string :=
  match n with
  | O => []
  | S O => [s]
  | S n' =>
      match Cut s sep with
      | Some (before, after) => before :: SplitN after sep n'
      | None => [s]
      end
  end.

(** [strings.Split(s, sep)] for a non-empty [sep]. *)
Definition Split (s sep : string) : list string :=
  SplitN s sep (S (S (String.length s))).

(** [strings.Join(elems, sep)] *)
Fixpoint Join (elems : list string) (sep : string) : string :=
  match elems with
  | [] => EmptyString
  | [e] => e
  | e :: rest => e +:+ sep +:+ Join rest sep
  end.

(** [strings.Replace(s, old, new, 1)]: the first occurrence only. *)
Definition Replace1 (s old new : string) : string :=
  match Cut s old with
  | Some (before, after) => before +:+ new +:+ after
  | None => s
  end.

(** [strings.TrimPrefix(s, prefix)] *)
Definition TrimPrefix (s prefix : string) : string :=
  if HasPrefix s prefix then drop (String.length prefix) s else s.

Fixpoint TrimLeftChar (s : string) (c : ascii) : string :=
  match s with
  | String a s' => if Ascii.eqb a c then TrimLeftChar s' c else s
  | EmptyString => EmptyString
  end.

Fixpoint rev_acc (s acc : string) : string :=
  match s with
  | EmptyString => acc
  | String c s' => rev_acc s' (String c acc)
  end.

(** [strings.Trim(s, cutset)] for a one-character [cutset]. *)
Definition TrimChar (s : string) (c : ascii) : string :=
  let r := TrimLeftChar (rev_acc (TrimLeftChar s c) EmptyString) c in
  rev_acc r EmptyString.

End strings.

(** [%d] of a non-negative [int]. *)
Definition itoa (n : nat) : string := NilEmpty.string_of_uint (Nat.to_uint n).

(** ** Go's [path/filepath] package on a Unix system *)

Module filepath.

Definition Separator : string := "/".

(** One step of [Clean]'s scan over the path's elements; [out] holds the
    elements kept so far, last one first. *)
Definition clean_step (rooted : bool) (out : list string) (elem : string)
  : list string :=
  if String.eqb elem "" then out
  else if String.eqb elem "." then out
  else if String.eqb elem ".." then
    match out with
    | last :: out' =>
        if String.eqb last ".." then elem :: out else out'
    | [] => if rooted then out else [elem]
    end
  else elem :: out.

(** [filepath.Clean(path)] *)
Definition Clean (path : string) : string :=
  if String.eqb path "" then "."
  else
    let rooted := strings.HasPrefix path Separator in
    let out := fold_left (clean_step rooted) (strings.Split path Separator) [] in
    let body := strings.Join (rev out) Separator in
    if rooted then Separator +:+ body
    else if String.eqb body "" then "." else body.

Fixpoint drop_empty (elems : list string) : list string :=
  match elems with
  | e :: rest => if String.eqb e "" then drop_empty rest else elems
  | [] => []
  end.

(** [filepath.Join(elem...)]: empty leading elements are ignored, the rest
    is joined with the separator and cleaned. *)
Definition Join (elems : list string) : string :=
  match drop_empty elems with
  | [] => ""
  | es => Clean (strings.Join es Separator)
  end.

(** The elements of a cleaned path, as [Rel] walks them. *)
Definition elements (cleaned : string) : list string :=
  if String.eqb cleaned "" then []
  else if String.eqb cleaned Separator then [""]
  else strings.Split cleaned Separator.

Fixpoint strip_common (base targ : list string) : list string * list string :=
  match base, targ with
  | b :: base', t :: targ' =>
      if String.eqb b t then strip_common base' targ' else (base, targ)
  | _, _ => (base, targ)
  end.

(** [filepath.Rel(basepath, targpath)]; [None] is the error result. *)
Definition Rel (basepath targpath : string) : option string :=
  let base := Clean basepath in
  let targ := Clean targpath in
  if String.eqb targ base then Some "."
  else
    let base := if String.eqb base "." then "" else base in
    let targ := if String.eqb targ "." then "" else targ in
    if negb (Bool.eqb (strings.HasPrefix base Separator)
                      (strings.HasPrefix targ Separator))
    then None
    else
      let '(b_rest, t_rest) := strip_common (elements base) (elements targ) in
      match b_rest with
      | [] => Some (strings.Join t_rest Separator)
      | b :: _ =>
          if String.eqb b ".." then None
          else Some (strings.Join (map (fun _ => "..") b_rest ++ t_rest) Separator)
      end.

(** The part of [path] up to and including its last separator. *)
Fixpoint up_to_last_sep (path : string) : string :=
  match path with
  | EmptyString => EmptyString
  | String c rest =>
      if strings.Contains path Separator then String c (up_to_last_sep rest)
      else EmptyString
  end.

(** [filepath.Dir(path)] *)
Definition Dir (path : string) : string := Clean (up_to_last_sep path).

End filepath.

(** ** Data model *)

(** [type Profile struct] *)
Record Profile := { Name : string; Endpoint : string; Region : string }.

(** Go [error] values, as far as the program can tell them apart: the text
    of [Error()], the wrapping done by [fmt.Errorf] with [%w], and the one
    concrete type [errors.As] asks for. *)
Inductive error :=
| ErrText (msg : string)
    (* errors.New, fmt.Errorf without %w, and errors of the OS, the
       transport and the SDK *)
| ErrNotImplemented (msg : string)
    (* an SDK error of type *types.NotImplemented *)
| ErrWrap (prefix : string) (err : error).
    (* fmt.Errorf(prefix + "%w", err) *)

Fixpoint Error (e : error) : string :=
  match e with
  | ErrText msg => msg
  | ErrNotImplemented msg => msg
  | ErrWrap prefix err => prefix +:+ Error err
  end.

(** [errors.As(err, &apiErr)] with [apiErr *types.NotImplemented] *)
Fixpoint As_NotImplemented (e : error) : bool :=
  match e with
  | ErrText _ => false
  | ErrNotImplemented _ => true
  | ErrWrap _ err => As_NotImplemented err
  end.

(** [errNotImplemented = errors.New("HEAD request not supported")] *)
Definition errNotImplemented : error := ErrText "HEAD request not supported".

(** What [checkFileExistsInS3] returns as its error, as far as [errors.Is]
    can tell: the package's own value [errNotImplemented], or an error that
    [fmt.Errorf] has just built around an error of the SDK or of the file
    system, whose chain never holds that value, whatever its text. *)
Inductive check_error :=
| Sentinel                (* [errNotImplemented] itself *)
| Built (e : error).      (* [fmt.Errorf("...: %w", err)] *)

(** The error value behind a [check_error]. *)
Definition check_error_value (ce : check_error) : error :=
  match ce with
  | Sentinel => errNotImplemented
  | Built e => e
  end.

(** [errors.Is(err, errNotImplemented)]: identity with the sentinel, not
    equality of texts. *)
Definition Is_errNotImplemented (ce : check_error) : bool :=
  match ce with
  | Sentinel => true
  | Built _ => false
  end.

(** A row of the [file_records] table, without its autoincrement id. *)
Record Row := {
  col_profile : string;
  col_bucket : string;
  col_filepath : string;
  col_retries : nat;
  col_last_retry : Z;
  col_upload_outcome : string
}.

(** What [filepath.Walk] hands to its callback for one visited path: the
    path with its [info.IsDir()], or an error (with [info] nil when the
    path could not be stat'ed). *)
Inductive WalkEntry :=
| Visit (path : string) (isDir : bool)
| VisitErr (path : string) (info : option bool) (err : error).

(** Every interaction of the process with the outside, with its result. *)
Inductive Event :=
| Log (line : string)
| OsRemoveAll (path : string) (res : option error)
| OsMkdirAll (path : string) (res : option error)
| OsRename (oldpath newpath : string) (res : option error)
| OsOpen (name : string) (res : option error)
| OsReadFile (name : string) (res : error + string)
| OsWriteFile (name data : string) (res : option error)
| OsStat (name : string) (res : error + bool)
| FilepathWalk (root : string) (entries : list WalkEntry)
| FileMD5 (name : string) (res : error + string)
| LoadDefaultConfig (p : Profile) (res : option error)
| S3ListBuckets (p : Profile) (res : error + list string)
| S3HeadObject (p : Profile) (bucket key : string) (res : error + string)
| S3PutObject (p : Profile) (bucket key file : string) (res : option error)
| RandIntn (n res : Z)
| TimeNow (res : Z)
| TimeSleep (d : Z)
| DbPrepare (res : option error)
| DbExec (r : Row) (res : option error)
| NewWatcher (res : option error)
| GoEventLoop
| WatcherAdd (path : string) (res : option error).

Definition Trace := list Event.

(** The outside world: each oracle answers one kind of call, given
    everything that happened before it and the call's arguments. *)
Record Env := {
  os_RemoveAll : Trace -> string -> option error;
  os_MkdirAll : Trace -> string -> option error;
  os_Rename : Trace -> string -> string -> option error;
  os_Open : Trace -> string -> option error;
  os_ReadFile : Trace -> string -> error + string;
  os_WriteFile : Trace -> string -> string -> option error;
  os_Stat : Trace -> string -> error + bool;
  filepath_Walk : Trace -> string -> list WalkEntry;
  file_md5 : Trace -> string -> error + string;
  config_LoadDefaultConfig : Trace -> Profile -> option error;
  s3_ListBuckets : Trace -> Profile -> error + list string;
  s3_HeadObject : Trace -> Profile -> string -> string -> error + string;
  s3_PutObject : Trace -> Profile -> string -> string -> string -> option error;
  rand_source : Trace -> Z;
  time_Now : Trace -> Z;
  db_Prepare : Trace -> option error;
  db_Exec : Trace -> Row -> option error;
  fsnotify_NewWatcher : Trace -> option error;
  watcher_Add : Trace -> string -> option error
}.

(** ** The monad of the program: trace passing, process exit and panic *)

Inductive Outcome (A : Type) :=
| Returned (a : A) (t : Trace)   (* the function returned [a] *)
| Exited (t : Trace)             (* log.Fatal: os.Exit(1) *)
| Panicked (t : Trace).          (* run-time panic *)
Arguments Returned {A} a t.
Arguments Exited {A} t.
Arguments Panicked {A} t.

Definition M (A : Type) : Type := Trace -> Outcome A.

Definition ret {A} (a : A) : M A := fun t => Returned a t.

Definition bind {A B} (m : M A) (k : A -> M B) : M B :=
  fun t =>
    match m t with
    | Returned a t' => k a t'
    | Exited t' => Exited t'
    | Panicked t' => Panicked t'
    end.

Declare Scope go_scope.
Delimit Scope go_scope with go.
Notation "'let*' x ':=' m 'in' k" := (bind m (fun x => k))
  (at level 10, x name, m at level 100, k at level 200) : go_scope.
Notation "m ;; k" := (bind m (fun _ => k))
  (at level 100, k at level 200, right associativity) : go_scope.
Local Open Scope go_scope.

Definition trace_of {A} (o : Outcome A) : Trace :=
  match o with
  | Returned _ t => t
  | Exited t => t
  | Panicked t => t
  end.

(** One external call: ask the oracle, record the call with its answer. *)
Definition call {A} (oracle : Trace -> A) (ev : A -> Event) : M A :=
  fun t => let res := oracle t in Returned res (t ++ [ev res]).

Definition emit (ev : Event) : M unit := fun t => Returned tt (t ++ [ev]).

(** [log.Printf] / [log.Println] *)
Definition log_Print (line : string) : M unit := emit (Log line).

(** [log.Fatal] / [log.Fatalf]: print, then [os.Exit(1)]. *)
Definition log_Fatal {A} (line : string) : M A := fun t => Exited (t ++ [Log line]).

(** A nil-pointer dereference. *)
Definition panic {A} : M A := fun t => Panicked t.

(** ** Observations on traces *)

(** The ledger: the rows whose INSERT succeeded, oldest first. *)
Fixpoint ledger (t : Trace) : list Row :=
  match t with
  | [] => []
  | DbExec r None :: t' => r :: ledger t'
  | _ :: t' => ledger t'
  end.

Definition is_put (ev : Event) : bool :=
  match ev with S3PutObject _ _ _ _ _ => true | _ => false end.
Definition is_head (ev : Event) : bool :=
  match ev with S3HeadObject _ _ _ _ => true | _ => false end.
Definition is_list (ev : Event) : bool :=
  match ev with S3ListBuckets _ _ => true | _ => false end.

(** Number of events of one kind in a trace. *)
Definition count (kind : Event -> bool) (t : Trace) : nat :=
  List.length (List.filter kind t).

(** Upload attempts that reached the endpoint: [PutObject] calls. *)
Definition uploads (t : Trace) : nat := count is_put t.

(** ** Package-level constants of [main.go] *)

Definition maxRetries : nat := 10.

(** [time.Duration] is an [int64] count of nanoseconds. *)
Definition Millisecond : Z := 1000000.
Definition Second : Z := 1000 * Millisecond.
Definition initialBackoff : Z := 30 * Second.

(** Two's-complement wrap-around of [int64] arithmetic. *)
Definition wrap64 (z : Z) : Z := (z + 2 ^ 63) mod 2 ^ 64 - 2 ^ 63.

(** [initialBackoff * time.Duration(1 << retryCount)] *)
Definition backoffDuration (retryCount : nat) : Z :=
  wrap64 (initialBackoff * wrap64 (Z.shiftl 1 (Z.of_nat retryCount))).

(** [time.Duration(r) * time.Millisecond] for [r] drawn by [rand.Intn(1000)] *)
Definition jitterDuration (r : Z) : Z := wrap64 (r * Millisecond).

(** [relPath, _ := filepath.Rel(base, path)]: the error is dropped, and with
    it the path is the empty string. *)
Definition Rel_or_empty (base path : string) : string :=
  match filepath.Rel base path with
  | Some rel => rel
  | None => ""
  end.

(** ** The program *)

Section Program.

Variable env : Env.

(** Package-level variables, set once by flag parsing and credential
    loading before any function below runs. *)
Variable serverDir : string.
Variable sourceFile : string.
Variable destURI : string.
Variable recursiveFlag : bool.
Variable profiles : gmap string Profile.

(** *** External calls *)

Definition os_RemoveAll_ (path : string) : M (option error) :=
  call (fun t => os_RemoveAll env t path) (OsRemoveAll path).
Definition os_MkdirAll_ (path : string) : M (option error) :=
  call (fun t => os_MkdirAll env t path) (OsMkdirAll path).
Definition os_Rename_ (oldpath newpath : string) : M (option error) :=
  call (fun t => os_Rename env t oldpath newpath) (OsRename oldpath newpath).
Definition os_Open_ (name : string) : M (option error) :=
  call (fun t => os_Open env t name) (OsOpen name).
Definition os_ReadFile_ (name : string) : M (error + string) :=
  call (fun t => os_ReadFile env t name) (OsReadFile name).
Definition os_WriteFile_ (name data : string) : M (option error) :=
  call (fun t => os_WriteFile env t name data) (OsWriteFile name data).
Definition os_Stat_ (name : string) : M (error + bool) :=
  call (fun t => os_Stat env t name) (OsStat name).
Definition LoadDefaultConfig_ (p : Profile) : M (option error) :=
  call (fun t => config_LoadDefaultConfig env t p) (LoadDefaultConfig p).
Definition ListBuckets_ (p : Profile) : M (error + list string) :=
  call (fun t => s3_ListBuckets env t p) (S3ListBuckets p).
Definition PutObject_ (p : Profile) (bucket key file : string) : M (option error) :=
  call (fun t => s3_PutObject env t p bucket key file) (S3PutObject p bucket key file).
(** [rand.Intn(n)] for [n > 0]: a value in [[0, n)]. *)
Definition rand_Intn (n : Z) : M Z :=
  call (fun t => Z.modulo (rand_source env t) n) (RandIntn n).
Definition time_Now_ : M Z :=
  call (time_Now env) TimeNow.
Definition time_Sleep (d : Z) : M unit := emit (TimeSleep d).
Definition db_Prepare_ : M (option error) :=
  call (db_Prepare env) DbPrepare.
Definition db_Exec_ (r : Row) : M (option error) :=
  call (fun t => db_Exec env t r) (DbExec r).

(** [filepath.Walk(root, fn)]: the callback runs on every visited entry,
    in order, until it returns an error; that error is Walk's result. *)
Fixpoint walk_entries (fn : WalkEntry -> M (option error))
         (entries : list WalkEntry) : M (option error) :=
  match entries with
  | [] => ret None
  | e :: rest =>
      let* r := fn e in
      match r with
      | Some err => ret (Some err)
      | None => walk_entries fn rest
      end
  end.

Definition filepath_Walk_ (root : string) (fn : WalkEntry -> M (option error))
  : M (option error) :=
  let* entries := call (fun t => filepath_Walk env t root) (FilepathWalk root) in
  walk_entries fn entries.

(** *** [getAWSConfig] *)
Definition getAWSConfig (profile : Profile) : M unit :=
  let* err := LoadDefaultConfig_ profile in
  match err with
  | Some e => log_Fatal ("failed to load configuration: " +:+ Error e)
  | None => ret tt
  end.

(** *** [logRetry] *)
Definition logRetry (filePath profileName bucketName : string)
           (retries : nat) (outcome : string) : M unit :=
  let* err := db_Prepare_ in
  match err with
  | Some e => log_Fatal (Error e)
  | None =>
      let* now := time_Now_ in
      let* err := db_Exec_ {| col_profile := profileName;
                              col_bucket := bucketName;
                              col_filepath := filePath;
                              col_retries := retries;
                              col_last_retry := now;
                              col_upload_outcome := outcome |} in
      match err with
      | Some e => log_Fatal (Error e)
      | None => ret tt
      end
  end.

(** *** [moveToFailed] *)
Definition moveToFailed (path : string) : M unit :=
  let failedPath := strings.Replace1 path "processing" "failed" in
  os_MkdirAll_ (filepath.Dir failedPath) ;;
  os_Rename_ path failedPath ;;
  ret tt.

(** *** [isTransientError] *)
Definition isTransientError (err : error) : bool :=
  strings.Contains (Error err) "timeout" ||
  strings.Contains (Error err) "connection reset" ||
  strings.Contains (Error err) "DNS error".

(** *** [validateBucketExists] *)
Definition validateBucketExists (profile : Profile) (bucketName : string)
  : M (option error) :=
  getAWSConfig profile ;;
  let* resp := ListBuckets_ profile in
  match resp with
  | inl err => ret (Some (ErrWrap "failed to list buckets: " err))
  | inr buckets =>
      if existsb (String.eqb bucketName) buckets then ret None
      else ret (Some (ErrText ("bucket " +:+ bucketName +:+ " does not exist on S3 server")))
  end.

(** *** [uploadToS3] of [main.go] *)
Definition uploadToS3 (file bucket key : string) (profile : Profile)
  : M (option error) :=
  getAWSConfig profile ;;
  let* err := os_Open_ file in
  match err with
  | Some e => ret (Some (ErrWrap ("failed to open file " +:+ file +:+ ": ") e))
  | None =>
      let* err := PutObject_ profile bucket key file in
      match err with
      | Some e => ret (Some (ErrWrap "failed to upload file: " e))
      | None => ret None
      end
  end.

(** *** [processFileWithRetry]

    The recursion is the source's own: the function calls itself with
    [retryCount + 1] after a transient failure, and stops recursing once
    [retryCount > maxRetries]. *)
Equations? processFileWithRetry (path : string) (profile : Profile)
           (bucketName : string) (retryCount : nat) : M unit
  by wf (S maxRetries - retryCount) lt :=
  processFileWithRetry path profile bucketName retryCount :=
    match decide (maxRetries < retryCount) with
    | left _ =>
        log_Print ("Max retries reached for " +:+ path +:+ ". Moving to failed directory.") ;;
        moveToFailed path ;;
        logRetry path (Name profile) bucketName retryCount "failure"
    | right Hle =>
        log_Print ("Uploading " +:+ path +:+ " to S3 for profile " +:+ Name profile
                   +:+ " and bucket " +:+ bucketName +:+ ". Retry attempt: "
                   +:+ itoa retryCount) ;;
        let* err := validateBucketExists profile bucketName in
        match err with
        | Some e =>
            log_Print ("Error: " +:+ Error e) ;;
            moveToFailed path ;;
            logRetry path (Name profile) bucketName retryCount "failure"
        | None =>
            let parts := strings.SplitN path filepath.Separator 4 in
            if Nat.ltb (List.length parts) 4 then
              log_Print "Invalid path for S3 upload"
            else
              let key := nth 3 parts "" in
              let* err := uploadToS3 path bucketName key profile in
              match err with
              | Some e =>
                  log_Print ("Error uploading to S3: " +:+ Error e) ;;
                  if isTransientError e then
                    let backoff := backoffDuration retryCount in
                    let* r := rand_Intn 1000 in
                    let jitter := jitterDuration r in
                    time_Sleep (wrap64 (backoff + jitter)) ;;
                    processFileWithRetry path profile bucketName (retryCount + 1)
                  else
                    moveToFailed path ;;
                    logRetry path (Name profile) bucketName retryCount "failure"
              | None =>
                  let completedPath := strings.Replace1 path "processing" "completed" in
                  os_MkdirAll_ (filepath.Dir completedPath) ;;
                  os_Rename_ path completedPath ;;
                  logRetry path (Name profile) bucketName retryCount "success"
              end
        end
    end.
Proof. unfold maxRetries in *. lia. Qed.

(** *** [handleFileEvent] of [main.go]

    [processingLock] is taken for the whole call; in this sequential model
    it has no effect. *)
Definition handleFileEvent (path : string) : M unit :=
  let relativePath := Rel_or_empty (filepath.Join [serverDir; "incoming"]) path in
  let parts := strings.SplitN relativePath filepath.Separator 3 in
  if Nat.ltb (List.length parts) 2 then ret tt
  else
    let profileName := nth 0 parts "" in
    let bucketName := nth 1 parts "" in
    match profiles !! profileName with
    | None => log_Print ("Unknown profile: " +:+ profileName)
    | Some profile =>
        let processingPath :=
          filepath.Join [serverDir; "processing"; profileName; bucketName] in
        os_MkdirAll_ processingPath ;;
        os_Rename_ path processingPath ;;
        processFileWithRetry processingPath profile bucketName 0
    end.

(** *** [processFile]

    [main.go] calls [processFile] from [processExistingFiles] without
    defining it; the repository's only definition is the one of
    [part_000], transcribed here over [main.go]'s [uploadToS3]. *)
Definition processFile (path : string) (profile : Profile) : M unit :=
  log_Print ("Uploading " +:+ path +:+ " to S3 for profile " +:+ Name profile) ;;
  let parts := strings.SplitN path filepath.Separator 4 in
  if Nat.ltb (List.length parts) 4 then
    log_Print "Invalid path for S3 upload"
  else
    let bucket := nth 2 parts "" in
    let key := nth 3 parts "" in
    let* err := uploadToS3 path bucket key profile in
    match err with
    | Some e =>
        log_Print ("Error uploading to S3: " +:+ Error e) ;;
        moveToFailed path
    | None =>
        let completedPath := strings.Replace1 path "processing" "completed" in
        os_MkdirAll_ (filepath.Dir completedPath) ;;
        os_Rename_ path completedPath ;;
        ret tt
    end.

(** [for _, x := range xs { body }] *)
Fixpoint for_range {A} (xs : list A) (body : A -> M unit) : M unit :=
  match xs with
  | [] => ret tt
  | x :: rest => body x ;; for_range rest body
  end.

(** [range profiles]: Go leaves the order of a map's iteration open; the
    model takes the order of [map_to_list]. *)
Definition range_profiles : list Profile := (map_to_list profiles).*2.

(** A Walk callback of the shape [if !info.IsDir() { act(path) }; return
    nil]: it ignores [err] and dereferences [info], which is nil when the
    root could not be stat'ed. *)
Definition on_files (act : string -> M unit) (e : WalkEntry) : M (option error) :=
  match e with
  | Visit path isDir =>
      (if isDir then ret tt else act path) ;; ret None
  | VisitErr path (Some isDir) _ =>
      (if isDir then ret tt else act path) ;; ret None
  | VisitErr _ None _ => panic
  end.

(** *** [processExistingFiles] *)
Definition processExistingFiles : M unit :=
  for_range range_profiles (fun profile =>
    let processDir := filepath.Join [serverDir; "processing"; Name profile] in
    filepath_Walk_ processDir (on_files (fun path => processFile path profile)) ;;
    ret tt).

(** *** [setupWatcher]

    The goroutine that serves [watcher.Events] is started here; the model
    records its start and does not interleave its later work. *)
Definition setupWatcher : M unit :=
  let* err := call (fsnotify_NewWatcher env) NewWatcher in
  match err with
  | Some e => log_Fatal (Error e)
  | None =>
      emit GoEventLoop ;;
      let watch_dir (path : string) (isDir : bool) : M (option error) :=
        if isDir then
          let* err := call (fun t => watcher_Add env t path) (WatcherAdd path) in
          match err with
          | Some e => log_Fatal (Error e)
          | None => ret None
          end
        else ret None in
      let* err := filepath_Walk_ (filepath.Join [serverDir; "incoming"])
        (fun e => match e with
                  | Visit path isDir => watch_dir path isDir
                  | VisitErr path (Some isDir) _ => watch_dir path isDir
                  | VisitErr _ None _ => panic
                  end) in
      match err with
      | Some e => log_Fatal (Error e)
      | None => ret tt
      end
  end.

(** *** [processIncomingFiles] *)
Definition processIncomingFiles : M unit :=
  for_range range_profiles (fun profile =>
    let incomingDir := filepath.Join [serverDir; "incoming"; Name profile] in
    filepath_Walk_ incomingDir (on_files handleFileEvent) ;;
    ret tt).

(** *** [runServerMode] *)
Definition runServerMode : M unit :=
  processExistingFiles ;;
  setupWatcher ;;
  processIncomingFiles.

(** *** [isDirectory] *)
Definition isDirectory (path : string) : M bool :=
  let* r := os_Stat_ path in
  match r with
  | inl e => log_Fatal (Error e)
  | inr isDir => ret isDir
  end.

(** *** [copyFile] *)
Definition copyFile (src dst : string) : M unit :=
  let* r := os_ReadFile_ src in
  match r with
  | inl e => log_Fatal (Error e)
  | inr input =>
      let* err := os_MkdirAll_ (filepath.Dir dst) in
      match err with
      | Some e => log_Fatal (Error e)
      | None =>
          let* err := os_WriteFile_ dst input in
          match err with
          | Some e => log_Fatal (Error e)
          | None => ret tt
          end
      end
  end.

(** *** [copyDirectory] *)
Definition copyDirectory (src dst : string) : M unit :=
  filepath_Walk_ src (fun e =>
    match e with
    | VisitErr _ _ err => ret (Some err)
    | Visit path isDir =>
        let relPath := Rel_or_empty src path in
        let dstPath := filepath.Join [dst; relPath] in
        (if isDir then os_MkdirAll_ dstPath ;; ret tt
         else copyFile path dstPath) ;;
        ret None
    end) ;;
  ret tt.

(** *** [moveToIncoming] *)
Definition moveToIncoming (tmpDir profileName bucketName : string) : M unit :=
  let incomingDir := filepath.Join [serverDir; "incoming"; profileName; bucketName] in
  os_MkdirAll_ incomingDir ;;
  filepath_Walk_ tmpDir (fun e =>
    match e with
    | VisitErr _ _ err => ret (Some err)
    | Visit path isDir =>
        let relPath := Rel_or_empty tmpDir path in
        let dstPath := filepath.Join [incomingDir; relPath] in
        (if isDir then os_MkdirAll_ dstPath ;; ret tt
         else os_Rename_ path dstPath ;; ret tt) ;;
        ret None
    end) ;;
  os_RemoveAll_ tmpDir ;;
  ret tt.

(** *** [runCopyMode] *)
Definition runCopyMode : M unit :=
  let parts := strings.SplitN (strings.TrimPrefix destURI "s3://") "/" 3 in
  if Nat.ltb (List.length parts) 3 then log_Fatal "Invalid S3 URI"
  else
    let profileName := nth 0 parts "" in
    let bucketName := nth 1 parts "" in
    let objectKey := nth 2 parts "" in
    match profiles !! profileName with
    | None => log_Fatal ("Unknown profile: " +:+ profileName)
    | Some profile =>
        let* err := validateBucketExists profile bucketName in
        match err with
        | Some e => log_Fatal ("Error: " +:+ Error e)
        | None =>
            let tmpDir := filepath.Join [serverDir; "incoming_tmp"; profileName; bucketName] in
            os_MkdirAll_ tmpDir ;;
            let* isDir := (if recursiveFlag then isDirectory sourceFile else ret false) in
            (if isDir then copyDirectory sourceFile (filepath.Join [tmpDir; objectKey])
             else copyFile sourceFile (filepath.Join [tmpDir; objectKey])) ;;
            moveToIncoming tmpDir profileName bucketName
        end
    end.

End Program.

(** ** The earlier executor: [src/unnamed/part_000]

    One upload attempt per file, no ledger, and a HEAD request before the
    upload.  Only the functions that differ from [main.go] are given. *)

Module Part000.
Section Program.

Variable env : Env.
Variable serverDir : string.
Variable profiles : gmap string Profile.

Definition HeadObject_ (p : Profile) (bucket key : string) : M (error + string) :=
  call (fun t => s3_HeadObject env t p bucket key) (S3HeadObject p bucket key).

(** *** [computeMD5Hash]: [os.Open], then [io.Copy] into the hasher and
    the hex encoding of its sum. *)
Definition computeMD5Hash (file : string) : M (error + string) :=
  let* err := os_Open_ env file in
  match err with
  | Some e => ret (inl (ErrWrap "failed to open file for MD5 computation: " e))
  | None =>
      let* r := call (fun t => file_md5 env t file) (FileMD5 file) in
      match r with
      | inl e => ret (inl (ErrWrap "failed to hash file contents: " e))
      | inr digest => ret (inr digest)
      end
  end.

(** *** [checkFileExistsInS3]

    The function does not build as written, in three places, and is given
    here as it reads:
    - it hashes [file], a name that is not among its parameters
      [(client, bucket, key)] nor declared in the package; it is taken to be
      the file that [uploadToS3] is uploading, and passed along;
    - it trims [resp.ETag], a [*string], as a string; the string pointed to
      is taken;
    - it asks [errors.As] for a [*types.NotImplemented], a type the SDK does
      not have; [As_NotImplemented] holds of an error made with
      [ErrNotImplemented] only.
    No property below is about this function alone: it enters through
    [uploadToS3] of this file, where only the number of its HEAD requests
    and the addresses of the uploads around it matter. *)
Definition checkFileExistsInS3 (profile : Profile) (file bucket key : string)
  : M (bool * option check_error) :=
  let* resp := HeadObject_ profile bucket key in
  match resp with
  | inl err =>
      if As_NotImplemented err then
        log_Print "HEAD request not supported by server, proceeding with upload" ;;
        ret (false, Some Sentinel)
      else ret (false, Some (Built (ErrWrap "failed to perform HEAD request: " err)))
  | inr ETag =>
      let etag := strings.TrimChar ETag (ascii_of_nat 34) in
      let* r := computeMD5Hash file in
      match r with
      | inl err =>
          ret (false, Some (Built (ErrWrap "failed to compute MD5 hash of the file: " err)))
      | inr fileMD5 =>
          if String.eqb etag fileMD5 then ret (true, None) else ret (false, None)
      end
  end.

(** The tail of [uploadToS3], once the check has not failed: skip the
    transfer if the object is there already, else [PutObject]. *)
Definition upload_unless (exists_ : bool) (file bucket key : string)
           (profile : Profile) : M (option error) :=
  if exists_ then
    log_Print ("File " +:+ file +:+ " already exists in bucket " +:+ bucket
               +:+ " with key " +:+ key +:+ ", skipping upload") ;;
    ret None
  else
    let* err := PutObject_ env profile bucket key file in
    match err with
    | Some e => ret (Some (ErrWrap "failed to upload file: " e))
    | None => ret None
    end.

(** *** [uploadToS3] of [part_000] *)
Definition uploadToS3 (file bucket key : string) (profile : Profile)
  : M (option error) :=
  let* err := LoadDefaultConfig_ env profile in
  match err with
  | Some e => ret (Some (ErrWrap "failed to load configuration: " e))
  | None =>
      let* err := os_Open_ env file in
      match err with
      | Some e => ret (Some (ErrWrap ("failed to open file " +:+ file +:+ ": ") e))
      | None =>
          let* r := checkFileExistsInS3 profile file bucket key in
          let exists_ := fst r in
          match snd r with
          | Some e =>
              if negb (Is_errNotImplemented e) then
                ret (Some (ErrWrap "failed to check if file exists: "
                                   (check_error_value e)))
              else upload_unless exists_ file bucket key profile
          | None => upload_unless exists_ file bucket key profile
          end
      end
  end.

(** *** [processFile] of [part_000] *)
Definition processFile (path : string) (profile : Profile) : M unit :=
  log_Print ("Uploading " +:+ path +:+ " to S3 for profile " +:+ Name profile) ;;
  let parts := strings.SplitN path filepath.Separator 4 in
  if Nat.ltb (List.length parts) 4 then
    log_Print "Invalid path for S3 upload"
  else
    let bucket := nth 2 parts "" in
    let key := nth 3 parts "" in
    let* err := uploadToS3 path bucket key profile in
    match err with
    | Some e =>
        log_Print ("Error uploading to S3: " +:+ Error e) ;;
        moveToFailed env path
    | None =>
        let completedPath := strings.Replace1 path "processing" "completed" in
        os_MkdirAll_ env (filepath.Dir completedPath) ;;
        os_Rename_ env path completedPath ;;
        ret tt
    end.

(** *** [handleFileEvent] of [part_000] *)
Definition handleFileEvent (path : string) : M unit :=
  let relativePath := Rel_or_empty (filepath.Join [serverDir; "incoming"]) path in
  let parts := strings.SplitN relativePath filepath.Separator 3 in
  if Nat.ltb (List.length parts) 2 then ret tt
  else
    match profiles !! nth 0 parts "" with
    | None => log_Print ("Unknown profile: " +:+ nth 0 parts "")
    | Some profile =>
        let processingPath := filepath.Join [serverDir; "processing"; relativePath] in
        os_MkdirAll_ env (filepath.Dir processingPath) ;;
        os_Rename_ env path processingPath ;;
        processFile processingPath profile
    end.

End Program.
End Part000.

(** ** Further observations, and conditions on the environment *)

(** The renames requested, oldest first: claims and finalizations. *)
Definition renames (t : Trace) : list (string * string) :=
  flat_map (fun ev => match ev with OsRename o n _ => [(o, n)] | _ => [] end) t.

(** The lines logged, oldest first. *)
Definition logged (t : Trace) : list string :=
  flat_map (fun ev => match ev with Log line => [line] | _ => [] end) t.

(** The sleeps taken, oldest first, in nanoseconds. *)
Definition sleeps (t : Trace) : list Z :=
  flat_map (fun ev => match ev with TimeSleep d => [d] | _ => [] end) t.

(** The SDK configuration always loads. *)
Definition config_loads (env : Env) : Prop :=
  forall t p, config_LoadDefaultConfig env t p = None.

(** The ledger database accepts every INSERT. *)
Definition ledger_accepts (env : Env) : Prop :=
  (forall t, db_Prepare env t = None) /\ (forall t r, db_Exec env t r = None).

(** The endpoint of [p] always lists a bucket named [bucketName]. *)
Definition bucket_exists (env : Env) (p : Profile) (bucketName : string) : Prop :=
  forall t, exists bs,
    s3_ListBuckets env t p = inr bs /\ existsb (String.eqb bucketName) bs = true.

(** Local files can always be opened. *)
Definition files_open (env : Env) : Prop := forall t f, os_Open env t f = None.

(** The path splits into the four pieces [processFileWithRetry] needs to
    take its object key from. *)
Definition addressable (path : string) : Prop :=
  4 <= List.length (strings.SplitN path filepath.Separator 4).

(** The first line an executor round logs. *)
Definition attempt_line (path : string) (p : Profile) (b : string) (n : nat) : string :=
  "Uploading " +:+ path +:+ " to S3 for profile " +:+ Name p
    +:+ " and bucket " +:+ b +:+ ". Retry attempt: " +:+ itoa n.

(** The object key [processFileWithRetry] derives from the path. *)
Definition key_of (path : string) : string :=
  nth 3 (strings.SplitN path filepath.Separator 4) "".

(** [strings.Replace(path, "processing", stage, 1)] *)
Definition failedPath (path : string) : string :=
  strings.Replace1 path "processing" "failed".
Definition completedPath (path : string) : string :=
  strings.Replace1 path "processing" "completed".

Definition mkRow (path : string) (p : Profile) (b : string) (n : nat) (now : Z)
           (outcome : string) : Row :=
  {| col_profile := Name p; col_bucket := b; col_filepath := path;
     col_retries := n; col_last_retry := now; col_upload_outcome := outcome |}.

(** What [processFileWithRetry] does with the result of its upload call. *)
Definition after_upload (env : Env) (path : string) (p : Profile) (b : string)
           (n : nat) (r : option error) : M unit :=
  match r with
  | Some e =>
      log_Print ("Error uploading to S3: " +:+ Error e) ;;
      if isTransientError e then
        let* r := rand_Intn env 1000 in
        time_Sleep (wrap64 (backoffDuration n + jitterDuration r)) ;;
        processFileWithRetry env path p b (n + 1)
      else
        moveToFailed env path ;;
        logRetry env path (Name p) b n "failure"
  | None =>
      os_MkdirAll_ env (filepath.Dir (completedPath path)) ;;
      os_Rename_ env path (completedPath path) ;;
      logRetry env path (Name p) b n "success"
  end.

(** The segments of a path relative to a stage root. *)
Definition segments (relativePath : string) : list string :=
  strings.Split relativePath filepath.Separator.

(** ** Concrete environments *)

(** A world in which the local machine and the database work, the clock
    shows the number of events so far, and the disk and the endpoint answer
    as given.  As on Linux, a rename onto a directory that [MkdirAll] has
    made is refused. *)
Definition made_dir (path : string) (ev : Event) : bool :=
  match ev with OsMkdirAll made None => String.eqb made path | _ => false end.

Definition rename_unless_dir (t : Trace) (oldpath newpath : string) : option error :=
  if existsb (made_dir newpath) t
  then Some (ErrText ("rename " +:+ oldpath +:+ " " +:+ newpath +:+ ": file exists"))
  else None.

Definition world (on_open : Trace -> string -> option error)
           (on_read : Trace -> string -> error + string)
           (on_walk : Trace -> string -> list WalkEntry)
           (on_list : Trace -> Profile -> error + list string)
           (on_head : Trace -> Profile -> string -> string -> error + string)
           (on_put : Trace -> Profile -> string -> string -> string -> option error)
  : Env :=
  {| os_RemoveAll := fun _ _ => None;
     os_MkdirAll := fun _ _ => None;
     os_Rename := rename_unless_dir;
     os_Open := on_open;
     os_ReadFile := on_read;
     os_WriteFile := fun _ _ _ => None;
     os_Stat := fun _ _ => inr false;
     filepath_Walk := on_walk;
     file_md5 := fun _ _ => inr "9a0364b9e99bb480dd25e1f0284c8555";
     config_LoadDefaultConfig := fun _ _ => None;
     s3_ListBuckets := on_list;
     s3_HeadObject := on_head;
     s3_PutObject := on_put;
     rand_source := fun t => Z.of_nat (List.length t);
     time_Now := fun t => Z.of_nat (List.length t);
     db_Prepare := fun _ => None;
     db_Exec := fun _ _ => None;
     fsnotify_NewWatcher := fun _ => None;
     watcher_Add := fun _ _ => None |}.

Definition opens_fine : Trace -> string -> option error := fun _ _ => None.
Definition reads_fine : Trace -> string -> error + string := fun _ _ => inr "contents".
Definition nothing_on_disk : Trace -> string -> list WalkEntry := fun _ _ => [].
Definition lists_b1 : Trace -> Profile -> error + list string :=
  fun _ _ => inr ["media"; "b1"].
Definition head_absent : Trace -> Profile -> string -> string -> error + string :=
  fun _ _ _ _ => inl (ErrText "api error NotFound: Not Found").
Definition put_succeeds : Trace -> Profile -> string -> string -> string -> option error :=
  fun _ _ _ _ _ => None.
Definition put_times_out : Trace -> Profile -> string -> string -> string -> option error :=
  fun _ _ _ _ _ => Some (ErrText "dial tcp 203.0.113.7:443: i/o timeout").

(** Everything works; the endpoint has the buckets [media] and [b1]. *)
Definition calm : Env :=
  world opens_fine reads_fine nothing_on_disk lists_b1 head_absent put_succeeds.

(** The endpoint of the spec's retry-exhaustion scenario: every upload
    times out. *)
Definition always_timeout : Env :=
  world opens_fine reads_fine nothing_on_disk lists_b1 head_absent put_times_out.

(** The endpoint cannot be reached when the buckets are listed. *)
Definition list_unreachable : Env :=
  world opens_fine reads_fine nothing_on_disk
        (fun _ _ => inl (ErrText "dial tcp 203.0.113.7:443: i/o timeout"))
        head_absent put_succeeds.

(** The endpoint works, but the file handed to the upload cannot be opened. *)
Definition unreadable_files : Env :=
  world (fun _ f => Some (ErrText ("open " +:+ f +:+ ": permission denied")))
        reads_fine nothing_on_disk
        (fun _ _ => inr ["timeout-logs"])
        head_absent put_succeeds.

(** The endpoint refuses every upload for lack of permission. *)
Definition access_denied : Env :=
  world opens_fine reads_fine nothing_on_disk lists_b1 head_absent
        (fun _ _ _ _ _ => Some (ErrText "api error AccessDenied: Access Denied")).

(** The source file of a copy cannot be read. *)
Definition source_unreadable : Env :=
  world opens_fine
        (fun _ f => inl (ErrText ("open " +:+ f +:+ ": no such file or directory")))
        nothing_on_disk lists_b1 head_absent put_succeeds.

(** [s] between double quotes, as S3 returns ETags. *)
Definition quoted (s : string) : string :=
  String (ascii_of_nat 34) (s +:+ String (ascii_of_nat 34) EmptyString).

(** The disk of the spec's crash-recovery scenario under server directory
    [srv]: [x.bin] was left in [processing], [y.bin] waits in [incoming]. *)
Definition crash_disk : Trace -> string -> list WalkEntry :=
  fun _ root =>
    if String.eqb root "srv/processing/p1" then
      [Visit "srv/processing/p1" true; Visit "srv/processing/p1/b1" true;
       Visit "srv/processing/p1/b1/x.bin" false]
    else if String.eqb root "srv/incoming" then
      [Visit "srv/incoming" true; Visit "srv/incoming/p1" true;
       Visit "srv/incoming/p1/b1" true; Visit "srv/incoming/p1/b1/y.bin" false]
    else if String.eqb root "srv/incoming/p1" then
      [Visit "srv/incoming/p1" true; Visit "srv/incoming/p1/b1" true;
       Visit "srv/incoming/p1/b1/y.bin" false]
    else [].

Definition after_crash : Env :=
  world opens_fine reads_fine crash_disk lists_b1 head_absent put_succeeds.

Definition p1 : Profile :=
  {| Name := "p1"; Endpoint := "https://acct.example.r2storage.com"; Region := "auto" |}.
Definition known_profiles : gmap string Profile := {[ "p1" := p1 ]}.

(** ** Shapes of computations *)

(** [m] only ever appends events accepted by [Q], however it ends. *)
Definition only (Q : Event -> bool) {A} (m : M A) : Prop :=
  forall t, exists s, trace_of (m t) = t ++ s /\ forallb Q s = true.

(** [m] returns to its caller: it neither exits the process nor panics. *)
Definition returns {A} (m : M A) : Prop :=
  forall t, exists a t', m t = Returned a t'.

(** [m] appends at most [k] events of the given kind. *)
Definition adds (kind : Event -> bool) (k : nat) {A} (m : M A) : Prop :=
  forall t, count kind (trace_of (m t)) <= count kind t + k.

(** A successful INSERT into the ledger. *)
Definition is_row (ev : Event) : bool :=
  match ev with DbExec _ None => true | _ => false end.

(** What the executor does apart from writing the ledger. *)
Definition quiet_event (ev : Event) : bool :=
  match ev with
  | Log _ | OsMkdirAll _ _ | OsRename _ _ _ | OsOpen _ _ | LoadDefaultConfig _ _
  | S3ListBuckets _ _ | S3PutObject _ _ _ _ _ | RandIntn _ _ | TimeSleep _ => true
  | _ => false
  end.

(** What the executor does apart from calling [PutObject]. *)
Definition no_put (ev : Event) : bool := negb (is_put ev).

(** Everything the executor of [main.go] can do. *)
Definition executor_event (ev : Event) : bool :=
  quiet_event ev ||
  match ev with
  | DbPrepare _ | TimeNow _ | DbExec _ _ => true
  | _ => false
  end.

(** Index of the first event of a kind. *)
Fixpoint position (kind : Event -> bool) (t : Trace) : option nat :=
  match t with
  | [] => None
  | ev :: t' => if kind ev then Some 0 else option_map S (position kind t')
  end.

Definition is_watch (ev : Event) : bool :=
  match ev with WatcherAdd _ _ => true | _ => false end.
Definition is_rename_of (path : string) (ev : Event) : bool :=
  match ev with OsRename o _ _ => String.eqb o path | _ => false end.

(** ** Startup: [setupDirectories] *)

(** [mainDirs] *)
Definition mainDirs : list string :=
  ["incoming_tmp"; "incoming"; "processing"; "failed"; "completed"].

(** [for profile := range profiles]: the keys of the map, in the order of
    [map_to_list]. *)
Definition range_profile_names (profiles : gmap string Profile) : list string :=
  (map_to_list profiles).*1.

(** [setupDirectories]: the results of [os.RemoveAll] and [os.MkdirAll] are
    dropped. *)
Definition setupDirectories (env : Env) (serverDir : string)
           (profiles : gmap string Profile) : M unit :=
  if String.eqb serverDir "" then ret tt
  else
    os_RemoveAll_ env (filepath.Join [serverDir; "incoming_tmp"]) ;;
    for_range mainDirs (fun dir =>
      for_range (range_profile_names profiles) (fun profile =>
        os_MkdirAll_ env (filepath.Join [serverDir; dir; profile]) ;;
        ret tt)).

(** ** Observations and shapes for the scans, the copy and the startup *)

(** The directories [os.MkdirAll] was asked to make, oldest first. *)
Definition made_dirs (t : Trace) : list string :=
  flat_map (fun ev => match ev with OsMkdirAll path _ => [path] | _ => [] end) t.

(** The directories put under watch, oldest first. *)
Definition watched (t : Trace) : list string :=
  flat_map (fun ev => match ev with WatcherAdd path _ => [path] | _ => [] end) t.

(** Sum of a list of durations. *)
Definition total (ds : list Z) : Z := fold_right Z.add 0%Z ds.

(** What the scan of [processing] can do: walk, log, load the SDK
    configuration, open, [PutObject], [MkdirAll] and [Rename]. *)
Definition recovery_event (ev : Event) : bool :=
  match ev with
  | Log _ | FilepathWalk _ _ | LoadDefaultConfig _ _ | OsOpen _ _
  | S3PutObject _ _ _ _ _ | OsMkdirAll _ _ | OsRename _ _ _ => true
  | _ => false
  end.

(** The paths of the regular files among walk entries that carry no error. *)
Definition visited_files (entries : list WalkEntry) : list string :=
  flat_map (fun e => match e with Visit path false => [path] | _ => [] end) entries.

(** The paths of the directories among walk entries that carry no error. *)
Definition visited_dirs (entries : list WalkEntry) : list string :=
  flat_map (fun e => match e with Visit path true => [path] | _ => [] end) entries.

(** Every entry of a walk was visited without error. *)
Definition clean_walk (entries : list WalkEntry) : Prop :=
  Forall (fun e => match e with Visit _ _ => True | VisitErr _ _ _ => False end) entries.

(** ** Path segments *)

(** [s] has no separator in it. *)
Definition no_slash (s : string) : Prop := strings.Contains s filepath.Separator = false.

(** A segment that [filepath.Clean] keeps as it is: not empty, not [.] or
    [..], and without a separator. *)
Definition plain (seg : string) : Prop :=
  no_slash seg /\ seg <> "" /\ seg <> "." /\ seg <> "..".

(** [c] occurs in [s]. *)
Fixpoint char_in (c : ascii) (s : string) : bool :=
  match s with
  | EmptyString => false
  | String a s' => Ascii.eqb a c || char_in c s'
  end.

(** ** The bucket gate *)

(** From [t] to [t'], at most [k] more uploads were made than bucket
    listings. *)
Definition gate_between (k : nat) (t t' : Trace) : Prop :=
  uploads t' + count is_list t <= count is_list t' + uploads t + k.

(** However [m] ends, it makes at most [k] more uploads than bucket
    listings. *)
Definition gated (k : nat) {A} (m : M A) : Prop :=
  forall t, gate_between k t (trace_of (m t)).

Definition is_mkdir (ev : Event) : bool :=
  match ev with OsMkdirAll _ _ => true | _ => false end.

(** The directories [setupDirectories] asks for: every profile under every
    stage root, stage by stage. *)
Definition stage_dirs (serverDir : string) (names : list string) : list string :=
  flat_map (fun dir => List.map (fun name => filepath.Join [serverDir; dir; name]) names)
           mainDirs.


(** [env] with another database. *)
Definition with_ledger (env : Env) (on_prepare : Trace -> option error)
           (on_exec : Trace -> Row -> option error) : Env :=
  {| os_RemoveAll := os_RemoveAll env;
     os_MkdirAll := os_MkdirAll env;
     os_Rename := os_Rename env;
     os_Open := os_Open env;
     os_ReadFile := os_ReadFile env;
     os_WriteFile := os_WriteFile env;
     os_Stat := os_Stat env;
     filepath_Walk := filepath_Walk env;
     file_md5 := file_md5 env;
     config_LoadDefaultConfig := config_LoadDefaultConfig env;
     s3_ListBuckets := s3_ListBuckets env;
     s3_HeadObject := s3_HeadObject env;
     s3_PutObject := s3_PutObject env;
     rand_source := rand_source env;
     time_Now := time_Now env;
     db_Prepare := on_prepare;
     db_Exec := on_exec;
     fsnotify_NewWatcher := fsnotify_NewWatcher env;
     watcher_Add := watcher_Add env |}.

(** Everything works but the ledger: the statement is prepared, the INSERT
    is refused. *)
Definition ledger_locked : Env :=
  with_ledger calm (fun _ => None) (fun _ _ => Some (ErrText "database is locked")).


(** ** Copy mode *)

(** Asking the endpoint for its buckets. *)
Definition listing_event (ev : Event) : bool :=
  match ev with
  | Log _ | LoadDefaultConfig _ _ | S3ListBuckets _ _ => true
  | _ => false
  end.

(** Copying into the staging directory. *)
Definition stage_event (ev : Event) : bool :=
  match ev with
  | Log _ | OsMkdirAll _ _ | OsStat _ _ | OsReadFile _ _ | OsWriteFile _ _ _
  | FilepathWalk _ _ => true
  | _ => false
  end.

(** Work on the local disk: staging, and moving the staged files on. *)
Definition local_event (ev : Event) : bool :=
  stage_event ev ||
  match ev with
  | OsRename _ _ _ | OsRemoveAll _ _ => true
  | _ => false
  end.

Definition before_move (ev : Event) : bool := listing_event ev || stage_event ev.
Definition copy_event (ev : Event) : bool := listing_event ev || local_event ev.

Definition is_removal (ev : Event) : bool :=
  match ev with OsRemoveAll _ _ => true | _ => false end.

(** When [m] ends the process, it has appended only events accepted by [Q]. *)
Definition exits_within (Q : Event -> bool) {A} (m : M A) : Prop :=
  forall t t', m t = Exited t' -> exists s, t' = t ++ s /\ forallb Q s = true.


(** The entries a Walk callback of the shape [if err != nil { return err }]
    gets to work on: those before the first one that carries an error. *)
Fixpoint before_error (entries : list WalkEntry) : list WalkEntry :=
  match entries with
  | Visit path isDir :: rest => Visit path isDir :: before_error rest
  | _ => []
  end.

(** The files read in full, oldest first. *)
Definition files_read (t : Trace) : list string :=
  flat_map (fun ev => match ev with OsReadFile name _ => [name] | _ => [] end) t.

(** The files written, with what was written, oldest first. *)
Definition files_written (t : Trace) : list (string * string) :=
  flat_map (fun ev => match ev with OsWriteFile name data _ => [(name, data)] | _ => [] end) t.

(** Where an entry found at [path] under [from] goes under [to]. *)
Definition moved_under (from to path : string) : string :=
  filepath.Join [to; Rel_or_empty from path].

(** The local disk takes every read, directory creation and write. *)
Definition disk_works (env : Env) : Prop :=
  (forall t f, exists data, os_ReadFile env t f = inr data)
  /\ (forall t d, os_MkdirAll env t d = None)
  /\ (forall t f data, os_WriteFile env t f data = None).

(** A staging directory with one directory and two files in it, the second
    file behind an entry that could not be read. *)
Definition staged_tree : Trace -> string -> list WalkEntry :=
  fun _ root =>
    [Visit root true;
     Visit (root +:+ "/a.jpg") false;
     VisitErr (root +:+ "/locked") (Some true) (ErrText "open locked: permission denied");
     Visit (root +:+ "/z.jpg") false].

Definition half_readable : Env :=
  world opens_fine reads_fine staged_tree lists_b1 head_absent put_succeeds.

(** The Walk callback of [moveToIncoming]. *)
Definition move_entry (env : Env) (tmpDir incomingDir : string) (e : WalkEntry)
  : M (option error) :=
  match e with
  | VisitErr _ _ err => ret (Some err)
  | Visit path isDir =>
      let relPath := Rel_or_empty tmpDir path in
      let dstPath := filepath.Join [incomingDir; relPath] in
      (if isDir then os_MkdirAll_ env dstPath ;; ret tt
       else os_Rename_ env path dstPath ;; ret tt) ;;
      ret None
  end.

(** The Walk callback of [copyDirectory]. *)
Definition copy_entry (env : Env) (src dst : string) (e : WalkEntry)
  : M (option error) :=
  match e with
  | VisitErr _ _ err => ret (Some err)
  | Visit path isDir =>
      let relPath := Rel_or_empty src path in
      let dstPath := filepath.Join [dst; relPath] in
      (if isDir then os_MkdirAll_ env dstPath ;; ret tt
       else copyFile env path dstPath) ;;
      ret None
  end.


(** ** The watcher *)

(** The directories among walk entries, with or without an error. *)
Definition entry_dirs (entries : list WalkEntry) : list string :=
  flat_map (fun e => match e with
                     | Visit path true | VisitErr path (Some true) _ => [path]
                     | _ => []
                     end) entries.

(** The entry comes with file info: its path could be stat'ed. *)
Definition has_info (e : WalkEntry) : Prop :=
  match e with VisitErr _ None _ => False | _ => True end.

(** The Walk callback of [setupWatcher]. *)
Definition watch_dir (env : Env) (path : string) (isDir : bool) : M (option error) :=
  if isDir then
    let* err := call (fun t => watcher_Add env t path) (WatcherAdd path) in
    match err with
    | Some e => log_Fatal (Error e)
    | None => ret None
    end
  else ret None.

Definition watch_entry (env : Env) (e : WalkEntry) : M (option error) :=
  match e with
  | Visit path isDir => watch_dir env path isDir
  | VisitErr path (Some isDir) _ => watch_dir env path isDir
  | VisitErr _ None _ => panic
  end.

(** The [incoming] tree of a server with one bucket directory, one waiting
    file, and one directory that could be stat'ed but not read. *)
Definition incoming_tree : Trace -> string -> list WalkEntry :=
  fun _ root =>
    [Visit root true;
     Visit (root +:+ "/p1") true;
     Visit (root +:+ "/p1/b1") true;
     Visit (root +:+ "/p1/b1/y.bin") false;
     VisitErr (root +:+ "/p1/private") (Some true)
              (ErrText "open private: permission denied")].

Definition watched_server : Env :=
  world opens_fine reads_fine incoming_tree lists_b1 head_absent put_succeeds.



(** ** Server directories *)

(** [serverDir] is the current directory ([segs] empty) or a relative path
    of plain segments. *)
Definition server_at (serverDir : string) (segs : list string) : Prop :=
  (serverDir = "." /\ segs = [])
  \/ (segs <> [] /\ Forall plain segs /\ serverDir = strings.Join segs "/").

(** Every [PutObject] sends [file] to [bucket] under [key]. *)
Definition puts_are (bucket key file : string) (ev : Event) : bool :=
  match ev with
  | S3PutObject _ b k f _ => String.eqb b bucket && String.eqb k key && String.eqb f file
  | _ => true
  end.


(** No occurrence of [sep] in [a +:+ rest] starts inside [a]. *)
Fixpoint clear_before (a rest sep : string) : bool :=
  match a with
  | EmptyString => true
  | String _ a' => negb (strings.HasPrefix (a +:+ rest) sep) && clear_before a' rest sep
  end.

(** A server directory whose own name holds the word [processing]. *)
Definition reprocessing_dir : string := "data/reprocessing/srv".


(** [env] with another loader of the SDK configuration. *)
Definition with_config (env : Env) (on_load : Trace -> Profile -> option error) : Env :=
  {| os_RemoveAll := os_RemoveAll env;
     os_MkdirAll := os_MkdirAll env;
     os_Rename := os_Rename env;
     os_Open := os_Open env;
     os_ReadFile := os_ReadFile env;
     os_WriteFile := os_WriteFile env;
     os_Stat := os_Stat env;
     filepath_Walk := filepath_Walk env;
     file_md5 := file_md5 env;
     config_LoadDefaultConfig := on_load;
     s3_ListBuckets := s3_ListBuckets env;
     s3_HeadObject := s3_HeadObject env;
     s3_PutObject := s3_PutObject env;
     rand_source := rand_source env;
     time_Now := time_Now env;
     db_Prepare := db_Prepare env;
     db_Exec := db_Exec env;
     fsnotify_NewWatcher := fsnotify_NewWatcher env;
     watcher_Add := watcher_Add env |}.

(** The shared configuration file has become unreadable. *)
Definition config_broken : Env :=
  with_config calm
    (fun _ _ => Some (ErrText "failed to load shared config file: permission denied")).

(** The SDK configuration never loads. *)
Definition config_fails (env : Env) : Prop :=
  forall t p, config_LoadDefaultConfig env t p <> None.


(** The files read in full with what was read, oldest first. *)
Definition data_read (t : Trace) : list (string * string) :=
  flat_map (fun ev => match ev with
                      | OsReadFile name (inr data) => [(name, data)]
                      | _ => []
                      end) t.

(** Everything the executor of [part_000] can do. *)
Definition part000_event (ev : Event) : bool :=
  match ev with
  | Log _ | OsMkdirAll _ _ | OsRename _ _ _ | LoadDefaultConfig _ _ | OsOpen _ _
  | S3HeadObject _ _ _ _ | FileMD5 _ _ | S3PutObject _ _ _ _ _ => true
  | _ => false
  end.

Definition no_head (ev : Event) : bool := negb (is_head ev).

(** ** A disk on which no directory can be made any more *)

(** [env] on another disk, as far as [MkdirAll] goes. *)
Definition with_mkdir (env : Env) (on_mkdir : Trace -> string -> option error) : Env :=
  {| os_RemoveAll := os_RemoveAll env;
     os_MkdirAll := on_mkdir;
     os_Rename := os_Rename env;
     os_Open := os_Open env;
     os_ReadFile := os_ReadFile env;
     os_WriteFile := os_WriteFile env;
     os_Stat := os_Stat env;
     filepath_Walk := filepath_Walk env;
     file_md5 := file_md5 env;
     config_LoadDefaultConfig := config_LoadDefaultConfig env;
     s3_ListBuckets := s3_ListBuckets env;
     s3_HeadObject := s3_HeadObject env;
     s3_PutObject := s3_PutObject env;
     rand_source := rand_source env;
     time_Now := time_Now env;
     db_Prepare := db_Prepare env;
     db_Exec := db_Exec env;
     fsnotify_NewWatcher := fsnotify_NewWatcher env;
     watcher_Add := watcher_Add env |}.

(** The file system that holds the server directory [srv] has no inode
    left.  The directories that [setupDirectories] made for profile [p1] are
    there, and [MkdirAll] of one of them has nothing to do; any other
    directory cannot be made.  The event handler's [MkdirAll] of the
    processing path then fails, its result is not looked at, and the rename
    that claims the file is granted: the executor is handed a regular file
    at the processing path, where on a disk with room it is handed the
    directory just made.  The ledger, [flood.db] in the working directory of
    the process, is not under the server directory and is left as it is. *)
Definition no_inode_left : Trace -> string -> option error :=
  fun _ path =>
    if existsb (String.eqb path) (stage_dirs "srv" ["p1"]) then None
    else Some (ErrText ("mkdir " +:+ path +:+ ": no space left on device")).

(** The first three uploads time out, the fourth succeeds. *)
Definition put_recovers_after_3
  : Trace -> Profile -> string -> string -> string -> option error :=
  fun t p b k f => if Nat.ltb (uploads t) 3 then put_times_out t p b k f else None.

(** The spec's retry-exhaustion scenario on that disk: every upload times
    out. *)
Definition timeouts_on_full_disk : Env := with_mkdir always_timeout no_inode_left.

(** The spec's retry-recovery scenario on that disk. *)
Definition recovers_on_full_disk : Env :=
  with_mkdir (world opens_fine reads_fine nothing_on_disk lists_b1 head_absent
                    put_recovers_after_3)
             no_inode_left.

(** The spec's duplicate scenario on that disk: the object is on the
    endpoint already, and a HEAD request for it would give the digest of the
    local file as its ETag. *)
Definition present_on_full_disk : Env :=
  with_mkdir (world opens_fine reads_fine nothing_on_disk lists_b1
                    (fun _ _ _ _ => inr (quoted "9a0364b9e99bb480dd25e1f0284c8555"))
                    put_succeeds)
             no_inode_left.

(** On that disk, a claimed file that may be renamed but not read: it
    cannot be opened.  The endpoint has the bucket [timeout-logs]. *)
Definition unreadable_on_full_disk : Env := with_mkdir unreadable_files no_inode_left.

(** ** What the trace shows of a round *)

(** The renames the disk granted, oldest first. *)
Definition moved (t : Trace) : list (string * string) :=
  flat_map (fun ev => match ev with OsRename o n None => [(o, n)] | _ => [] end) t.

(** What [logRetry] can do: prepare the INSERT, read the clock, execute,
    and log the error it exits with. *)
Definition ledger_event (ev : Event) : bool :=
  match ev with
  | Log _ | DbPrepare _ | TimeNow _ | DbExec _ _ => true
  | _ => false
  end.

(** The two calls of [moveToFailed] on [path] after [t], with what the disk
    answers; neither answer is looked at. *)
Definition failed_move (env : Env) (path : string) (t : Trace) : list Event :=
  let dir := filepath.Dir (failedPath path) in
  let made := os_MkdirAll env t dir in
  [OsMkdirAll dir made;
   OsRename path (failedPath path)
            (os_Rename env (t ++ [OsMkdirAll dir made]) path (failedPath path))].

(** The file cannot be opened, whenever it is tried. *)
Definition never_opens (env : Env) (path : string) : Prop :=
  forall t, os_Open env t path <> None.

(** One of the three marker texts of [isTransientError] occurs in [s]. *)
Definition has_marker (s : string) : bool :=
  strings.Contains s "timeout" || strings.Contains s "connection reset"
  || strings.Contains s "DNS error".

(** The event, if a [PutObject], names its object after the uploaded file's
    own path: the bucket is the third of the path's pieces between
    separators, the key is what follows that piece. *)
Definition put_by_path (ev : Event) : bool :=
  match ev with
  | S3PutObject _ b k f _ =>
      String.eqb b (nth 2 (strings.SplitN f filepath.Separator 4) "")
      && String.eqb k (nth 3 (strings.SplitN f filepath.Separator 4) "")
  | _ => true
  end.

(** * Properties *)

(** ** The library models on the paths of the spec's scenarios *)

Example SplitN_rel3 : strings.SplitN "p1/b1/photos/a.jpg" "/" 3 = ["p1"; "b1"; "photos/a.jpg"].
Proof. reflexivity. Qed.
Example SplitN_short : strings.SplitN "stray.txt" "/" 3 = ["stray.txt"].
Proof. reflexivity. Qed.
Example SplitN_abs4 : strings.SplitN "/srv/processing/p1/b1" "/" 4 = [""; "srv"; "processing"; "p1/b1"].
Proof. reflexivity. Qed.
Example Replace1_ex : strings.Replace1 "srv/processing/p1/b1" "processing" "failed" = "srv/failed/p1/b1".
Proof. reflexivity. Qed.
Example Join_dot : filepath.Join ["."; "processing"; "p1"; "b1"] = "processing/p1/b1".
Proof. reflexivity. Qed.
Example Join_abs : filepath.Join ["/srv/"; "incoming"] = "/srv/incoming".
Proof. reflexivity. Qed.
Example Clean_dotdot : filepath.Clean "a/../../b//c/." = "../b/c".
Proof. reflexivity. Qed.
Example Rel_under : filepath.Rel "/srv/incoming" "/srv/incoming/p1/b1/x.bin" = Some "p1/b1/x.bin".
Proof. reflexivity. Qed.
Example Rel_up : filepath.Rel "a/b/c" "a/d" = Some "../../d".
Proof. reflexivity. Qed.
Example Rel_same : filepath.Rel "srv/incoming" "srv/incoming/" = Some ".".
Proof. reflexivity. Qed.
Example Rel_mixed : filepath.Rel "/srv" "srv/x" = None.
Proof. reflexivity. Qed.
Example Rel_to_dot : filepath.Rel "incoming" "." = Some ".." /\ filepath.Rel "." "a/b" = Some "a/b".
Proof. split; reflexivity. Qed.
Example Dir_ex : filepath.Dir "srv/failed/p1/b1" = "srv/failed/p1".
Proof. reflexivity. Qed.
Example itoa_ex : itoa 10 = "10" /\ itoa 0 = "0".
Proof. split; reflexivity. Qed.

(** ** Traces *)

Create Rewrite HintDb trace.

Lemma count_app kind (t t' : Trace) : count kind (t ++ t') = count kind t + count kind t'.
Proof. unfold count. rewrite List.filter_app, List.length_app. reflexivity. Qed.

Lemma ledger_app (t t' : Trace) : ledger (t ++ t') = ledger t ++ ledger t'.
Proof.
  induction t as [|ev t IH]; simpl; [reflexivity|].
  destruct ev; simpl; try apply IH.
  destruct res; simpl; [apply IH | f_equal; apply IH].
Qed.

Lemma renames_app (t t' : Trace) : renames (t ++ t') = renames t ++ renames t'.
Proof. unfold renames. apply flat_map_app. Qed.

Lemma sleeps_app (t t' : Trace) : sleeps (t ++ t') = sleeps t ++ sleeps t'.
Proof. unfold sleeps. apply flat_map_app. Qed.

Lemma logged_app (t t' : Trace) : logged (t ++ t') = logged t ++ logged t'.
Proof. unfold logged. apply flat_map_app. Qed.

#[local] Hint Rewrite count_app ledger_app renames_app sleeps_app logged_app : trace.

(** ** [int64] arithmetic of the backoff *)

Lemma wrap64_small z : (- 2 ^ 63 <= z < 2 ^ 63)%Z -> wrap64 z = z.
Proof.
  intros H. unfold wrap64.
  rewrite Z.mod_small by lia. lia.
Qed.

Lemma pow2_retry_bound n : n <= maxRetries -> (0 < 2 ^ Z.of_nat n <= 1024)%Z.
Proof.
  unfold maxRetries. intros Hn. change 1024%Z with (2 ^ 10)%Z.
  split; [apply Z.pow_pos_nonneg; lia | apply Z.pow_le_mono_r; lia].
Qed.

Lemma backoffDuration_exact n :
  n <= maxRetries -> backoffDuration n = (30 * Second * 2 ^ Z.of_nat n)%Z.
Proof.
  intros Hn. pose proof (pow2_retry_bound n Hn) as Hpow.
  unfold backoffDuration. rewrite Z.shiftl_1_l.
  rewrite (wrap64_small (2 ^ Z.of_nat n)) by lia.
  unfold initialBackoff, Second, Millisecond.
  rewrite wrap64_small; [reflexivity|].
  change (2 ^ 63)%Z with 9223372036854775808%Z. nia.
Qed.

Lemma jitterDuration_exact j :
  (0 <= j < 1000)%Z -> jitterDuration j = (j * Millisecond)%Z.
Proof.
  intros Hj. unfold jitterDuration, Millisecond.
  apply wrap64_small. change (2 ^ 63)%Z with 9223372036854775808%Z. lia.
Qed.

Lemma delay_exact n j :
  n <= maxRetries -> (0 <= j < 1000)%Z ->
  wrap64 (backoffDuration n + jitterDuration j)
  = (30 * Second * 2 ^ Z.of_nat n + j * Millisecond)%Z.
Proof.
  intros Hn Hj. pose proof (pow2_retry_bound n Hn) as Hpow.
  rewrite backoffDuration_exact, jitterDuration_exact by assumption.
  apply wrap64_small.
  unfold Second, Millisecond. change (2 ^ 63)%Z with 9223372036854775808%Z. nia.
Qed.

(** ** The executor, one round at a time *)

Section Executor.

Variable env : Env.

Lemma getAWSConfig_ok p t :
  config_loads env ->
  getAWSConfig env p t = Returned tt (t ++ [LoadDefaultConfig p None]).
Proof.
  intros H. unfold getAWSConfig, bind, LoadDefaultConfig_, call.
  rewrite H. reflexivity.
Qed.

Lemma validate_ok p b t :
  config_loads env -> bucket_exists env p b ->
  exists bs, validateBucketExists env p b t =
    Returned None (t ++ [LoadDefaultConfig p None; S3ListBuckets p (inr bs)]).
Proof.
  intros Hc Hb.
  destruct (Hb (t ++ [LoadDefaultConfig p None])) as (bs & Hl & Hin).
  exists bs. unfold validateBucketExists, bind.
  rewrite getAWSConfig_ok by assumption.
  unfold ListBuckets_, call. rewrite Hl, Hin.
  unfold ret. rewrite <- app_assoc. reflexivity.
Qed.

Lemma logRetry_ok f pn b n o t :
  ledger_accepts env ->
  let now := time_Now env (t ++ [DbPrepare None]) in
  logRetry env f pn b n o t =
    Returned tt (t ++ [DbPrepare None; TimeNow now;
                       DbExec {| col_profile := pn; col_bucket := b; col_filepath := f;
                                 col_retries := n; col_last_retry := now;
                                 col_upload_outcome := o |} None]).
Proof.
  intros [Hp He] now. unfold logRetry, bind, db_Prepare_, time_Now_, db_Exec_, call.
  rewrite Hp, He. unfold ret. rewrite <- !app_assoc. reflexivity.
Qed.

Lemma moveToFailed_run path t :
  exists r1 r2, moveToFailed env path t =
    Returned tt (t ++ [OsMkdirAll (filepath.Dir (failedPath path)) r1;
                       OsRename path (failedPath path) r2]).
Proof.
  unfold moveToFailed, bind, os_MkdirAll_, os_Rename_, call, ret.
  do 2 eexists. rewrite <- app_assoc. reflexivity.
Qed.

Lemma pFWR_ceiling path p b n :
  maxRetries < n ->
  processFileWithRetry env path p b n =
    (log_Print ("Max retries reached for " +:+ path +:+ ". Moving to failed directory.") ;;
     moveToFailed env path ;;
     logRetry env path (Name p) b n "failure").
Proof.
  intros H. rewrite processFileWithRetry_equation_1.
  destruct (decide _); [reflexivity | lia].
Qed.

Lemma pFWR_validation_failed path p b n t e t1 :
  n <= maxRetries ->
  validateBucketExists env p b (t ++ [Log (attempt_line path p b n)]) = Returned (Some e) t1 ->
  processFileWithRetry env path p b n t =
    (log_Print ("Error: " +:+ Error e) ;;
     moveToFailed env path ;;
     logRetry env path (Name p) b n "failure") t1.
Proof.
  intros Hn Hv. rewrite processFileWithRetry_equation_1.
  destruct (decide _); [lia|].
  unfold bind at 1. unfold log_Print at 1, emit at 1.
  unfold bind at 1. unfold attempt_line in Hv. rewrite Hv. reflexivity.
Qed.

Lemma pFWR_upload path p b n t t1 r t2 :
  n <= maxRetries ->
  validateBucketExists env p b (t ++ [Log (attempt_line path p b n)]) = Returned None t1 ->
  addressable path ->
  uploadToS3 env path b (key_of path) p t1 = Returned r t2 ->
  processFileWithRetry env path p b n t = after_upload env path p b n r t2.
Proof.
  intros Hn Hv Ha Hu. rewrite processFileWithRetry_equation_1.
  destruct (decide _); [lia|].
  unfold bind at 1. unfold log_Print at 1, emit at 1.
  unfold bind at 1. unfold attempt_line in Hv. rewrite Hv.
  cbv zeta.
  destruct (Nat.ltb_spec (List.length (strings.SplitN path filepath.Separator 4)) 4) as [Hlt|_].
  { unfold addressable in Ha. lia. }
  unfold bind at 1. unfold key_of in Hu. rewrite Hu. unfold after_upload.
  destruct r; reflexivity.
Qed.

Lemma pFWR_transient path p b n t t1 e t2 :
  n <= maxRetries ->
  validateBucketExists env p b (t ++ [Log (attempt_line path p b n)]) = Returned None t1 ->
  addressable path ->
  uploadToS3 env path b (key_of path) p t1 = Returned (Some e) t2 ->
  isTransientError e = true ->
  let t3 := t2 ++ [Log ("Error uploading to S3: " +:+ Error e)] in
  let j := Z.modulo (rand_source env t3) 1000 in
  processFileWithRetry env path p b n t =
  processFileWithRetry env path p b (n + 1)
    (t3 ++ [RandIntn 1000 j; TimeSleep (wrap64 (backoffDuration n + jitterDuration j))]).
Proof.
  intros Hn Hv Ha Hu Ht t3 j.
  rewrite (pFWR_upload path p b n t t1 (Some e) t2) by assumption.
  unfold after_upload. rewrite Ht.
  unfold bind, time_Sleep, log_Print, emit, rand_Intn, call.
  fold t3. fold j. rewrite <- app_assoc. reflexivity.
Qed.

Lemma upload_put_failed file b k p t e :
  config_loads env -> files_open env ->
  s3_PutObject env (t ++ [LoadDefaultConfig p None; OsOpen file None]) p b k file = Some e ->
  uploadToS3 env file b k p t =
    Returned (Some (ErrWrap "failed to upload file: " e))
             (t ++ [LoadDefaultConfig p None; OsOpen file None;
                    S3PutObject p b k file (Some e)]).
Proof.
  intros Hc Ho Hp. unfold uploadToS3, bind. rewrite getAWSConfig_ok by assumption.
  unfold os_Open_, PutObject_, call. rewrite Ho.
  rewrite <- !app_assoc. simpl. rewrite Hp. reflexivity.
Qed.

(** Finalizing to [failed]: two file-system calls and one ledger row,
    nothing sent to the endpoint, no sleep. *)
Lemma finalize_failed_ok path p b n t :
  ledger_accepts env ->
  exists t' now,
    (moveToFailed env path ;; logRetry env path (Name p) b n "failure") t = Returned tt t'
    /\ uploads t' = uploads t
    /\ count is_list t' = count is_list t
    /\ sleeps t' = sleeps t
    /\ ledger t' = ledger t ++ [mkRow path p b n now "failure"]
    /\ renames t' = renames t ++ [(path, failedPath path)].
Proof.
  intros Hl. destruct (moveToFailed_run path t) as (r1 & r2 & Hm).
  unfold bind at 1. rewrite Hm. rewrite logRetry_ok by assumption.
  do 2 eexists. split; [reflexivity|].
  unfold uploads. autorewrite with trace. cbn.
  rewrite !app_nil_r. repeat split; lia.
Qed.

End Executor.

Lemma always_timeout_config : config_loads always_timeout.
Proof. intros t p. reflexivity. Qed.
Lemma always_timeout_ledger : ledger_accepts always_timeout.
Proof. split; intros; reflexivity. Qed.
Lemma always_timeout_bucket : bucket_exists always_timeout p1 "b1".
Proof. intros t. exists ["media"; "b1"]. split; reflexivity. Qed.
Lemma always_timeout_open : files_open always_timeout.
Proof. intros t f. reflexivity. Qed.

(** ** Shapes: what a computation can append to the trace *)

Lemma only_ret Q {A} (a : A) : only Q (ret a).
Proof. intros t. exists []. rewrite app_nil_r. split; reflexivity. Qed.

Lemma only_panic Q {A} : only Q (@panic A).
Proof. intros t. exists []. rewrite app_nil_r. split; reflexivity. Qed.

Lemma only_emit Q ev : Q ev = true -> only Q (emit ev).
Proof.
  intros H t. exists [ev]. split; [reflexivity|].
  cbn. rewrite H. reflexivity.
Qed.

Lemma only_fatal Q {A} line : Q (Log line) = true -> only Q (@log_Fatal A line).
Proof.
  intros H t. exists [Log line]. split; [reflexivity|].
  cbn. rewrite H. reflexivity.
Qed.

Lemma only_call Q {A} (oracle : Trace -> A) (ev : A -> Event) :
  (forall r, Q (ev r) = true) -> only Q (call oracle ev).
Proof.
  intros H t. exists [ev (oracle t)]. split; [reflexivity|].
  cbn. rewrite H. reflexivity.
Qed.

Lemma only_bind Q {A B} (m : M A) (k : A -> M B) :
  only Q m -> (forall a, only Q (k a)) -> only Q (bind m k).
Proof.
  intros Hm Hk t. destruct (Hm t) as (s & Hs & Hq). unfold bind.
  destruct (m t) as [a t'|t'|t']; cbn in Hs; subst t'.
  - destruct (Hk a (t ++ s)) as (s' & Hs' & Hq'). exists (s ++ s').
    rewrite Hs', app_assoc, forallb_app, Hq, Hq'. split; reflexivity.
  - exists s. split; [reflexivity | assumption].
  - exists s. split; [reflexivity | assumption].
Qed.

Lemma only_weaken (Q Q' : Event -> bool) {A} (m : M A) :
  (forall ev, Q ev = true -> Q' ev = true) -> only Q m -> only Q' m.
Proof.
  intros Himp Hm t. destruct (Hm t) as (s & Hs & Hq). exists s. split; [exact Hs|].
  rewrite forallb_forall in *. intros ev Hin. apply Himp, Hq, Hin.
Qed.

Lemma count_none Q kind (s : Trace) :
  (forall ev, Q ev = true -> kind ev = false) ->
  forallb Q s = true -> count kind s = 0.
Proof.
  intros Hk. unfold count. induction s as [|ev s IH]; [reflexivity|].
  cbn. intros Hq. apply andb_true_iff in Hq as [Hev Hs].
  rewrite (Hk ev Hev). apply IH, Hs.
Qed.

(** A computation that appends no event of a kind leaves its count alone. *)
Lemma only_count Q kind {A} (m : M A) t :
  only Q m -> (forall ev, Q ev = true -> kind ev = false) ->
  count kind (trace_of (m t)) = count kind t.
Proof.
  intros Hm Hk. destruct (Hm t) as (s & -> & Hq).
  rewrite count_app, (count_none Q kind s Hk Hq). lia.
Qed.

Lemma only_adds Q kind {A} (m : M A) :
  only Q m -> (forall ev, Q ev = true -> kind ev = false) -> adds kind 0 m.
Proof. intros Hm Hk t. rewrite (only_count Q kind m t Hm Hk). lia. Qed.

Lemma adds_bind kind k {A B} (m : M A) (f : A -> M B) :
  adds kind 0 m -> (forall a, adds kind k (f a)) -> adds kind k (bind m f).
Proof.
  intros Hm Hf t. specialize (Hm t). unfold bind.
  destruct (m t) as [a t'|t'|t']; unfold trace_of in Hm |- *; [|lia|lia].
  specialize (Hf a t'). unfold trace_of in Hf |- *. lia.
Qed.

Lemma adds_weaken kind k k' {A} (m : M A) : k <= k' -> adds kind k m -> adds kind k' m.
Proof. intros Hk Hm t. specialize (Hm t). lia. Qed.

Lemma quiet_is_executor ev : quiet_event ev = true -> executor_event ev = true.
Proof. unfold executor_event. intros ->. reflexivity. Qed.

Lemma quiet_no_row ev : quiet_event ev = true -> is_row ev = false.
Proof. destruct ev; cbn; congruence. Qed.

Lemma executor_no_head ev : executor_event ev = true -> is_head ev = false.
Proof. destruct ev; cbn; congruence. Qed.

Ltac only_step :=
  match goal with
  | |- only _ (bind _ _) => apply only_bind; [| intros ?]
  | |- only _ (ret _) => apply only_ret
  | |- only _ panic => apply only_panic
  | |- only _ (call _ _) => apply only_call; intros; reflexivity
  | |- only _ (emit _) => apply only_emit; reflexivity
  | |- only _ (log_Print _) => apply only_emit; reflexivity
  | |- only _ (log_Fatal _) => apply only_fatal; reflexivity
  | |- only _ (time_Sleep _) => apply only_emit; reflexivity
  | |- only _ (os_MkdirAll_ _ _) => unfold os_MkdirAll_
  | |- only _ (os_Rename_ _ _ _) => unfold os_Rename_
  | |- only _ (os_Open_ _ _) => unfold os_Open_
  | |- only _ (rand_Intn _ _) => unfold rand_Intn
  | |- only _ (LoadDefaultConfig_ _ _) => unfold LoadDefaultConfig_
  | |- only _ (ListBuckets_ _ _) => unfold ListBuckets_
  | |- only _ (PutObject_ _ _ _ _ _) => unfold PutObject_
  | |- only _ (db_Prepare_ _) => unfold db_Prepare_
  | |- only _ (db_Exec_ _ _) => unfold db_Exec_
  | |- only _ (time_Now_ _) => unfold time_Now_
  | |- only _ (match ?x with _ => _ end) => destruct x
  | |- only _ (let _ := _ in _) => cbv zeta
  end.

Section ExecutorShape.

Variable env : Env.

Lemma only_getAWSConfig p : only quiet_event (getAWSConfig env p).
Proof. unfold getAWSConfig. repeat only_step. Qed.

Lemma only_moveToFailed path : only quiet_event (moveToFailed env path).
Proof. unfold moveToFailed. repeat only_step. Qed.

Lemma only_validate p b : only quiet_event (validateBucketExists env p b).
Proof.
  unfold validateBucketExists.
  apply only_bind; [apply only_getAWSConfig | intros ?]. repeat only_step.
Qed.

Lemma only_uploadToS3 f b k p : only quiet_event (uploadToS3 env f b k p).
Proof.
  unfold uploadToS3.
  apply only_bind; [apply only_getAWSConfig | intros ?]. repeat only_step.
Qed.

Lemma only_logRetry f pn b n o : only executor_event (logRetry env f pn b n o).
Proof. unfold logRetry. repeat only_step. Qed.

Ltac quiet_part lemma :=
  apply (only_weaken quiet_event executor_event); [exact quiet_is_executor | apply lemma].

(** Whatever the environment answers, the executor of [main.go] performs
    only these calls: logging, [MkdirAll], [Rename], [Open], loading the
    SDK configuration, [ListBuckets], [PutObject], drawing the jitter,
    sleeping, and writing the ledger. *)
Lemma only_processFileWithRetry path p b n :
  only executor_event (processFileWithRetry env path p b n).
Proof.
  remember (S maxRetries - n) as k eqn:Hk. revert n Hk.
  induction k as [k IH] using lt_wf_ind. intros n Hk.
  rewrite processFileWithRetry_equation_1.
  destruct (decide (maxRetries < n)).
  - repeat first [ quiet_part only_moveToFailed | apply only_logRetry | only_step ].
  - repeat first [ quiet_part only_moveToFailed | apply only_logRetry
                 | quiet_part only_validate | quiet_part only_uploadToS3
                 | only_step
                 | (apply (IH (S maxRetries - (n + 1))); lia) ].
Qed.

Lemma adds_row_logRetry f pn b n o : adds is_row 1 (logRetry env f pn b n o).
Proof.
  intros t. unfold logRetry, bind, db_Prepare_, time_Now_, db_Exec_, call, log_Fatal, ret.
  destruct (db_Prepare env t).
  { unfold trace_of, count. rewrite !List.filter_app, !List.length_app. cbn. lia. }
  destruct (db_Exec env _ _);
    unfold trace_of, count; rewrite !List.filter_app, !List.length_app; cbn; lia.
Qed.

Ltac quiet_rows lemma := apply (only_adds quiet_event); [apply lemma | exact quiet_no_row].

Ltac adds_step :=
  match goal with
  | |- adds _ _ (bind (log_Print _) _) =>
      apply adds_bind; [apply (only_adds quiet_event);
                        [apply only_emit; reflexivity | exact quiet_no_row] | intros ?]
  | |- adds _ _ (bind (moveToFailed _ _) _) =>
      apply adds_bind; [quiet_rows only_moveToFailed | intros ?]
  | |- adds _ _ (bind (validateBucketExists _ _ _) _) =>
      apply adds_bind; [quiet_rows only_validate | intros ?]
  | |- adds _ _ (bind (uploadToS3 _ _ _ _ _) _) =>
      apply adds_bind; [quiet_rows only_uploadToS3 | intros ?]
  | |- adds _ _ (bind _ _) =>
      apply adds_bind;
      [apply (only_adds quiet_event); [repeat only_step | exact quiet_no_row] | intros ?]
  | |- adds _ _ (logRetry _ _ _ _ _ _) => apply adds_row_logRetry
  | |- adds _ _ (log_Print _) =>
      apply (only_adds quiet_event); [apply only_emit; reflexivity | exact quiet_no_row];
      fail
  | |- adds _ _ (match ?x with _ => _ end) => destruct x
  | |- adds _ _ (let _ := _ in _) => cbv zeta
  end.

(** One call of the executor appends at most one row to the ledger,
    however many upload attempts it makes. *)
Lemma adds_row_processFileWithRetry path p b n :
  adds is_row 1 (processFileWithRetry env path p b n).
Proof.
  remember (S maxRetries - n) as k eqn:Hk. revert n Hk.
  induction k as [k IH] using lt_wf_ind. intros n Hk.
  rewrite processFileWithRetry_equation_1.
  destruct (decide (maxRetries < n)).
  - repeat adds_step.
  - repeat first [ adds_step | (apply (IH (S maxRetries - (n + 1))); lia) ].
    apply (adds_weaken is_row 0 1); [lia|].
    apply (only_adds quiet_event); [apply only_emit; reflexivity | exact quiet_no_row].
Qed.

End ExecutorShape.

Lemma ledger_length t : List.length (ledger t) = count is_row t.
Proof.
  unfold count. induction t as [|ev t IH]; [reflexivity|].
  destruct ev; cbn; try exact IH. destruct res; cbn; [exact IH | f_equal; exact IH].
Qed.

(** X1. One call of the executor appends at most one row to the ledger,
    whatever the environment answers and however many upload attempts the
    call makes: a transient failure writes no row of its own. *)
Theorem X1_at_most_one_ledger_row env path p b n t :
  List.length (ledger (trace_of (processFileWithRetry env path p b n t)))
  <= List.length (ledger t) + 1.
Proof.
  rewrite !ledger_length. apply adds_row_processFileWithRetry.
Qed.

(** ** A bound on the upload attempts *)

Lemma adds_bind_plus kind k1 k2 {A B} (m : M A) (f : A -> M B) :
  adds kind k1 m -> (forall a, adds kind k2 (f a)) -> adds kind (k1 + k2) (bind m f).
Proof.
  intros Hm Hf t. specialize (Hm t). unfold bind.
  destruct (m t) as [a t'|t'|t']; unfold trace_of in Hm |- *; [|lia|lia].
  specialize (Hf a t'). unfold trace_of in Hf |- *. lia.
Qed.

Lemma no_put_spec ev : no_put ev = true -> is_put ev = false.
Proof. unfold no_put. destruct (is_put ev); [discriminate | reflexivity]. Qed.

Section UploadBound.

Variable env : Env.

Lemma no_put_getAWSConfig p : only no_put (getAWSConfig env p).
Proof. unfold getAWSConfig. repeat only_step. Qed.

Lemma no_put_moveToFailed path : only no_put (moveToFailed env path).
Proof. unfold moveToFailed. repeat only_step. Qed.

Lemma no_put_logRetry f pn b n o : only no_put (logRetry env f pn b n o).
Proof. unfold logRetry. repeat only_step. Qed.

Lemma no_put_validate p b : only no_put (validateBucketExists env p b).
Proof.
  unfold validateBucketExists.
  apply only_bind; [apply no_put_getAWSConfig | intros ?]. repeat only_step.
Qed.

(** One call of [uploadToS3] calls [PutObject] at most once. *)
Lemma adds_put_uploadToS3 f b k p : adds is_put 1 (uploadToS3 env f b k p).
Proof.
  unfold uploadToS3.
  apply (adds_bind_plus is_put 0 1);
    [apply (only_adds no_put); [apply no_put_getAWSConfig | exact no_put_spec] | intros _].
  apply (adds_bind_plus is_put 0 1);
    [apply (only_adds no_put); [repeat only_step | exact no_put_spec] | intros [e|]].
  - apply (adds_weaken is_put 0 1); [lia|].
    apply (only_adds no_put); [only_step | exact no_put_spec].
  - intros t. unfold bind, PutObject_, call, ret.
    destruct (s3_PutObject env t p b k f);
      unfold trace_of, count; rewrite List.filter_app, List.length_app; cbn; lia.
Qed.

Ltac quiet_puts tac :=
  apply (only_adds no_put); [tac | exact no_put_spec].

Lemma adds_put_finalize_failed path p b n :
  adds is_put 0 (moveToFailed env path ;; logRetry env path (Name p) b n "failure").
Proof.
  quiet_puts ltac:(idtac; apply only_bind; [apply no_put_moveToFailed | intros ?; apply no_put_logRetry]).
Qed.

Lemma adds_put_processFileWithRetry path p b n :
  adds is_put (S maxRetries - n) (processFileWithRetry env path p b n).
Proof.
  remember (S maxRetries - n) as k eqn:Hk. revert n Hk.
  induction k as [k IH] using lt_wf_ind. intros n Hk.
  rewrite processFileWithRetry_equation_1.
  destruct (decide (maxRetries < n)) as [Hgt|Hle].
  - apply (adds_weaken is_put 0); [lia|].
    apply (adds_bind_plus is_put 0 0); [quiet_puts ltac:(idtac; only_step) | intros _].
    apply adds_put_finalize_failed.
  - assert (k = 1 + (S maxRetries - (n + 1))) as -> by lia.
    apply (adds_bind_plus is_put 0); [quiet_puts ltac:(idtac; only_step) | intros _].
    apply (adds_bind_plus is_put 0); [quiet_puts ltac:(idtac; apply no_put_validate) | intros [e|]].
    { apply (adds_weaken is_put 0); [lia|].
      apply (adds_bind_plus is_put 0 0); [quiet_puts ltac:(idtac; only_step) | intros _].
      apply adds_put_finalize_failed. }
    cbv zeta. destruct (Nat.ltb _ 4).
    { apply (adds_weaken is_put 0); [lia|]. quiet_puts ltac:(idtac; only_step). }
    apply (adds_bind_plus is_put 1); [apply adds_put_uploadToS3 | intros [e|]].
    + apply (adds_bind_plus is_put 0); [quiet_puts ltac:(idtac; only_step) | intros _].
      destruct (isTransientError e).
      * cbv zeta.
        apply (adds_bind_plus is_put 0); [quiet_puts ltac:(idtac; repeat only_step) | intros r].
        apply (adds_bind_plus is_put 0); [quiet_puts ltac:(idtac; only_step) | intros _].
        apply (IH (S maxRetries - (n + 1))); lia.
      * apply (adds_weaken is_put 0); [lia|]. apply adds_put_finalize_failed.
    + apply (adds_weaken is_put 0); [lia|].
      quiet_puts ltac:(idtac; repeat first [apply no_put_logRetry | only_step]).
Qed.

End UploadBound.

(** X2. In every environment, one call of the executor started at retry
    count [n] calls [PutObject] at most [maxRetries + 1 - n] times: at most
    11 times from [n = 0], and never once [n] has passed [maxRetries]. *)
Theorem X2_at_most_eleven_uploads env path p b n t :
  uploads (trace_of (processFileWithRetry env path p b n t))
  <= uploads t + (S maxRetries - n).
Proof. apply adds_put_processFileWithRetry. Qed.

(** ** The event handler: path addressing and profile lookup *)

Lemma SplitN_lt_2 s sep n :
  2 <= n ->
  (List.length (strings.SplitN s sep n) < 2 <-> strings.Cut s sep = None).
Proof.
  intros Hn. destruct n as [|[|n]]; [lia | lia |].
  cbn [strings.SplitN]. destruct (strings.Cut s sep) as [[before after]|].
  - split; [|discriminate]. cbn [List.length].
    destruct n; cbn [strings.SplitN List.length]; [lia|].
    destruct (strings.Cut after sep) as [[? ?]|]; cbn [List.length]; lia.
  - split; [reflexivity|]. intros _. cbn. lia.
Qed.

Lemma SplitN_first s sep n d :
  2 <= n ->
  nth 0 (strings.SplitN s sep n) d
  = match strings.Cut s sep with Some (before, _) => before | None => s end.
Proof.
  intros Hn. destruct n as [|[|n]]; [lia | lia |].
  cbn [strings.SplitN]. destruct (strings.Cut s sep) as [[before after]|]; reflexivity.
Qed.

(** The pieces [handleFileEvent] looks at agree with the path's segments:
    there are fewer than two of the former exactly when there are fewer
    than two of the latter, and the first ones are the same. *)
Lemma parts_short rel :
  List.length (strings.SplitN rel filepath.Separator 3) < 2
  <-> List.length (segments rel) < 2.
Proof.
  unfold segments, strings.Split.
  rewrite !SplitN_lt_2 by lia. reflexivity.
Qed.

Lemma parts_first rel :
  nth 0 (strings.SplitN rel filepath.Separator 3) "" = nth 0 (segments rel) "".
Proof.
  unfold segments, strings.Split.
  rewrite !SplitN_first by lia. reflexivity.
Qed.

Section Handler.

Variable env : Env.
Variable serverDir : string.
Variable profiles : gmap string Profile.

(** C6 (amended). A notified path whose relative path under the incoming
    root has fewer than two segments is dropped without a trace: the handler
    returns at once, logs nothing, claims nothing, calls no endpoint and
    writes no ledger row. *)
Theorem C6_short_path_dropped path t :
  List.length (segments (Rel_or_empty (filepath.Join [serverDir; "incoming"]) path)) < 2 ->
  handleFileEvent env serverDir profiles path t = Returned tt t.
Proof.
  intros Hshort. apply parts_short in Hshort.
  unfold handleFileEvent. cbv zeta.
  destruct (Nat.ltb_spec
              (List.length (strings.SplitN
                 (Rel_or_empty (filepath.Join [serverDir; "incoming"]) path)
                 filepath.Separator 3)) 2) as [_|Hge]; [reflexivity | lia].
Qed.

(** C10 (amended). A file-arrival event whose relative path has at least
    two segments and whose first segment names no known profile is logged
    as an unknown profile and dropped before any claim: the log line is the
    only thing that happens, so the file is not renamed (it stays where it
    is in [incoming] and is not moved to [failed]), no endpoint is called
    and no ledger row is written. *)
Theorem C10_unknown_profile_dropped path t :
  let rel := Rel_or_empty (filepath.Join [serverDir; "incoming"]) path in
  2 <= List.length (segments rel) ->
  profiles !! nth 0 (segments rel) "" = None ->
  exists t',
    handleFileEvent env serverDir profiles path t = Returned tt t'
    /\ t' = t ++ [Log ("Unknown profile: " +:+ nth 0 (segments rel) "")]
    /\ renames t' = renames t
    /\ ledger t' = ledger t
    /\ uploads t' = uploads t
    /\ count is_list t' = count is_list t.
Proof.
  intros rel Hlen Hunknown. eexists. split; [|split; [reflexivity|]].
  - unfold handleFileEvent. cbv zeta. fold rel.
    destruct (Nat.ltb_spec
                (List.length (strings.SplitN rel filepath.Separator 3)) 2) as [Hlt|_].
    { apply parts_short in Hlt. lia. }
    rewrite parts_first, Hunknown. reflexivity.
  - unfold uploads. autorewrite with trace. cbn.
    rewrite !app_nil_r. repeat split; lia.
Qed.

End Handler.

Lemma C6_short_path_dropped_witness :
  handleFileEvent calm "srv" known_profiles "srv/incoming/stray.txt" [Log "started"]
  = Returned tt [Log "started"].
Proof.
  apply (C6_short_path_dropped calm "srv" known_profiles "srv/incoming/stray.txt").
  vm_compute. lia.
Defined.

(** C6 as stated fails: a notified path with two segments (fewer than
    three) is not dropped.  For [srv/incoming/p1/notes.txt] the handler takes
    [notes.txt] for the bucket, claims the path by renaming it into
    [processing], asks the endpoint for its buckets, and then moves the path
    to [failed] and writes a ledger row. *)
Lemma C6_counterexample :
  let run := handleFileEvent calm "srv" known_profiles "srv/incoming/p1/notes.txt" [] in
  List.length (segments "p1/notes.txt") = 2
  /\ Rel_or_empty (filepath.Join ["srv"; "incoming"]) "srv/incoming/p1/notes.txt" = "p1/notes.txt"
  /\ renames (trace_of run) =
       [("srv/incoming/p1/notes.txt", "srv/processing/p1/notes.txt");
        ("srv/processing/p1/notes.txt", "srv/failed/p1/notes.txt")]
  /\ count is_list (trace_of run) = 1
  /\ List.map (fun r => (col_bucket r, col_retries r, col_upload_outcome r))
              (ledger (trace_of run))
     = [("notes.txt", 0, "failure")].
Proof. vm_compute. repeat split. Qed.

Lemma C10_unknown_profile_dropped_witness :
  exists t',
    handleFileEvent calm "srv" known_profiles "srv/incoming/p2/b1/x.bin" [] = Returned tt t'
    /\ t' = [] ++ [Log ("Unknown profile: " +:+
                        nth 0 (segments (Rel_or_empty (filepath.Join ["srv"; "incoming"])
                                                      "srv/incoming/p2/b1/x.bin")) "")]
    /\ renames t' = renames []
    /\ ledger t' = ledger []
    /\ uploads t' = uploads []
    /\ count is_list t' = count is_list [].
Proof.
  apply (C10_unknown_profile_dropped calm "srv" known_profiles "srv/incoming/p2/b1/x.bin" []).
  - vm_compute. lia.
  - vm_compute. reflexivity.
Defined.

(** C10 as stated fails on the log line: a file that arrives directly
    under the incoming root, as [srv/incoming/stray.txt], has a first
    segment that names no known profile, and its event is dropped, but
    nothing at all is logged for it. *)
Lemma C10_counterexample :
  let run := handleFileEvent calm "srv" known_profiles "srv/incoming/stray.txt" [] in
  nth 0 (segments (Rel_or_empty (filepath.Join ["srv"; "incoming"]) "srv/incoming/stray.txt")) ""
    = "stray.txt"
  /\ known_profiles !! "stray.txt" = None
  /\ run = Returned tt []
  /\ logged (trace_of run) = [].
Proof. vm_compute. repeat split. Qed.

(** ** C7: which errors end the process *)

Lemma returns_ret {A} (a : A) : returns (ret a).
Proof. intros t. exists a, t. reflexivity. Qed.

Lemma returns_emit ev : returns (emit ev).
Proof. intros t. eexists _, _. reflexivity. Qed.

Lemma returns_call {A} (oracle : Trace -> A) (ev : A -> Event) : returns (call oracle ev).
Proof. intros t. eexists _, _. reflexivity. Qed.

Lemma returns_bind {A B} (m : M A) (k : A -> M B) :
  returns m -> (forall a, returns (k a)) -> returns (bind m k).
Proof.
  intros Hm Hk t. destruct (Hm t) as (a & t' & Hrun).
  unfold bind. rewrite Hrun. apply Hk.
Qed.

Ltac returns_step :=
  match goal with
  | |- returns (bind _ _) => apply returns_bind; [| intros ?]
  | |- returns (ret _) => apply returns_ret
  | |- returns (call _ _) => apply returns_call
  | |- returns (emit _) => apply returns_emit
  | |- returns (log_Print _) => apply returns_emit
  | |- returns (time_Sleep _) => apply returns_emit
  | |- returns (os_MkdirAll_ _ _) => apply returns_call
  | |- returns (os_Rename_ _ _ _) => apply returns_call
  | |- returns (os_Open_ _ _) => apply returns_call
  | |- returns (rand_Intn _ _) => apply returns_call
  | |- returns (ListBuckets_ _ _) => apply returns_call
  | |- returns (PutObject_ _ _ _ _ _) => apply returns_call
  | |- returns (let _ := _ in _) => cbv zeta
  end.

Section Containment.

Variable env : Env.
Hypothesis Hconfig : config_loads env.
Hypothesis Hledger : ledger_accepts env.

Lemma returns_getAWSConfig p : returns (getAWSConfig env p).
Proof. intros t. eexists _, _. apply getAWSConfig_ok, Hconfig. Qed.

Lemma returns_logRetry f pn b n o : returns (logRetry env f pn b n o).
Proof. intros t. eexists _, _. apply logRetry_ok, Hledger. Qed.

Lemma returns_moveToFailed path : returns (moveToFailed env path).
Proof. unfold moveToFailed. repeat returns_step. Qed.

Lemma returns_validate p b : returns (validateBucketExists env p b).
Proof.
  unfold validateBucketExists.
  apply returns_bind; [apply returns_getAWSConfig | intros ?].
  apply returns_bind; [returns_step | intros [err|buckets]]; [returns_step|].
  destruct (existsb _ _); returns_step.
Qed.

Lemma returns_uploadToS3 f b k p : returns (uploadToS3 env f b k p).
Proof.
  unfold uploadToS3.
  apply returns_bind; [apply returns_getAWSConfig | intros ?].
  apply returns_bind; [returns_step | intros [err|]]; [returns_step|].
  apply returns_bind; [returns_step | intros [err|]]; returns_step.
Qed.

(** With the SDK configuration loading and the ledger writable, the
    executor returns to its caller whatever the bucket listing, the opening
    of the file and the upload answer. *)
Lemma returns_processFileWithRetry path p b n :
  returns (processFileWithRetry env path p b n).
Proof.
  remember (S maxRetries - n) as k eqn:Hk. revert n Hk.
  induction k as [k IH] using lt_wf_ind. intros n Hk.
  rewrite processFileWithRetry_equation_1.
  destruct (decide (maxRetries < n)).
  - repeat first [ apply returns_moveToFailed | apply returns_logRetry | returns_step ].
  - apply returns_bind; [returns_step | intros _].
    apply returns_bind; [apply returns_validate | intros [e|]].
    { repeat first [ apply returns_moveToFailed | apply returns_logRetry | returns_step ]. }
    cbv zeta. destruct (Nat.ltb _ 4); [returns_step|].
    apply returns_bind; [apply returns_uploadToS3 | intros [e|]].
    + apply returns_bind; [returns_step | intros _].
      destruct (isTransientError e).
      * cbv zeta. apply returns_bind; [returns_step | intros r].
        apply returns_bind; [returns_step | intros _].
        apply (IH (S maxRetries - (n + 1))); lia.
      * repeat first [ apply returns_moveToFailed | apply returns_logRetry | returns_step ].
    + repeat first [ apply returns_logRetry | returns_step ].
Qed.

Lemma returns_handleFileEvent serverDir profiles path :
  returns (handleFileEvent env serverDir profiles path).
Proof.
  unfold handleFileEvent. cbv zeta.
  destruct (Nat.ltb _ 2); [returns_step|].
  destruct (profiles !! _); [|returns_step].
  repeat first [ apply returns_processFileWithRetry | returns_step ].
Qed.

End Containment.

(** C7 (amended). Startup configuration errors are not the only errors
    that end the process.  In server mode the errors of a claimed file's
    bucket validation, of opening it and of its upload are contained: the
    handler returns to the event loop whatever they are, as long as the SDK
    configuration loads and the ledger accepts writes.  In copy mode any
    error of the bucket validation (bucket not found included) and any
    local I/O error while copying a file (reading the source, creating the
    directory, writing the copy) ends the whole process through
    [log.Fatal]. *)
Theorem C7_fatal_and_contained_errors env :
  (config_loads env -> ledger_accepts env ->
   forall serverDir profiles path t,
   exists t', handleFileEvent env serverDir profiles path t = Returned tt t')
  /\ (forall serverDir sourceFile destURI recursiveFlag profiles p e t t1,
        let parts := strings.SplitN (strings.TrimPrefix destURI "s3://") "/" 3 in
        3 <= List.length parts ->
        profiles !! nth 0 parts "" = Some p ->
        validateBucketExists env p (nth 1 parts "") t = Returned (Some e) t1 ->
        runCopyMode env serverDir sourceFile destURI recursiveFlag profiles t
        = Exited (t1 ++ [Log ("Error: " +:+ Error e)]))
  /\ (forall src dst e t,
        os_ReadFile env t src = inl e ->
        copyFile env src dst t = Exited (t ++ [OsReadFile src (inl e); Log (Error e)]))
  /\ (forall src dst input e t,
        os_ReadFile env t src = inr input ->
        os_MkdirAll env (t ++ [OsReadFile src (inr input)]) (filepath.Dir dst) = Some e ->
        copyFile env src dst t
        = Exited (t ++ [OsReadFile src (inr input);
                        OsMkdirAll (filepath.Dir dst) (Some e); Log (Error e)]))
  /\ (forall src dst input e t,
        os_ReadFile env t src = inr input ->
        os_MkdirAll env (t ++ [OsReadFile src (inr input)]) (filepath.Dir dst) = None ->
        os_WriteFile env (t ++ [OsReadFile src (inr input); OsMkdirAll (filepath.Dir dst) None])
                     dst input = Some e ->
        copyFile env src dst t
        = Exited (t ++ [OsReadFile src (inr input); OsMkdirAll (filepath.Dir dst) None;
                        OsWriteFile dst input (Some e); Log (Error e)])).
Proof.
  split; [|split; [|split; [|split]]].
  - intros Hc Hl serverDir profiles path t.
    destruct (returns_handleFileEvent env Hc Hl serverDir profiles path t) as ([] & t' & Hrun).
    exists t'. exact Hrun.
  - intros serverDir sourceFile destURI recursiveFlag profiles p e t t1 parts Hlen Hp Hv.
    unfold runCopyMode. cbv zeta. fold parts.
    destruct (Nat.ltb_spec (List.length parts) 3) as [Hlt|_]; [lia|].
    rewrite Hp. unfold bind at 1. rewrite Hv. reflexivity.
  - intros src dst e t Hr.
    unfold copyFile, bind, os_ReadFile_, call. rewrite Hr.
    unfold log_Fatal. rewrite <- app_assoc. reflexivity.
  - intros src dst input e t Hr Hm.
    unfold copyFile, bind, os_ReadFile_, os_MkdirAll_, call. rewrite Hr, Hm.
    unfold log_Fatal. rewrite <- !app_assoc. reflexivity.
  - intros src dst input e t Hr Hm Hw.
    unfold copyFile, bind, os_ReadFile_, os_MkdirAll_, os_WriteFile_, call.
    rewrite Hr, Hm. rewrite <- !app_assoc. cbn [app]. rewrite Hw.
    unfold log_Fatal. rewrite <- !app_assoc. reflexivity.
Qed.

(** The server-mode part on the retry-exhaustion scenario, and the copy-mode
    parts on a bucket that is not listed and on a source that cannot be
    read. *)
Lemma C7_fatal_and_contained_errors_witness :
  (exists t', handleFileEvent always_timeout "srv" known_profiles
                "srv/incoming/p1/b1/x.bin" [] = Returned tt t')
  /\ runCopyMode calm "srv" "photos/a.jpg" "s3://p1/missing-bucket/photos/a.jpg"
                 false known_profiles []
     = Exited ([LoadDefaultConfig p1 None; S3ListBuckets p1 (inr ["media"; "b1"])]
               ++ [Log ("Error: " +:+ Error (ErrText "bucket missing-bucket does not exist on S3 server"))])
  /\ copyFile source_unreadable "photos/a.jpg" "srv/incoming_tmp/p1/media/photos/a.jpg" []
     = Exited ([] ++ [OsReadFile "photos/a.jpg"
                        (inl (ErrText "open photos/a.jpg: no such file or directory"));
                      Log (Error (ErrText "open photos/a.jpg: no such file or directory"))]).
Proof.
  split; [|split].
  - apply (proj1 (C7_fatal_and_contained_errors always_timeout)).
    + exact always_timeout_config.
    + exact always_timeout_ledger.
  - apply (proj1 (proj2 (C7_fatal_and_contained_errors calm))
             "srv" "photos/a.jpg" "s3://p1/missing-bucket/photos/a.jpg" false
             known_profiles p1
             (ErrText "bucket missing-bucket does not exist on S3 server") []).
    + vm_compute. lia.
    + vm_compute. reflexivity.
    + reflexivity.
  - apply (proj1 (proj2 (proj2 (C7_fatal_and_contained_errors source_unreadable)))).
    reflexivity.
Defined.

(** C7 as stated fails: in copy mode a bucket that the endpoint does not
    list ends the process.  Copying [photos/a.jpg] to
    [s3://p1/missing-bucket/photos/a.jpg] exits through [log.Fatalf] right
    after the bucket listing; nothing is copied. *)
Lemma C7_counterexample :
  runCopyMode calm "srv" "photos/a.jpg" "s3://p1/missing-bucket/photos/a.jpg"
              false known_profiles []
  = Exited [LoadDefaultConfig p1 None;
            S3ListBuckets p1 (inr ["media"; "b1"]);
            Log "Error: bucket missing-bucket does not exist on S3 server"].
Proof. vm_compute. reflexivity. Qed.

(** ** C5: the order of startup in server mode *)

(** Server mode is the three steps of [runServerMode] one after the other:
    once the scan of [processing] and the watcher setup have returned, what
    is left is the scan of [incoming], run on the trace the watcher setup
    has left. *)
Lemma runServerMode_steps env serverDir profiles t t1 t2 :
  processExistingFiles env serverDir profiles t = Returned tt t1 ->
  setupWatcher env serverDir t1 = Returned tt t2 ->
  runServerMode env serverDir profiles t
  = processIncomingFiles env serverDir profiles t2.
Proof.
  intros H1 H2. unfold runServerMode, bind. rewrite H1, H2. reflexivity.
Qed.

(** C5, evaluated on the crash-recovery scenario ([x.bin] left in
    [srv/processing/p1/b1], [y.bin] waiting in [srv/incoming/p1/b1]): the
    file left in [processing] is finalized first, but the watcher is created
    and the incoming directories are put under watch before the scan of
    [incoming] claims [y.bin], not after it. *)
Theorem C5_watch_enabled_before_incoming_scan :
  let run := runServerMode after_crash "srv" known_profiles [] in
  exists i j k,
    position (is_rename_of "srv/processing/p1/b1/x.bin") (trace_of run) = Some i
    /\ position is_watch (trace_of run) = Some j
    /\ position (is_rename_of "srv/incoming/p1/b1/y.bin") (trace_of run) = Some k
    /\ i < j < k
    /\ List.filter is_watch (trace_of run)
       = [WatcherAdd "srv/incoming" None; WatcherAdd "srv/incoming/p1" None;
          WatcherAdd "srv/incoming/p1/b1" None].
Proof.
  cbv zeta. eexists _, _, _.
  split; [vm_compute; reflexivity|].
  split; [vm_compute; reflexivity|].
  split; [vm_compute; reflexivity|].
  split; [lia | vm_compute; reflexivity].
Qed.

(** ** C4: the check of the remote object before an upload *)

Lemma executor_event_count_head {A} (m : M A) t :
  only executor_event m -> count is_head (trace_of (m t)) = count is_head t.
Proof. intros Hm. apply (only_count executor_event); [exact Hm | exact executor_no_head]. Qed.

Lemma only_handleFileEvent env serverDir profiles path :
  only executor_event (handleFileEvent env serverDir profiles path).
Proof.
  unfold handleFileEvent. cbv zeta.
  destruct (Nat.ltb _ 2); [only_step|].
  destruct (profiles !! _); [|only_step].
  repeat first [ apply only_processFileWithRetry | only_step ].
Qed.

(** An upload of [main.go] that reports success has called [PutObject]
    exactly once. *)
Lemma uploadToS3_success_transfers env file b k p t t' :
  uploadToS3 env file b k p t = Returned None t' -> uploads t' = uploads t + 1.
Proof.
  unfold uploadToS3, getAWSConfig, bind, LoadDefaultConfig_, os_Open_, PutObject_,
    call, log_Fatal, ret.
  destruct (config_LoadDefaultConfig env t p); [discriminate|].
  destruct (os_Open env _ file); [discriminate|].
  destruct (s3_PutObject env _ p b k file); [discriminate|].
  intros [= <-]. unfold uploads. autorewrite with trace. cbn. lia.
Qed.

Lemma executor_event_count_head_pFWR env path p b n t :
  count is_head (trace_of (processFileWithRetry env path p b n t)) = count is_head t.
Proof. apply executor_event_count_head, only_processFileWithRetry. Qed.

(** C4 (amended). The retrying executor of [main.go] never queries the
    remote object's metadata, neither before the first attempt nor before a
    retry: handling an event, and running the executor from any retry
    count, issues no HEAD request whatever the environment answers, and an
    upload that reports success has transferred the file with one
    [PutObject]. *)
Theorem C4_metadata_check env :
  (forall serverDir profiles path t,
     count is_head (trace_of (handleFileEvent env serverDir profiles path t))
     = count is_head t)
  /\ (forall path p b n t,
        count is_head (trace_of (processFileWithRetry env path p b n t))
        = count is_head t)
  /\ (forall file b k p t t',
        uploadToS3 env file b k p t = Returned None t' -> uploads t' = uploads t + 1).
Proof.
  split; [|split].
  - intros serverDir profiles path t.
    apply executor_event_count_head, only_handleFileEvent.
  - intros path p b n t. apply executor_event_count_head_pFWR.
  - intros file b k p t t'. apply uploadToS3_success_transfers.
Qed.

(** C4 as stated fails on [main.go]: with the object already on the
    endpoint under the local file's digest, handling the arrival of
    [srv/incoming/p1/b1/x.bin], claimed as the regular file
    [srv/processing/p1/b1], asks for no metadata at all and transfers the
    file with [PutObject] before finalizing to [completed]. *)
Lemma C4_counterexample :
  let run := handleFileEvent present_on_full_disk "srv" known_profiles
               "srv/incoming/p1/b1/x.bin" [] in
  s3_HeadObject present_on_full_disk [] p1 "b1" "b1"
    = inr (quoted "9a0364b9e99bb480dd25e1f0284c8555")
  /\ file_md5 present_on_full_disk [] "srv/processing/p1/b1"
    = inr "9a0364b9e99bb480dd25e1f0284c8555"
  /\ count is_head (trace_of run) = 0
  /\ uploads (trace_of run) = 1
  /\ moved (trace_of run) =
       [("srv/incoming/p1/b1/x.bin", "srv/processing/p1/b1");
        ("srv/processing/p1/b1", "srv/completed/p1/b1")]
  /\ List.map (fun r => (col_retries r, col_upload_outcome r)) (ledger (trace_of run))
     = [(0, "success")].
Proof. vm_compute. repeat split. Qed.

(** * Further properties of the code *)

(** ** Loops and walks *)

Lemma only_for_range Q {A} (xs : list A) (body : A -> M unit) :
  (forall x, only Q (body x)) -> only Q (for_range xs body).
Proof.
  intros Hbody. induction xs as [|x xs IH]; cbn [for_range].
  - apply only_ret.
  - apply only_bind; [apply Hbody | intros _; exact IH].
Qed.

Lemma only_walk_entries Q fn entries :
  (forall e, only Q (fn e)) -> only Q (walk_entries fn entries).
Proof.
  intros Hfn. induction entries as [|e rest IH]; cbn [walk_entries].
  - apply only_ret.
  - apply only_bind; [apply Hfn | intros [err|]]; [apply only_ret | exact IH].
Qed.

Lemma only_Walk Q env root fn :
  (forall entries, Q (FilepathWalk root entries) = true) ->
  (forall e, only Q (fn e)) -> only Q (filepath_Walk_ env root fn).
Proof.
  intros Hq Hfn. unfold filepath_Walk_.
  apply only_bind; [apply only_call; exact Hq | intros entries].
  apply only_walk_entries, Hfn.
Qed.

Lemma only_on_files Q act e :
  (forall path, only Q (act path)) -> only Q (on_files act e).
Proof.
  intros Hact. destruct e as [path isDir|path info err];
    [destruct isDir | destruct info as [[|]|]]; cbn [on_files];
    repeat first [ apply Hact | only_step ].
Qed.

(** A computation that appends no ledger row, no sleep or no rename leaves
    the ledger, the sleeps or the renames as they were. *)
Lemma flat_map_none {B} (f : Event -> list B) (Q : Event -> bool) (s : Trace) :
  (forall ev, Q ev = true -> f ev = []) -> forallb Q s = true -> flat_map f s = [].
Proof.
  intros Hf. induction s as [|ev s IH]; [reflexivity|].
  cbn. intros Hq. apply andb_true_iff in Hq as [Hev Hs].
  rewrite (Hf ev Hev), (IH Hs). reflexivity.
Qed.

Lemma ledger_none Q (s : Trace) :
  (forall ev, Q ev = true -> is_row ev = false) -> forallb Q s = true -> ledger s = [].
Proof.
  intros Hq Hs. apply length_zero_iff_nil.
  rewrite ledger_length. apply (count_none Q); assumption.
Qed.

(** ** The scan of [processing] at startup *)

Section Recovery.

Variable env : Env.

Lemma only_recovery_uploadToS3 f b k p : only recovery_event (uploadToS3 env f b k p).
Proof. unfold uploadToS3, getAWSConfig. repeat only_step. Qed.

Lemma only_recovery_processFile path p : only recovery_event (processFile env path p).
Proof.
  unfold processFile, moveToFailed.
  repeat first [ apply only_recovery_uploadToS3 | only_step ].
Qed.

Lemma only_recovery_processExistingFiles serverDir profiles :
  only recovery_event (processExistingFiles env serverDir profiles).
Proof.
  unfold processExistingFiles. apply only_for_range. intros p. cbv zeta.
  apply only_bind; [|intros _; apply only_ret].
  apply only_Walk; [reflexivity|]. intros e.
  apply only_on_files. intros path. apply only_recovery_processFile.
Qed.

End Recovery.

(** X3. Whatever the disk and the endpoint answer, the startup scan of
    [processing] writes no ledger row, never sleeps and never lists the
    buckets: a file left in [processing] is uploaded once, without bucket
    validation, without retry and without a trace in the ledger. *)
Theorem X3_recovery_scan_unledgered env serverDir profiles t :
  let t' := trace_of (processExistingFiles env serverDir profiles t) in
  ledger t' = ledger t
  /\ sleeps t' = sleeps t
  /\ count is_list t' = count is_list t.
Proof.
  cbv zeta.
  destruct (only_recovery_processExistingFiles env serverDir profiles t) as (s & -> & Hs).
  autorewrite with trace.
  rewrite (ledger_none recovery_event s), (count_none recovery_event is_list s); try assumption.
  - unfold sleeps at 2.
    rewrite (flat_map_none _ recovery_event s); try assumption.
    + rewrite !app_nil_r, Nat.add_0_r. repeat split; reflexivity.
    + intros ev Hev. destruct ev; try reflexivity; discriminate.
  - intros ev Hev. destruct ev; try reflexivity; discriminate.
  - intros ev Hev. destruct ev; try reflexivity; discriminate.
Qed.

(** ** The bucket gate: no upload without a bucket listing *)

Lemma gated_bind k {A B} (m : M A) (f : A -> M B) :
  gated 0 m -> (forall a, gated k (f a)) -> gated k (bind m f).
Proof.
  intros Hm Hf t. specialize (Hm t). unfold bind, gate_between in *.
  destruct (m t) as [a t1|t1|t1]; unfold trace_of in Hm |- *; [|lia|lia].
  specialize (Hf a t1). unfold trace_of, gate_between in Hf |- *. lia.
Qed.

Lemma gated_bind_l k {A B} (m : M A) (f : A -> M B) :
  gated k m -> (forall a, gated 0 (f a)) -> gated k (bind m f).
Proof.
  intros Hm Hf t. specialize (Hm t). unfold bind, gate_between in *.
  destruct (m t) as [a t1|t1|t1]; unfold trace_of in Hm |- *; [|lia|lia].
  specialize (Hf a t1). unfold trace_of, gate_between in Hf |- *. lia.
Qed.

Lemma gated_weaken k {A} (m : M A) : gated 0 m -> gated k m.
Proof. intros Hm t. specialize (Hm t). unfold gate_between in *. lia. Qed.

(** A computation without [PutObject] passes the gate. *)
Lemma gated_no_put {A} (m : M A) : only no_put m -> gated 0 m.
Proof.
  intros Hm t. destruct (Hm t) as (s & -> & Hs). unfold gate_between, uploads.
  rewrite !count_app, (count_none no_put is_put s no_put_spec Hs). lia.
Qed.

(** A step that, when it returns, has listed the buckets once and uploaded
    nothing pays for one upload in what follows. *)
Lemma gated_after_listing {A B} (m : M A) (f : A -> M B) :
  gated 0 m ->
  (forall t a t1, m t = Returned a t1 ->
     count is_list t1 = count is_list t + 1 /\ uploads t1 = uploads t) ->
  (forall a, gated 1 (f a)) -> gated 0 (bind m f).
Proof.
  intros Hm Hlist Hf t. specialize (Hm t). specialize (Hlist t).
  unfold bind, gate_between in *.
  destruct (m t) as [a t1|t1|t1]; unfold trace_of in Hm |- *; [|lia|lia].
  destruct (Hlist a t1 eq_refl) as [Hl Hu].
  specialize (Hf a t1). unfold trace_of, gate_between in Hf |- *. lia.
Qed.

Section Gate.

Variable env : Env.

Lemma validate_returned_listed p b t r t1 :
  validateBucketExists env p b t = Returned r t1 ->
  count is_list t1 = count is_list t + 1 /\ uploads t1 = uploads t.
Proof.
  unfold validateBucketExists, getAWSConfig, bind, LoadDefaultConfig_, ListBuckets_,
    call, log_Fatal, ret.
  destruct (config_LoadDefaultConfig env t p); [discriminate|].
  destruct (s3_ListBuckets env _ p) as [err|names].
  - intros [= _ <-]. unfold uploads. rewrite !count_app. cbn. lia.
  - destruct (existsb _ names); intros [= _ <-];
      unfold uploads; rewrite !count_app; cbn; lia.
Qed.

Lemma gated_uploadToS3 f b k p : gated 1 (uploadToS3 env f b k p).
Proof.
  intros t. pose proof (adds_put_uploadToS3 env f b k p t) as Hput.
  destruct (only_recovery_uploadToS3 env f b k p t) as (s & Hs & Hq).
  unfold gate_between, uploads. rewrite Hs in *. rewrite !count_app in *. lia.
Qed.

Ltac gate_quiet tac := apply gated_no_put; tac.

Lemma gated_finalize_failed path p b n :
  gated 0 (moveToFailed env path ;; logRetry env path (Name p) b n "failure").
Proof.
  gate_quiet ltac:(idtac; apply only_bind;
                   [apply no_put_moveToFailed | intros ?; apply no_put_logRetry]).
Qed.

Lemma gated_processFileWithRetry path p b n :
  gated 0 (processFileWithRetry env path p b n).
Proof.
  remember (S maxRetries - n) as k eqn:Hk. revert n Hk.
  induction k as [k IH] using lt_wf_ind. intros n Hk.
  rewrite processFileWithRetry_equation_1.
  destruct (decide (maxRetries < n)) as [Hgt|Hle].
  - apply gated_bind; [gate_quiet ltac:(idtac; only_step) | intros _].
    apply gated_finalize_failed.
  - apply gated_bind; [gate_quiet ltac:(idtac; only_step) | intros _].
    apply gated_after_listing;
      [gate_quiet ltac:(idtac; apply no_put_validate)
      | intros t a t1; apply validate_returned_listed
      | intros [e|]].
    { apply gated_weaken.
      apply gated_bind; [gate_quiet ltac:(idtac; only_step) | intros _].
      apply gated_finalize_failed. }
    cbv zeta. destruct (Nat.ltb _ 4).
    { apply gated_weaken. gate_quiet ltac:(idtac; only_step). }
    apply gated_bind_l; [apply gated_uploadToS3 | intros [e|]].
    + apply gated_bind; [gate_quiet ltac:(idtac; only_step) | intros _].
      destruct (isTransientError e).
      * cbv zeta.
        apply gated_bind; [gate_quiet ltac:(idtac; repeat only_step) | intros r].
        apply gated_bind; [gate_quiet ltac:(idtac; only_step) | intros _].
        apply (IH (S maxRetries - (n + 1))); lia.
      * apply gated_finalize_failed.
    + gate_quiet ltac:(idtac; repeat first [apply no_put_logRetry | only_step]).
Qed.

End Gate.

(** X4. In every environment the executor passes the bucket gate: one
    call of [processFileWithRetry] never makes more [PutObject] calls than
    it has made [ListBuckets] calls, since every round lists the buckets
    anew before it uploads. *)
Theorem X4_no_upload_without_listing env path p b n t :
  let t' := trace_of (processFileWithRetry env path p b n t) in
  uploads t' - uploads t <= count is_list t' - count is_list t.
Proof.
  cbv zeta. pose proof (gated_processFileWithRetry env path p b n t) as H.
  unfold gate_between in H. lia.
Qed.

(** ** Classification and the wrapping of errors *)

Lemma Contains_cons c s sub :
  strings.Contains (String c s) sub
  = strings.HasPrefix (String c s) sub || strings.Contains s sub.
Proof. reflexivity. Qed.

Lemma Contains_after p s sub :
  strings.Contains s sub = true -> strings.Contains (p +:+ s) sub = true.
Proof.
  intros H. induction p as [|c p IH]; [exact H|].
  change (String c p +:+ s) with (String c (p +:+ s)).
  rewrite Contains_cons, IH. apply orb_true_r.
Qed.

(** The prefix that [uploadToS3] puts before a [PutObject] error holds none
    of the three markers, nor the beginning of one at its end. *)
Lemma upload_prefix_neutral e :
  isTransientError (ErrWrap "failed to upload file: " e) = isTransientError e.
Proof. reflexivity. Qed.

(** X5. When [PutObject] fails, the error [uploadToS3] returns is classified
    exactly as the SDK's own error text would be: the wrapping with "failed
    to upload file: " neither adds nor hides a marker.  And wrapping in
    general never turns a transient error into a permanent one. *)
Theorem X5_put_error_classified_by_sdk_text env file b k p t e :
  config_loads env -> files_open env ->
  s3_PutObject env (t ++ [LoadDefaultConfig p None; OsOpen file None]) p b k file = Some e ->
  (exists e' t',
     uploadToS3 env file b k p t = Returned (Some e') t'
     /\ isTransientError e' = isTransientError e)
  /\ (forall prefix, isTransientError e = true ->
                     isTransientError (ErrWrap prefix e) = true).
Proof.
  intros Hc Ho Hput. split.
  - eexists _, _. split; [apply upload_put_failed; eassumption|].
    apply upload_prefix_neutral.
  - intros prefix. unfold isTransientError. cbn [Error].
    rewrite !orb_true_iff. intros [[H|H]|H].
    + left. left. apply Contains_after, H.
    + left. right. apply Contains_after, H.
    + right. apply Contains_after, H.
Qed.

Lemma X5_put_error_classified_by_sdk_text_witness :
  (exists e' t',
     uploadToS3 always_timeout "srv/processing/p1/b1" "b1" "b1" p1 [] = Returned (Some e') t'
     /\ isTransientError e'
        = isTransientError (ErrText "dial tcp 203.0.113.7:443: i/o timeout"))
  /\ (forall prefix,
        isTransientError (ErrText "dial tcp 203.0.113.7:443: i/o timeout") = true ->
        isTransientError (ErrWrap prefix (ErrText "dial tcp 203.0.113.7:443: i/o timeout"))
        = true).
Proof.
  apply (X5_put_error_classified_by_sdk_text always_timeout "srv/processing/p1/b1"
           "b1" "b1" p1 []).
  - exact always_timeout_config.
  - exact always_timeout_open.
  - reflexivity.
Defined.

(** ** Startup: the directory layout *)

Lemma made_dirs_app (t t' : Trace) : made_dirs (t ++ t') = made_dirs t ++ made_dirs t'.
Proof. unfold made_dirs. apply flat_map_app. Qed.

Lemma watched_app (t t' : Trace) : watched (t ++ t') = watched t ++ watched t'.
Proof. unfold watched. apply flat_map_app. Qed.

#[local] Hint Rewrite made_dirs_app watched_app : trace.

Lemma mkdir_loop env (f : string -> string) names t :
  exists s,
    for_range names (fun name => os_MkdirAll_ env (f name) ;; ret tt) t = Returned tt (t ++ s)
    /\ made_dirs s = List.map f names
    /\ forallb is_mkdir s = true.
Proof.
  revert t. induction names as [|name names IH]; intros t; cbn [for_range].
  - exists []. rewrite app_nil_r. repeat split.
  - destruct (IH (t ++ [OsMkdirAll (f name) (os_MkdirAll env t (f name))]))
      as (s & Hrun & Hdirs & Hall).
    exists (OsMkdirAll (f name) (os_MkdirAll env t (f name)) :: s).
    change (((os_MkdirAll_ env (f name) ;; ret tt) ;;
             for_range names (fun name => os_MkdirAll_ env (f name) ;; ret tt)) t)
      with (for_range names (fun name => os_MkdirAll_ env (f name) ;; ret tt)
              (t ++ [OsMkdirAll (f name) (os_MkdirAll env t (f name))])).
    rewrite Hrun, <- app_assoc.
    change (made_dirs (OsMkdirAll (f name) (os_MkdirAll env t (f name)) :: s))
      with (f name :: made_dirs s).
    cbn [forallb is_mkdir andb List.map app]. rewrite Hdirs, Hall. repeat split.
Qed.

Lemma stage_loop env serverDir names dirs t :
  exists s,
    for_range dirs (fun dir =>
      for_range names (fun name =>
        os_MkdirAll_ env (filepath.Join [serverDir; dir; name]) ;; ret tt)) t
    = Returned tt (t ++ s)
    /\ made_dirs s
       = flat_map (fun dir => List.map (fun name => filepath.Join [serverDir; dir; name]) names)
                  dirs
    /\ forallb is_mkdir s = true.
Proof.
  revert t. induction dirs as [|dir dirs IH]; intros t; cbn [for_range flat_map].
  - exists []. rewrite app_nil_r. repeat split.
  - destruct (mkdir_loop env (fun name => filepath.Join [serverDir; dir; name]) names t)
      as (s1 & Hrun1 & Hdirs1 & Hall1).
    destruct (IH (t ++ s1)) as (s2 & Hrun2 & Hdirs2 & Hall2).
    exists (s1 ++ s2). unfold bind at 1. cbn beta. rewrite Hrun1, Hrun2, <- app_assoc.
    rewrite made_dirs_app, Hdirs1, Hdirs2, forallb_app, Hall1, Hall2. repeat split.
Qed.

(** X6. [setupDirectories] does nothing without a server directory.  With
    one, it first removes [incoming_tmp] under it and then only creates
    directories: one for every key of the profile map under each of the five
    stage roots, [incoming_tmp] first, so the purged staging root is made
    again; the results of all these calls are ignored and the function
    always returns. *)
Theorem X6_setupDirectories_layout env serverDir profiles t :
  (serverDir = "" -> setupDirectories env serverDir profiles t = Returned tt t)
  /\ (serverDir <> "" ->
      exists r s,
        setupDirectories env serverDir profiles t
        = Returned tt (t ++ OsRemoveAll (filepath.Join [serverDir; "incoming_tmp"]) r :: s)
        /\ forallb is_mkdir s = true
        /\ made_dirs s = stage_dirs serverDir (range_profile_names profiles)
        /\ List.length (made_dirs s) = 5 * size profiles
        /\ forall dir name,
             In dir mainDirs -> is_Some (profiles !! name) ->
             In (filepath.Join [serverDir; dir; name]) (made_dirs s)).
Proof.
  split.
  - intros ->. reflexivity.
  - intros Hne. unfold setupDirectories.
    destruct (String.eqb_spec serverDir "") as [Heq|_]; [contradiction|].
    unfold bind at 1. unfold os_RemoveAll_ at 1, call.
    destruct (stage_loop env serverDir (range_profile_names profiles) mainDirs
                (t ++ [OsRemoveAll (filepath.Join [serverDir; "incoming_tmp"])
                         (os_RemoveAll env t (filepath.Join [serverDir; "incoming_tmp"]))]))
      as (s & Hrun & Hdirs & Hall).
    eexists _, s. rewrite Hrun, <- app_assoc. split; [reflexivity|].
    split; [exact Hall|]. split; [exact Hdirs|]. split.
    + rewrite Hdirs. unfold stage_dirs, mainDirs, range_profile_names. cbn [flat_map].
      rewrite !List.length_app, !List.length_map. cbn [List.length].
      pose proof (length_map_to_list profiles) as Hsize.
      pose proof (length_fmap fst (map_to_list profiles)) as Hfst.
      lia.
    + intros dir name Hdir [p Hp]. rewrite Hdirs. unfold stage_dirs.
      apply in_flat_map. exists dir. split; [exact Hdir|].
      apply in_map_iff. exists name. split; [reflexivity|].
      unfold range_profile_names. apply list_elem_of_In.
      apply list_elem_of_fmap. exists (name, p). split; [reflexivity|].
      apply elem_of_map_to_list, Hp.
Qed.

Lemma X6_setupDirectories_layout_witness :
  exists r s,
    setupDirectories calm "srv" known_profiles []
    = Returned tt ([] ++ OsRemoveAll (filepath.Join ["srv"; "incoming_tmp"]) r :: s)
    /\ forallb is_mkdir s = true
    /\ made_dirs s = stage_dirs "srv" (range_profile_names known_profiles)
    /\ List.length (made_dirs s) = 5 * size known_profiles
    /\ forall dir name,
         In dir mainDirs -> is_Some (known_profiles !! name) ->
         In (filepath.Join ["srv"; dir; name]) (made_dirs s).
Proof.
  apply (proj2 (X6_setupDirectories_layout calm "srv" known_profiles [])).
  discriminate.
Defined.

(** ** The time an exhausted file costs *)

Lemma total_app (a b : list Z) : total (a ++ b) = (total a + total b)%Z.
Proof.
  unfold total. induction a as [|d a IH]; cbn [fold_right app]; lia.
Qed.

Section Backoff.

Variable env : Env.

(** X7. When every upload of a file fails with a transient error (the SDK
    configuration loads, the bucket is listed, the file opens, the ledger
    accepts writes) and the file's path is addressable, that is, it has the
    four pieces between separators from which the executor cuts the object
    key, the executor started at retry count [n <= 11] sleeps, summed over
    all its rounds, [30s * (2^11 - 2^n)] plus less than one second of jitter
    per round, all inside the one call.  From [n = 0] this is 61410 s plus
    at most 10.989 s: more than 17 hours before the file is moved to
    [failed]. *)
Theorem X7_exhausted_file_total_backoff path p b n t :
  config_loads env -> ledger_accepts env -> bucket_exists env p b ->
  files_open env ->
  (forall t p b k f, exists e, s3_PutObject env t p b k f = Some e
      /\ isTransientError (ErrWrap "failed to upload file: " e) = true) ->
  addressable path ->
  n <= S maxRetries ->
  exists J : Z,
    (0 <= J <= 999 * Z.of_nat (S maxRetries - n))%Z
    /\ total (sleeps (trace_of (processFileWithRetry env path p b n t)))
       = (total (sleeps t)
          + 30 * Second * (2 ^ Z.of_nat (S maxRetries) - 2 ^ Z.of_nat n)
          + J * Millisecond)%Z
    /\ (n = 0 ->
        (17 * 3600 * Second
         < total (sleeps (trace_of (processFileWithRetry env path p b n t)))
           - total (sleeps t))%Z).
Proof.
  intros Hc Hl Hb Ho Hp Ha Hn.
  assert (exists J : Z,
    (0 <= J <= 999 * Z.of_nat (S maxRetries - n))%Z
    /\ total (sleeps (trace_of (processFileWithRetry env path p b n t)))
       = (total (sleeps t)
          + 30 * Second * (2 ^ Z.of_nat (S maxRetries) - 2 ^ Z.of_nat n)
          + J * Millisecond)%Z) as (J & HJ & Hsum).
  { remember (S maxRetries - n) as k eqn:Hk.
    revert n t Hn Hk. induction k as [|k IH]; intros n t Hn Hk.
    - assert (n = S maxRetries) as -> by lia.
      rewrite pFWR_ceiling by lia.
      unfold bind at 1. unfold log_Print, emit.
      destruct (finalize_failed_ok env path p b (S maxRetries)
                  (t ++ [Log ("Max retries reached for " +:+ path
                              +:+ ". Moving to failed directory.")]) Hl)
        as (t' & now & Hrun & _ & _ & Hs & _).
      exists 0%Z. rewrite Hrun. cbn [trace_of]. rewrite Hs.
      autorewrite with trace. cbn [sleeps flat_map app]. rewrite app_nil_r.
      split; lia.
    - assert (n <= maxRetries) as Hle by lia.
      destruct (validate_ok env p b (t ++ [Log (attempt_line path p b n)]) Hc Hb)
        as (bs & Hv).
      set (t1 := (t ++ [Log (attempt_line path p b n)]) ++
                 [LoadDefaultConfig p None; S3ListBuckets p (inr bs)]) in *.
      destruct (Hp (t1 ++ [LoadDefaultConfig p None; OsOpen path None]) p b
                  (key_of path) path) as (e & Hput & Htr).
      pose proof (upload_put_failed env path b (key_of path) p t1 e Hc Ho Hput) as Hup.
      rewrite (pFWR_transient env path p b n t t1 _ _ Hle Hv Ha Hup Htr).
      cbv zeta.
      match goal with |- context [RandIntn 1000 ?x] => remember x as j eqn:Hj end.
      assert (0 <= j < 1000)%Z as Hjr by (subst j; apply Z.mod_pos_bound; lia).
      rewrite delay_exact by assumption.
      remember (30 * Second * 2 ^ Z.of_nat n + j * Millisecond)%Z as d eqn:Hd.
      match goal with |- context [processFileWithRetry env path p b (n + 1) ?tr] =>
        destruct (IH (n + 1) tr ltac:(lia) ltac:(lia)) as (J' & HJ' & Hsum');
        assert (total (sleeps tr) = (total (sleeps t) + d)%Z) as Hpre
      end.
      { unfold t1. autorewrite with trace. cbn [sleeps flat_map app].
        rewrite !app_nil_r, total_app. cbn [total fold_right]. lia. }
      exists (j + J')%Z. split; [lia|].
      rewrite Hsum', Hpre, Hd.
      replace (Z.of_nat (n + 1)) with (Z.succ (Z.of_nat n)) by lia.
      rewrite Z.pow_succ_r by lia. lia. }
  exists J. split; [exact HJ|]. split; [exact Hsum|].
  intros ->. rewrite Hsum. unfold maxRetries, Second, Millisecond in *.
  change (2 ^ Z.of_nat 11)%Z with 2048%Z. change (2 ^ Z.of_nat 0)%Z with 1%Z. lia.
Qed.

End Backoff.

(** The retry-exhaustion scenario from the first round. *)
Lemma X7_exhausted_file_total_backoff_witness :
  exists J : Z,
    (0 <= J <= 999 * Z.of_nat (S maxRetries - 0))%Z
    /\ total (sleeps (trace_of (processFileWithRetry always_timeout
                                  "srv/processing/p1/b1" p1 "b1" 0 [])))
       = (total (sleeps [])
          + 30 * Second * (2 ^ Z.of_nat (S maxRetries) - 2 ^ Z.of_nat 0)
          + J * Millisecond)%Z
    /\ (0 = 0 ->
        (17 * 3600 * Second
         < total (sleeps (trace_of (processFileWithRetry always_timeout
                                      "srv/processing/p1/b1" p1 "b1" 0 [])))
           - total (sleeps []))%Z).
Proof.
  apply (X7_exhausted_file_total_backoff always_timeout "srv/processing/p1/b1" p1 "b1" 0 []).
  - exact always_timeout_config.
  - exact always_timeout_ledger.
  - exact always_timeout_bucket.
  - exact always_timeout_open.
  - intros t p b k f. eexists. split; reflexivity.
  - unfold addressable. vm_compute. lia.
  - unfold maxRetries. lia.
Defined.

(** ** The executor when the ledger refuses the row *)

Section LedgerDown.

Variable env : Env.
Hypothesis Hconfig : config_loads env.
Hypothesis Hreject : forall t r, db_Exec env t r <> None.

Ltac tidy :=
  autorewrite with trace; cbn [ledger renames sleeps flat_map app]; rewrite ?app_nil_r.

Lemma logRetry_rejected f pn b n o t :
  exists s, logRetry env f pn b n o t = Exited (t ++ s)
            /\ ledger s = [] /\ renames s = [].
Proof.
  unfold logRetry, bind, db_Prepare_, call. cbv zeta.
  destruct (db_Prepare env t) as [e|] eqn:Hp.
  - unfold log_Fatal. eexists [_; _]. rewrite <- app_assoc. repeat split.
  - unfold time_Now_, db_Exec_, call. cbv zeta.
    match goal with |- context [db_Exec env ?tr ?r] =>
      destruct (db_Exec env tr r) as [e|] eqn:He; [|exfalso; exact (Hreject _ _ He)]
    end.
    unfold log_Fatal. eexists [_; _; _; _]. rewrite <- !app_assoc. repeat split.
Qed.

Lemma finalize_rejected path pn b n t :
  exists s, (moveToFailed env path ;; logRetry env path pn b n "failure") t = Exited (t ++ s)
            /\ ledger s = [] /\ renames s = [(path, failedPath path)].
Proof.
  destruct (moveToFailed_run env path t) as (r1 & r2 & Hm).
  unfold bind at 1. rewrite Hm.
  destruct (logRetry_rejected path pn b n "failure"
              (t ++ [OsMkdirAll (filepath.Dir (failedPath path)) r1;
                     OsRename path (failedPath path) r2])) as (s & Hrun & Hled & Hren).
  rewrite Hrun, <- app_assoc. eexists. split; [reflexivity|].
  tidy. rewrite Hled, Hren. split; reflexivity.
Qed.

Lemma validate_run p b t :
  exists r resp,
    validateBucketExists env p b t
    = Returned r (t ++ [LoadDefaultConfig p None; S3ListBuckets p resp]).
Proof.
  unfold validateBucketExists, bind. rewrite getAWSConfig_ok by assumption.
  unfold ListBuckets_, call. cbv zeta.
  destruct (s3_ListBuckets env _ p) as [err|bs]; [|destruct (existsb _ bs)];
    unfold ret; rewrite <- app_assoc; do 2 eexists; reflexivity.
Qed.

Lemma upload_run f b k p t :
  exists r s, uploadToS3 env f b k p t = Returned r (t ++ s)
              /\ ledger s = [] /\ renames s = [].
Proof.
  unfold uploadToS3, bind. rewrite getAWSConfig_ok by assumption.
  unfold os_Open_, call. cbv zeta. destruct (os_Open env _ f) as [e|].
  - unfold ret. rewrite <- app_assoc. do 2 eexists. repeat split.
  - unfold PutObject_, call. cbv zeta.
    destruct (s3_PutObject env _ p b k f); unfold ret; rewrite <- !app_assoc;
      do 2 eexists; repeat split.
Qed.

(** X8. When the SDK configuration loads but the database refuses every
    INSERT, no executor call on an addressable path returns to its caller:
    it ends the whole process through [log.Fatal], and only after the file
    has been renamed, to [failed] or to [completed]; that rename is the only
    one of the call and no row is written.  A file can be uploaded and moved
    to [completed] and the server is gone without a ledger row for it. *)
Theorem X8_rejected_insert_ends_process path p b n t :
  addressable path ->
  exists t' dst,
    processFileWithRetry env path p b n t = Exited t'
    /\ ledger t' = ledger t
    /\ renames t' = renames t ++ [(path, dst)]
    /\ (dst = failedPath path \/ dst = completedPath path).
Proof.
  intros Ha. remember (S maxRetries - n) as k eqn:Hk. revert n t Hk.
  induction k as [k IH] using lt_wf_ind. intros n t Hk.
  destruct (decide (maxRetries < n)) as [Hgt|Hle].
  - rewrite pFWR_ceiling by assumption.
    unfold bind at 1. unfold log_Print, emit.
    match goal with |- context [bind (moveToFailed env path) _ ?tr] =>
      destruct (finalize_rejected path (Name p) b n tr) as (s & Hrun & Hled & Hren)
    end.
    rewrite Hrun. eexists _, (failedPath path). split; [reflexivity|].
    tidy. rewrite Hled, Hren, app_nil_r. auto.
  - assert (n <= maxRetries) as Hn by lia.
    destruct (validate_run p b (t ++ [Log (attempt_line path p b n)])) as (r & resp & Hv).
    destruct r as [e|].
    + rewrite (pFWR_validation_failed env path p b n t e _ Hn Hv).
      unfold bind at 1. unfold log_Print, emit.
      match goal with |- context [bind (moveToFailed env path) _ ?tr] =>
        destruct (finalize_rejected path (Name p) b n tr) as (s & Hrun & Hled & Hren)
      end.
      rewrite Hrun. eexists _, (failedPath path). split; [reflexivity|].
      tidy. rewrite Hled, Hren, app_nil_r. auto.
    + match type of Hv with _ = Returned None ?tr =>
        destruct (upload_run path b (key_of path) p tr) as (r & s1 & Hu & Hled1 & Hren1)
      end.
      rewrite (pFWR_upload env path p b n t _ r _ Hn Hv Ha Hu).
      unfold after_upload. destruct r as [e|].
      * unfold bind at 1. unfold log_Print, emit.
        destruct (isTransientError e).
        -- unfold bind at 1. unfold rand_Intn, call. cbv zeta.
           unfold bind at 1. unfold time_Sleep, emit.
           match goal with |- context [processFileWithRetry env path p b (n + 1) ?tr] =>
             destruct (IH (S maxRetries - (n + 1)) ltac:(lia) (n + 1) tr eq_refl)
               as (t' & dst & Hrun & Hled & Hren & Hdst)
           end.
           exists t', dst. split; [exact Hrun|].
           rewrite Hled, Hren. tidy. rewrite Hled1, Hren1, !app_nil_r. auto.
        -- match goal with |- context [bind (moveToFailed env path) _ ?tr] =>
             destruct (finalize_rejected path (Name p) b n tr) as (s & Hrun & Hled & Hren)
           end.
           rewrite Hrun. eexists _, (failedPath path). split; [reflexivity|].
           tidy. rewrite Hled, Hren, Hled1, Hren1, !app_nil_r. auto.
      * unfold bind at 1. unfold os_MkdirAll_ at 1, call. cbv zeta.
        unfold bind at 1. unfold os_Rename_ at 1, call. cbv zeta.
        match goal with |- context [logRetry env path (Name p) b n "success" ?tr] =>
          destruct (logRetry_rejected path (Name p) b n "success" tr)
            as (s & Hrun & Hled & Hren)
        end.
        rewrite Hrun. eexists _, (completedPath path). split; [reflexivity|].
        tidy. rewrite Hled, Hren, Hled1, Hren1, !app_nil_r. auto.
Qed.

End LedgerDown.

(** The endpoint takes the upload, the ledger is locked. *)
Lemma X8_rejected_insert_ends_process_witness :
  exists t' dst,
    processFileWithRetry ledger_locked "srv/processing/p1/b1" p1 "b1" 0 [] = Exited t'
    /\ ledger t' = ledger []
    /\ renames t' = renames [] ++ [("srv/processing/p1/b1", dst)]
    /\ (dst = failedPath "srv/processing/p1/b1" \/ dst = completedPath "srv/processing/p1/b1").
Proof.
  apply (X8_rejected_insert_ends_process ledger_locked).
  - intros t p. reflexivity.
  - intros t r. discriminate.
  - unfold addressable. vm_compute. lia.
Defined.

(** ** Copy mode *)

Lemma exits_within_only Q {A} (m : M A) : only Q m -> exits_within Q m.
Proof.
  intros Hm t t' Hrun. destruct (Hm t) as (s & Hs & Hq).
  rewrite Hrun in Hs. exists s. split; assumption.
Qed.

Lemma exits_within_returns Q {A} (m : M A) : returns m -> exits_within Q m.
Proof.
  intros Hm t t' Hrun. destruct (Hm t) as (a & t1 & Hret). congruence.
Qed.

Lemma exits_within_bind Q {A B} (m : M A) (k : A -> M B) :
  only Q m -> (forall a, exits_within Q (k a)) -> exits_within Q (bind m k).
Proof.
  intros Hm Hk t t' Hrun. destruct (Hm t) as (s & Hs & Hq). unfold bind in Hrun.
  destruct (m t) as [a t1|t1|t1]; cbn in Hs; subst t1.
  - destruct (Hk a (t ++ s) t' Hrun) as (s' & -> & Hq'). exists (s ++ s').
    rewrite app_assoc, forallb_app, Hq, Hq'. split; reflexivity.
  - inversion Hrun; subst. exists s. split; [reflexivity | assumption].
  - discriminate.
Qed.

Lemma returns_walk_entries fn entries :
  (forall e, returns (fn e)) -> returns (walk_entries fn entries).
Proof.
  intros Hfn. induction entries as [|e rest IH]; cbn [walk_entries].
  - apply returns_ret.
  - apply returns_bind; [apply Hfn | intros [err|]]; [apply returns_ret | exact IH].
Qed.

Lemma returns_Walk env root fn :
  (forall e, returns (fn e)) -> returns (filepath_Walk_ env root fn).
Proof.
  intros Hfn. unfold filepath_Walk_.
  apply returns_bind; [apply returns_call | intros entries].
  apply returns_walk_entries, Hfn.
Qed.

Section CopyMode.

Variable env : Env.

Ltac copy_step :=
  first [ only_step
        | match goal with
          | |- only _ (os_ReadFile_ _ _) => unfold os_ReadFile_
          | |- only _ (os_WriteFile_ _ _ _) => unfold os_WriteFile_
          | |- only _ (os_Stat_ _ _) => unfold os_Stat_
          | |- only _ (os_RemoveAll_ _ _) => unfold os_RemoveAll_
          | |- only _ (filepath_Walk_ _ _ _) =>
              apply only_Walk; [intros; reflexivity | intros ?]
          end ].

Lemma only_listing_validate p b : only listing_event (validateBucketExists env p b).
Proof. unfold validateBucketExists, getAWSConfig. repeat copy_step. Qed.

Lemma only_stage_copyFile src dst : only stage_event (copyFile env src dst).
Proof. unfold copyFile. repeat copy_step. Qed.

Lemma only_stage_isDirectory path : only stage_event (isDirectory env path).
Proof. unfold isDirectory. repeat copy_step. Qed.

Lemma only_stage_copyDirectory src dst : only stage_event (copyDirectory env src dst).
Proof.
  unfold copyDirectory. repeat first [ apply only_stage_copyFile | copy_step ].
Qed.

Lemma only_local_moveToIncoming serverDir tmpDir pn bn :
  only local_event (moveToIncoming env serverDir tmpDir pn bn).
Proof. unfold moveToIncoming. repeat copy_step. Qed.

Lemma returns_moveToIncoming serverDir tmpDir pn bn :
  returns (moveToIncoming env serverDir tmpDir pn bn).
Proof.
  unfold moveToIncoming. cbv zeta.
  apply returns_bind; [apply returns_call | intros _].
  apply returns_bind.
  - apply returns_Walk. intros e. destruct e as [path isDir|path info err];
      [destruct isDir|]; repeat returns_step.
  - intros _. apply returns_bind; [apply returns_call | intros _; apply returns_ret].
Qed.

Lemma listing_is_before ev : listing_event ev = true -> before_move ev = true.
Proof. unfold before_move. intros ->. reflexivity. Qed.

Lemma stage_is_before ev : stage_event ev = true -> before_move ev = true.
Proof. unfold before_move. intros ->. apply orb_true_r. Qed.

Lemma stage_is_local ev : stage_event ev = true -> local_event ev = true.
Proof. unfold local_event. intros ->. reflexivity. Qed.

Lemma local_is_copy ev : local_event ev = true -> copy_event ev = true.
Proof. unfold copy_event. intros ->. apply orb_true_r. Qed.

Lemma before_is_copy ev : before_move ev = true -> copy_event ev = true.
Proof. destruct ev; cbn; congruence. Qed.

(** What follows the bucket validation in [runCopyMode]. *)
Lemma only_local_staging serverDir sourceFile (recursiveFlag : bool) tmpDir objectKey pn bn :
  only local_event
    (os_MkdirAll_ env tmpDir ;;
     let* isDir := (if recursiveFlag then isDirectory env sourceFile else ret false) in
     (if isDir then copyDirectory env sourceFile (filepath.Join [tmpDir; objectKey])
      else copyFile env sourceFile (filepath.Join [tmpDir; objectKey])) ;;
     moveToIncoming env serverDir tmpDir pn bn).
Proof.
  apply only_bind; [repeat copy_step | intros _].
  apply only_bind.
  { apply (only_weaken stage_event); [exact stage_is_local|].
    destruct recursiveFlag; [apply only_stage_isDirectory | apply only_ret]. }
  intros isDir. apply only_bind; [| intros _; apply only_local_moveToIncoming].
  apply (only_weaken stage_event); [exact stage_is_local|].
  destruct isDir; [apply only_stage_copyDirectory | apply only_stage_copyFile].
Qed.

Lemma exits_before_move serverDir sourceFile (recursiveFlag : bool) tmpDir objectKey pn bn :
  exits_within before_move
    (os_MkdirAll_ env tmpDir ;;
     let* isDir := (if recursiveFlag then isDirectory env sourceFile else ret false) in
     (if isDir then copyDirectory env sourceFile (filepath.Join [tmpDir; objectKey])
      else copyFile env sourceFile (filepath.Join [tmpDir; objectKey])) ;;
     moveToIncoming env serverDir tmpDir pn bn).
Proof.
  apply exits_within_bind; [repeat copy_step | intros _].
  apply exits_within_bind.
  { apply (only_weaken stage_event); [exact stage_is_before|].
    destruct recursiveFlag; [apply only_stage_isDirectory | apply only_ret]. }
  intros isDir. apply exits_within_bind.
  - apply (only_weaken stage_event); [exact stage_is_before|].
    destruct isDir; [apply only_stage_copyDirectory | apply only_stage_copyFile].
  - intros _. apply exits_within_returns, returns_moveToIncoming.
Qed.

Lemma only_copy_runCopyMode serverDir sourceFile destURI recursiveFlag profiles :
  only copy_event (runCopyMode env serverDir sourceFile destURI recursiveFlag profiles).
Proof.
  unfold runCopyMode. cbv zeta.
  destruct (Nat.ltb _ 3); [apply only_fatal; reflexivity|].
  destruct (profiles !! _) as [profile|]; [|apply only_fatal; reflexivity].
  apply only_bind.
  { apply (only_weaken listing_event); [intros ev Hev; apply before_is_copy, listing_is_before, Hev|].
    apply only_listing_validate. }
  intros [e|]; [apply only_fatal; reflexivity|].
  apply (only_weaken local_event); [exact local_is_copy|].
  apply only_local_staging.
Qed.

Lemma copy_no_upload ev : copy_event ev = true -> is_put ev = false.
Proof. destruct ev; cbn; congruence. Qed.

Lemma copy_no_head ev : copy_event ev = true -> is_head ev = false.
Proof. destruct ev; cbn; congruence. Qed.

Lemma copy_no_row ev : copy_event ev = true -> is_row ev = false.
Proof. destruct ev; cbn; congruence. Qed.

Lemma local_no_list ev : local_event ev = true -> is_list ev = false.
Proof. destruct ev; cbn; congruence. Qed.

Lemma adds_list_validate p b : adds is_list 1 (validateBucketExists env p b).
Proof.
  intros t.
  unfold validateBucketExists, getAWSConfig, bind, LoadDefaultConfig_, ListBuckets_,
    call, log_Fatal, ret.
  cbv zeta.
  destruct (config_LoadDefaultConfig env t p);
    [|destruct (s3_ListBuckets env _ p); [|destruct (existsb _ _)]];
    unfold trace_of; rewrite ?count_app; cbn; lia.
Qed.

Lemma adds_list_runCopyMode serverDir sourceFile destURI recursiveFlag profiles :
  adds is_list 1 (runCopyMode env serverDir sourceFile destURI recursiveFlag profiles).
Proof.
  assert (forall A line, adds is_list 0 (@log_Fatal A line)) as Hfatal.
  { intros A line. apply (only_adds local_event); [apply only_fatal; reflexivity|].
    exact local_no_list. }
  unfold runCopyMode. cbv zeta.
  destruct (Nat.ltb _ 3); [apply (adds_weaken is_list 0); [lia | apply Hfatal]|].
  destruct (profiles !! _) as [profile|];
    [|apply (adds_weaken is_list 0); [lia | apply Hfatal]].
  apply (adds_bind_plus is_list 1 0); [apply adds_list_validate|].
  intros [e|]; [apply Hfatal|].
  apply (only_adds local_event); [apply only_local_staging | exact local_no_list].
Qed.

(** X9. Copy mode, whatever its arguments and whatever the environment
    answers, makes no upload and no HEAD request, writes nothing to the
    ledger and never sleeps; it asks the endpoint for its buckets at most
    once.  All it does besides is work on the local disk: the upload is
    left to a server watching [incoming]. *)
Theorem X9_copy_mode_never_uploads serverDir sourceFile destURI recursiveFlag profiles t :
  let t' := trace_of (runCopyMode env serverDir sourceFile destURI recursiveFlag
                        profiles t) in
  uploads t' = uploads t
  /\ count is_head t' = count is_head t
  /\ ledger t' = ledger t
  /\ sleeps t' = sleeps t
  /\ count is_list t' <= count is_list t + 1.
Proof.
  cbv zeta.
  pose proof (adds_list_runCopyMode serverDir sourceFile destURI recursiveFlag profiles t)
    as Hlist.
  destruct (only_copy_runCopyMode serverDir sourceFile destURI recursiveFlag profiles t)
    as (s & Hs & Hq).
  rewrite Hs in *. unfold uploads. autorewrite with trace.
  rewrite (count_none copy_event is_put s copy_no_upload Hq).
  rewrite (count_none copy_event is_head s copy_no_head Hq).
  rewrite (ledger_none copy_event s copy_no_row Hq).
  unfold sleeps at 2. rewrite (flat_map_none _ copy_event s); [|
    intros ev Hev; destruct ev; try reflexivity; discriminate | exact Hq].
  rewrite !app_nil_r, !Nat.add_0_r. autorewrite with trace in Hlist.
  repeat split; lia.
Qed.

(** X10. A copy that ends the process, at whichever [log.Fatal] of
    [runCopyMode], [isDirectory] or [copyFile], has moved nothing into
    [incoming] and has not removed the staging directory: the files staged
    so far stay under [incoming_tmp]. *)
Theorem X10_failed_copy_moves_nothing
  serverDir sourceFile destURI recursiveFlag profiles t t' :
  runCopyMode env serverDir sourceFile destURI recursiveFlag profiles t = Exited t' ->
  renames t' = renames t
  /\ count is_removal t' = count is_removal t.
Proof.
  intros Hrun.
  assert (exits_within before_move
            (runCopyMode env serverDir sourceFile destURI recursiveFlag profiles)) as Hexit.
  { unfold runCopyMode. cbv zeta.
    destruct (Nat.ltb _ 3); [apply exits_within_only, only_fatal; reflexivity|].
    destruct (profiles !! _) as [profile|];
      [|apply exits_within_only, only_fatal; reflexivity].
    apply exits_within_bind.
    { apply (only_weaken listing_event); [exact listing_is_before|].
      apply only_listing_validate. }
    intros [e|]; [apply exits_within_only, only_fatal; reflexivity|].
    apply exits_before_move. }
  destruct (Hexit t t' Hrun) as (s & -> & Hq).
  autorewrite with trace.
  rewrite (count_none before_move is_removal s); [| | exact Hq].
  - unfold renames at 2. rewrite (flat_map_none _ before_move s); [|
      intros ev Hev; destruct ev; try reflexivity; discriminate | exact Hq].
    rewrite app_nil_r. split; [reflexivity | lia].
  - intros ev Hev. destruct ev; try reflexivity; discriminate.
Qed.

End CopyMode.

(** The source of the copy cannot be read. *)
Lemma X10_failed_copy_moves_nothing_witness :
  renames (trace_of (runCopyMode source_unreadable "" "photos/a.jpg"
                       "s3://p1/b1/photos/a.jpg" false known_profiles []))
  = renames []
  /\ count is_removal (trace_of (runCopyMode source_unreadable "" "photos/a.jpg"
                                   "s3://p1/b1/photos/a.jpg" false known_profiles []))
     = count is_removal [].
Proof.
  apply (X10_failed_copy_moves_nothing source_unreadable "" "photos/a.jpg"
           "s3://p1/b1/photos/a.jpg" false known_profiles []).
  vm_compute. reflexivity.
Defined.

(** ** Moving a staged tree *)

Lemma files_read_app (t t' : Trace) : files_read (t ++ t') = files_read t ++ files_read t'.
Proof. unfold files_read. apply flat_map_app. Qed.

Lemma files_written_app (t t' : Trace) :
  files_written (t ++ t') = files_written t ++ files_written t'.
Proof. unfold files_written. apply flat_map_app. Qed.

#[local] Hint Rewrite files_read_app files_written_app : trace.

Section Staging.

Variable env : Env.

Lemma moveToIncoming_walk serverDir tmpDir profileName bucketName :
  moveToIncoming env serverDir tmpDir profileName bucketName
  = (let incomingDir := filepath.Join [serverDir; "incoming"; profileName; bucketName] in
     os_MkdirAll_ env incomingDir ;;
     filepath_Walk_ env tmpDir (move_entry env tmpDir incomingDir) ;;
     os_RemoveAll_ env tmpDir ;;
     ret tt).
Proof. reflexivity. Qed.

Lemma move_walk tmpDir incomingDir entries t :
  exists r s,
    walk_entries (move_entry env tmpDir incomingDir) entries t = Returned r (t ++ s)
    /\ renames s = List.map (fun path => (path, moved_under tmpDir incomingDir path))
                            (visited_files (before_error entries))
    /\ made_dirs s = List.map (moved_under tmpDir incomingDir)
                              (visited_dirs (before_error entries))
    /\ logged s = []
    /\ count is_removal s = 0.
Proof.
  revert t. induction entries as [|e rest IH]; intros t.
  - exists None, []. rewrite app_nil_r. repeat split.
  - destruct e as [path [|]|path info err].
    + assert (walk_entries (move_entry env tmpDir incomingDir) (Visit path true :: rest) t
              = walk_entries (move_entry env tmpDir incomingDir) rest
                  (t ++ [OsMkdirAll (moved_under tmpDir incomingDir path)
                           (os_MkdirAll env t (moved_under tmpDir incomingDir path))]))
        as -> by reflexivity.
      match goal with |- context [walk_entries _ rest ?tr] =>
        destruct (IH tr) as (r & s & Hrun & Hren & Hdirs & Hlog & Hrm)
      end.
      rewrite Hrun, <- app_assoc. eexists r, (_ :: s). split; [reflexivity|].
      change (made_dirs (OsMkdirAll (moved_under tmpDir incomingDir path)
                           (os_MkdirAll env t (moved_under tmpDir incomingDir path)) :: s))
        with (moved_under tmpDir incomingDir path :: made_dirs s).
      rewrite Hdirs. repeat split; assumption.
    + assert (walk_entries (move_entry env tmpDir incomingDir) (Visit path false :: rest) t
              = walk_entries (move_entry env tmpDir incomingDir) rest
                  (t ++ [OsRename path (moved_under tmpDir incomingDir path)
                           (os_Rename env t path (moved_under tmpDir incomingDir path))]))
        as -> by reflexivity.
      match goal with |- context [walk_entries _ rest ?tr] =>
        destruct (IH tr) as (r & s & Hrun & Hren & Hdirs & Hlog & Hrm)
      end.
      rewrite Hrun, <- app_assoc. eexists r, (_ :: s). split; [reflexivity|].
      change (renames (OsRename path (moved_under tmpDir incomingDir path)
                         (os_Rename env t path (moved_under tmpDir incomingDir path)) :: s))
        with ((path, moved_under tmpDir incomingDir path) :: renames s).
      rewrite Hren. repeat split; assumption.
    + exists (Some err), []. rewrite app_nil_r. repeat split.
Qed.

(** X11. [moveToIncoming] always returns, whatever the disk answers: it
    creates the bucket directory under [incoming], walks the staging
    directory, renames every file and re-creates every directory it is
    handed before the first entry with an error, each to the same relative
    path under the bucket directory, and then removes the staging directory
    in any case.  No result is looked at and nothing is logged: a file
    whose rename failed, or that lies behind a walk error, is deleted with
    the staging directory. *)
Theorem X11_moveToIncoming_always_purges serverDir tmpDir profileName bucketName t :
  let incomingDir := filepath.Join [serverDir; "incoming"; profileName; bucketName] in
  exists r s r',
    let entries := filepath_Walk env (t ++ [OsMkdirAll incomingDir r]) tmpDir in
    moveToIncoming env serverDir tmpDir profileName bucketName t
    = Returned tt (t ++ OsMkdirAll incomingDir r :: FilepathWalk tmpDir entries
                     :: s ++ [OsRemoveAll tmpDir r'])
    /\ renames s = List.map (fun path => (path, moved_under tmpDir incomingDir path))
                            (visited_files (before_error entries))
    /\ made_dirs s = List.map (moved_under tmpDir incomingDir)
                              (visited_dirs (before_error entries))
    /\ logged s = []
    /\ count is_removal s = 0.
Proof.
  cbv zeta. rewrite moveToIncoming_walk. cbv zeta.
  unfold bind at 1. unfold os_MkdirAll_ at 1, call. cbv zeta.
  unfold bind at 1. unfold filepath_Walk_, bind at 1, call. cbv zeta.
  match goal with |- context [walk_entries _ ?es ?tr] =>
    destruct (move_walk tmpDir
                (filepath.Join [serverDir; "incoming"; profileName; bucketName]) es tr)
      as (r & s & Hrun & Hren & Hdirs & Hlog & Hrm)
  end.
  rewrite Hrun. unfold bind, os_RemoveAll_, call, ret. cbv zeta.
  eexists _, s, _.
  split; [rewrite <- !app_assoc; reflexivity | repeat split; assumption].
Qed.

End Staging.

(** ** Copying a tree into the staging directory *)

Section TreeCopy.

Variable env : Env.
Hypothesis Hdisk : disk_works env.

Lemma copyDirectory_walk src dst :
  copyDirectory env src dst = (filepath_Walk_ env src (copy_entry env src dst) ;; ret tt).
Proof. reflexivity. Qed.

Lemma copyFile_ok src dst t :
  exists data,
    copyFile env src dst t
    = Returned tt (t ++ [OsReadFile src (inr data); OsMkdirAll (filepath.Dir dst) None;
                         OsWriteFile dst data None]).
Proof.
  destruct Hdisk as (Hread & Hmk & Hwrite).
  destruct (Hread t src) as (data & Hr). exists data.
  unfold copyFile, bind, os_ReadFile_, os_MkdirAll_, os_WriteFile_, call. cbv zeta.
  rewrite Hr, Hmk, Hwrite. unfold ret. rewrite <- !app_assoc. reflexivity.
Qed.

Lemma copy_walk src dst entries t :
  exists r s,
    walk_entries (copy_entry env src dst) entries t = Returned r (t ++ s)
    /\ files_read s = visited_files (before_error entries)
    /\ List.map fst (files_written s)
       = List.map (moved_under src dst) (visited_files (before_error entries))
    /\ logged s = [].
Proof.
  revert t. induction entries as [|e rest IH]; intros t.
  - exists None, []. rewrite app_nil_r. repeat split.
  - destruct e as [path [|]|path info err].
    + assert (walk_entries (copy_entry env src dst) (Visit path true :: rest) t
              = walk_entries (copy_entry env src dst) rest
                  (t ++ [OsMkdirAll (moved_under src dst path)
                           (os_MkdirAll env t (moved_under src dst path))]))
        as -> by reflexivity.
      match goal with |- context [walk_entries _ rest ?tr] =>
        destruct (IH tr) as (r & s & Hrun & Hrd & Hwr & Hlog)
      end.
      rewrite Hrun, <- app_assoc. eexists r, (_ :: s). split; [reflexivity|].
      repeat split; assumption.
    + destruct (copyFile_ok path (moved_under src dst path) t) as (data & Hcopy).
      cbn [walk_entries copy_entry]. cbv zeta. unfold bind at 1. unfold bind at 1.
      fold (moved_under src dst path). rewrite Hcopy. unfold ret at 1.
      match goal with |- context [walk_entries _ rest ?tr] =>
        destruct (IH tr) as (r & s & Hrun & Hrd & Hwr & Hlog)
      end.
      rewrite Hrun, <- app_assoc. eexists r, (_ ++ s). split; [reflexivity|].
      autorewrite with trace. rewrite Hrd, Hlog, List.map_app, Hwr. repeat split.
    + exists (Some err), []. rewrite app_nil_r. repeat split.
Qed.

(** X12. On a disk that takes every read, directory creation and write,
    [copyDirectory] returns normally and logs nothing, also when the walk of
    the source hands it an entry with an error: it has then copied exactly
    the files listed before that entry, each to the same relative path under
    the destination, and silently leaves out everything after it. *)
Theorem X12_copyDirectory_stops_at_walk_error src dst t :
  exists s,
    let entries := filepath_Walk env t src in
    copyDirectory env src dst t = Returned tt (t ++ FilepathWalk src entries :: s)
    /\ files_read s = visited_files (before_error entries)
    /\ List.map fst (files_written s)
       = List.map (moved_under src dst) (visited_files (before_error entries))
    /\ logged s = [].
Proof.
  rewrite copyDirectory_walk. unfold bind at 1. unfold filepath_Walk_, bind at 1, call.
  cbv zeta.
  match goal with |- context [walk_entries _ ?es ?tr] =>
    destruct (copy_walk src dst es tr) as (r & s & Hrun & Hrd & Hwr & Hlog)
  end.
  exists s. rewrite Hrun. unfold ret.
  split; [rewrite <- app_assoc; reflexivity | repeat split; assumption].
Qed.

End TreeCopy.

(** A source tree whose second file lies behind an unreadable directory. *)
Lemma X12_copyDirectory_stops_at_walk_error_witness :
  exists s,
    let entries := filepath_Walk half_readable [] "photos" in
    copyDirectory half_readable "photos" "incoming_tmp/p1/b1/album" []
    = Returned tt ([] ++ FilepathWalk "photos" entries :: s)
    /\ files_read s = visited_files (before_error entries)
    /\ List.map fst (files_written s)
       = List.map (moved_under "photos" "incoming_tmp/p1/b1/album")
                  (visited_files (before_error entries))
    /\ logged s = [].
Proof.
  apply (X12_copyDirectory_stops_at_walk_error half_readable).
  split; [|split]; intros; [eexists|..]; reflexivity.
Defined.

(** ** Putting [incoming] under watch *)

Section Watcher.

Variable env : Env.

Lemma setupWatcher_walk serverDir :
  setupWatcher env serverDir
  = (let* err := call (fsnotify_NewWatcher env) NewWatcher in
     match err with
     | Some e => log_Fatal (Error e)
     | None =>
         emit GoEventLoop ;;
         let* err := filepath_Walk_ env (filepath.Join [serverDir; "incoming"])
                       (watch_entry env) in
         match err with
         | Some e => log_Fatal (Error e)
         | None => ret tt
         end
     end).
Proof. reflexivity. Qed.

Lemma watch_walk entries t :
  (forall t d, watcher_Add env t d = None) ->
  Forall has_info entries ->
  exists s,
    walk_entries (watch_entry env) entries t = Returned None (t ++ s)
    /\ watched s = entry_dirs entries
    /\ forallb is_watch s = true.
Proof.
  intros Hadd Hinfo. revert t.
  induction Hinfo as [|e rest He Hrest IH]; intros t.
  - exists []. rewrite app_nil_r. repeat split.
  - assert (forall path,
              walk_entries (watch_entry env) rest
                (t ++ [WatcherAdd path None])
              = bind (watch_dir env path true)
                  (fun r => match r with
                            | Some err => ret (Some err)
                            | None => walk_entries (watch_entry env) rest
                            end) t) as Hdir.
    { intros path. unfold watch_dir, call. cbv beta iota zeta. unfold bind.
      cbv beta iota zeta. rewrite Hadd. reflexivity. }
    assert (forall path,
              walk_entries (watch_entry env) rest t
              = bind (watch_dir env path false)
                  (fun r => match r with
                            | Some err => ret (Some err)
                            | None => walk_entries (watch_entry env) rest
                            end) t) as Hfile by reflexivity.
    destruct e as [path [|]|path [[|]|] err]; cbn [walk_entries watch_entry];
      try contradiction.
    + rewrite <- Hdir. destruct (IH (t ++ [WatcherAdd path None])) as (s & Hrun & Hw & Hq).
      rewrite Hrun, <- app_assoc. exists (WatcherAdd path None :: s).
      split; [reflexivity|]. split; [|exact Hq].
      change (entry_dirs (Visit path true :: rest)) with (path :: entry_dirs rest).
      rewrite <- Hw. reflexivity.
    + rewrite <- Hfile. destruct (IH t) as (s & Hrun & Hw & Hq).
      exists s. repeat split; assumption.
    + rewrite <- Hdir. destruct (IH (t ++ [WatcherAdd path None])) as (s & Hrun & Hw & Hq).
      rewrite Hrun, <- app_assoc. exists (WatcherAdd path None :: s).
      split; [reflexivity|]. split; [|exact Hq].
      change (entry_dirs (VisitErr path (Some true) err :: rest))
        with (path :: entry_dirs rest).
      rewrite <- Hw. reflexivity.
    + rewrite <- Hfile. destruct (IH t) as (s & Hrun & Hw & Hq).
      exists s. repeat split; assumption.
Qed.

(** X13. When the watcher can be created and takes every directory,
    [setupWatcher] starts the event loop, walks [incoming] once and puts
    under watch exactly the directories the walk hands it, the root first,
    in the order of the walk; files are not watched.  An error the walk
    reports for an entry is ignored: a directory that was stat'ed but could
    not be read is watched like the others, and the walk's own result is
    always nil. *)
Theorem X13_every_directory_watched serverDir t :
  fsnotify_NewWatcher env t = None ->
  (forall t d, watcher_Add env t d = None) ->
  let root := filepath.Join [serverDir; "incoming"] in
  let entries := filepath_Walk env (t ++ [NewWatcher None; GoEventLoop]) root in
  Forall has_info entries ->
  exists s,
    setupWatcher env serverDir t
    = Returned tt (t ++ NewWatcher None :: GoEventLoop :: FilepathWalk root entries :: s)
    /\ watched s = entry_dirs entries
    /\ forallb is_watch s = true.
Proof.
  intros Hnew Hadd root entries Hinfo.
  rewrite setupWatcher_walk. unfold bind at 1. unfold call at 1. cbv zeta.
  rewrite Hnew. unfold bind at 1. unfold emit at 1.
  unfold bind at 1. unfold filepath_Walk_, bind at 1, call. cbv zeta.
  rewrite <- app_assoc. cbn [app]. fold root. fold entries.
  destruct (watch_walk entries
              ((t ++ [NewWatcher None; GoEventLoop]) ++ [FilepathWalk root entries])
              Hadd Hinfo) as (s & Hrun & Hw & Hq).
  rewrite Hrun. exists s. unfold ret.
  split; [rewrite <- !app_assoc; reflexivity | split; assumption].
Qed.


End Watcher.

Lemma X13_every_directory_watched_witness :
  exists s,
    setupWatcher watched_server "srv" []
    = Returned tt ([] ++ NewWatcher None :: GoEventLoop
                     :: FilepathWalk "srv/incoming"
                          (incoming_tree [NewWatcher None; GoEventLoop] "srv/incoming") :: s)
    /\ watched s = entry_dirs (incoming_tree [NewWatcher None; GoEventLoop] "srv/incoming")
    /\ forallb is_watch s = true.
Proof.
  apply (X13_every_directory_watched watched_server "srv" []).
  - reflexivity.
  - intros t d. reflexivity.
  - repeat constructor.
Defined.


(** ** Paths made of plain segments *)

Lemma append_length a b : String.length (a +:+ b) = String.length a + String.length b.
Proof.
  induction a as [|c a IH]; [reflexivity|].
  change (String c a +:+ b) with (String c (a +:+ b)).
  cbn [String.length]. rewrite IH. reflexivity.
Qed.

Lemma append_assoc a b c : (a +:+ b) +:+ c = a +:+ (b +:+ c).
Proof.
  induction a as [|x a IH]; [reflexivity|].
  change ((String x a +:+ b) +:+ c) with (String x ((a +:+ b) +:+ c)).
  rewrite IH. reflexivity.
Qed.

Lemma HasPrefix_slash c s : strings.HasPrefix (String c s) "/" = Ascii.eqb "/" c.
Proof.
  cbn [strings.HasPrefix]. destruct (Ascii.eqb "/" c); [destruct s|]; reflexivity.
Qed.

Lemma no_slash_cons c s :
  no_slash (String c s) -> Ascii.eqb "/" c = false /\ no_slash s.
Proof.
  unfold no_slash, filepath.Separator. rewrite Contains_cons, HasPrefix_slash.
  apply orb_false_iff.
Qed.

Lemma Cut_cons c s sep :
  strings.Cut (String c s) sep
  = if strings.HasPrefix (String c s) sep
    then Some (EmptyString, strings.drop (String.length sep) (String c s))
    else match strings.Cut s sep with
         | Some (before, after) => Some (String c before, after)
         | None => None
         end.
Proof. reflexivity. Qed.

(** Cutting at the separator gives the first segment and the rest. *)
Lemma Cut_seg a rest :
  no_slash a -> strings.Cut (a +:+ "/" +:+ rest) "/" = Some (a, rest).
Proof.
  induction a as [|c a IH]; intros Ha.
  - change ("" +:+ "/" +:+ rest) with (String "/" rest).
    rewrite Cut_cons, HasPrefix_slash. reflexivity.
  - change (String c a +:+ "/" +:+ rest) with (String c (a +:+ "/" +:+ rest)).
    destruct (no_slash_cons c a Ha) as [Hc Ha'].
    rewrite Cut_cons, HasPrefix_slash, Hc, (IH Ha'). reflexivity.
Qed.

Lemma Cut_none a : no_slash a -> strings.Cut a "/" = None.
Proof.
  induction a as [|c a IH]; intros Ha; [reflexivity|].
  destruct (no_slash_cons c a Ha) as [Hc Ha'].
  rewrite Cut_cons, HasPrefix_slash, Hc, (IH Ha'). reflexivity.
Qed.

Lemma Join_cons2 a b rest sep :
  strings.Join (a :: b :: rest) sep = a +:+ sep +:+ strings.Join (b :: rest) sep.
Proof. reflexivity. Qed.

Lemma SplitN_SS s sep n :
  strings.SplitN s sep (S (S n))
  = match strings.Cut s sep with
    | Some (before, after) => before :: strings.SplitN after sep (S n)
    | None => [s]
    end.
Proof. reflexivity. Qed.

(** Splitting what was joined gives the segments back, when there is room
    for all of them. *)
Lemma SplitN_Join segs n :
  Forall no_slash segs -> segs <> [] -> List.length segs <= n ->
  strings.SplitN (strings.Join segs "/") "/" n = segs.
Proof.
  intros Hall. revert n. induction Hall as [|a segs Ha Hsegs IH]; intros n Hne Hn.
  - contradiction.
  - destruct segs as [|b segs].
    + destruct n as [|[|n]]; cbn [List.length] in Hn; [lia | reflexivity |].
      rewrite SplitN_SS. cbn [strings.Join]. rewrite (Cut_none a Ha). reflexivity.
    + destruct n as [|[|n]]; cbn [List.length] in Hn; [lia | lia |].
      rewrite SplitN_SS, Join_cons2, (Cut_seg a _ Ha).
      rewrite IH; [reflexivity | discriminate | cbn [List.length]; lia].
Qed.

Lemma Join_length segs :
  List.length segs <= S (String.length (strings.Join segs "/")).
Proof.
  induction segs as [|a [|b segs] IH]; cbn [List.length]; [lia | lia |].
  rewrite Join_cons2, !append_length. cbn [List.length String.length] in *. lia.
Qed.

Lemma Split_Join segs :
  Forall no_slash segs -> segs <> [] ->
  strings.Split (strings.Join segs "/") "/" = segs.
Proof.
  intros Hall Hne. unfold strings.Split. apply SplitN_Join; [assumption | assumption |].
  pose proof (Join_length segs). lia.
Qed.

Lemma plain_no_slash segs : Forall plain segs -> Forall no_slash segs.
Proof.
  induction 1 as [|s segs Hs _ IH]; constructor; [apply Hs | exact IH].
Qed.

Lemma clean_step_plain rooted out elem :
  plain elem -> filepath.clean_step rooted out elem = elem :: out.
Proof.
  intros (_ & H1 & H2 & H3). unfold filepath.clean_step.
  apply String.eqb_neq in H1, H2, H3. rewrite H1, H2, H3. reflexivity.
Qed.

Lemma fold_clean rooted segs out :
  Forall plain segs ->
  fold_left (filepath.clean_step rooted) segs out = rev segs ++ out.
Proof.
  intros Hall. revert out. induction Hall as [|a segs Ha Hsegs IH]; intros out.
  - reflexivity.
  - cbn [fold_left rev]. rewrite (clean_step_plain rooted out a Ha), IH, <- app_assoc.
    reflexivity.
Qed.

(** A joined path of plain segments starts with a character that is not
    the separator. *)
Lemma Join_head segs :
  segs <> [] -> Forall plain segs ->
  exists c s, strings.Join segs "/" = String c s /\ Ascii.eqb "/" c = false.
Proof.
  intros Hne Hall. destruct Hall as [|a segs Ha Hsegs]; [contradiction|].
  destruct Ha as (Hslash & Hnil & _). destruct a as [|c a]; [contradiction|].
  destruct (no_slash_cons c a Hslash) as [Hc _].
  destruct segs; eexists c, _; (split; [reflexivity | exact Hc]).
Qed.

(** [filepath.Clean] leaves a path of plain segments as it is. *)
Lemma Clean_plain segs :
  segs <> [] -> Forall plain segs ->
  filepath.Clean (strings.Join segs "/") = strings.Join segs "/".
Proof.
  intros Hne Hall. unfold filepath.Clean. cbv zeta. unfold filepath.Separator.
  rewrite (Split_Join segs (plain_no_slash segs Hall) Hne).
  rewrite fold_clean by assumption. rewrite app_nil_r, rev_involutive.
  destruct (Join_head segs Hne Hall) as (c & s & Heq & Hc).
  rewrite Heq, HasPrefix_slash, Hc. reflexivity.
Qed.

(** A leading [.] is dropped. *)
Lemma Clean_dot segs :
  segs <> [] -> Forall plain segs ->
  filepath.Clean (strings.Join ("." :: segs) "/") = strings.Join segs "/".
Proof.
  intros Hne Hall. unfold filepath.Clean. cbv zeta. unfold filepath.Separator.
  rewrite (Split_Join ("." :: segs)); [| | discriminate].
  - cbn [fold_left]. change (filepath.clean_step _ [] ".") with (@nil string).
    rewrite fold_clean by assumption. rewrite app_nil_r, rev_involutive.
    destruct (Join_head segs Hne Hall) as (c & s & Heq & Hc).
    destruct segs as [|a segs]; [contradiction|].
    rewrite Join_cons2. rewrite Heq. reflexivity.
  - constructor; [reflexivity | apply plain_no_slash, Hall].
Qed.

Lemma Join_flat segs rest :
  segs <> [] ->
  strings.Join (strings.Join segs "/" :: rest) "/" = strings.Join (segs ++ rest) "/".
Proof.
  intros Hne. induction segs as [|a [|b segs] IH]; [contradiction | reflexivity |].
  specialize (IH ltac:(discriminate)).
  change ((a :: b :: segs) ++ rest) with (a :: (b :: segs) ++ rest).
  destruct rest as [|r rest].
  - rewrite app_nil_r. reflexivity.
  - change ((b :: segs) ++ r :: rest) with (b :: segs ++ r :: rest) in *.
    rewrite (Join_cons2 a b (segs ++ r :: rest)), <- IH.
    rewrite !Join_cons2, !append_assoc. reflexivity.
Qed.

Lemma Join_flat_last xs ys :
  ys <> [] ->
  strings.Join (xs ++ [strings.Join ys "/"]) "/" = strings.Join (xs ++ ys) "/".
Proof.
  intros Hne. induction xs as [|x [|x' xs] IH].
  - reflexivity.
  - destruct ys as [|y ys]; [contradiction | reflexivity].
  - change ((x :: x' :: xs) ++ [strings.Join ys "/"])
      with (x :: x' :: xs ++ [strings.Join ys "/"]).
    change ((x :: x' :: xs) ++ ys) with (x :: x' :: xs ++ ys).
    rewrite !Join_cons2. f_equal. f_equal. exact IH.
Qed.

Lemma fJoin_nonempty a rest :
  a <> "" -> filepath.Join (a :: rest) = filepath.Clean (strings.Join (a :: rest) "/").
Proof.
  intros Ha. unfold filepath.Join. cbn [filepath.drop_empty].
  apply String.eqb_neq in Ha. rewrite Ha. reflexivity.
Qed.

Lemma Join_nonempty segs :
  segs <> [] -> Forall plain segs -> strings.Join segs "/" <> "".
Proof.
  intros Hne Hall Heq. destruct (Join_head segs Hne Hall) as (c & s & Hj & _).
  congruence.
Qed.

(** [filepath.Join] of the server directory and further plain segments. *)
Lemma server_Join serverDir segs xs :
  server_at serverDir segs -> xs <> [] -> Forall plain xs ->
  filepath.Join (serverDir :: xs) = strings.Join (segs ++ xs) "/".
Proof.
  intros [[-> ->]|(Hne & Hall & ->)] Hxs Hplain.
  - rewrite fJoin_nonempty by discriminate. apply Clean_dot; assumption.
  - rewrite fJoin_nonempty by (apply Join_nonempty; assumption).
    rewrite Join_flat by assumption.
    apply Clean_plain; [destruct segs; [contradiction | discriminate]|].
    apply Forall_app; split; assumption.
Qed.

Lemma strip_common_prefix base rest :
  filepath.strip_common base (base ++ rest) = ([], rest).
Proof.
  induction base as [|b base IH]; [destruct rest; reflexivity|].
  cbn [filepath.strip_common app]. rewrite String.eqb_refl. exact IH.
Qed.

Lemma not_rooted segs :
  segs <> [] -> Forall plain segs ->
  strings.HasPrefix (strings.Join segs "/") "/" = false.
Proof.
  intros Hne Hall. destruct (Join_head segs Hne Hall) as (c & s & -> & Hc).
  rewrite HasPrefix_slash. exact Hc.
Qed.

Lemma elements_plain segs :
  segs <> [] -> Forall plain segs ->
  filepath.elements (strings.Join segs "/") = segs.
Proof.
  intros Hne Hall. unfold filepath.elements, filepath.Separator.
  rewrite (Split_Join segs (plain_no_slash segs Hall) Hne).
  destruct (Join_head segs Hne Hall) as (c & s & -> & Hc).
  cbn [String.eqb]. rewrite Ascii.eqb_sym, Hc. reflexivity.
Qed.

(** The path of an entry relative to a directory above it. *)
Lemma Rel_under_plain base rest :
  base <> [] -> rest <> [] -> Forall plain base -> Forall plain rest ->
  filepath.Rel (strings.Join base "/") (strings.Join (base ++ rest) "/")
  = Some (strings.Join rest "/").
Proof.
  intros Hb Hr Hpb Hpr.
  assert (Forall plain (base ++ rest)) as Hall by (apply Forall_app; split; assumption).
  assert (base ++ rest <> []) as Hne by (destruct base; [contradiction | discriminate]).
  unfold filepath.Rel. cbv zeta. rewrite !Clean_plain by assumption.
  assert (strings.Join (base ++ rest) "/" <> strings.Join base "/") as Hdiff.
  { intros Heq. apply (f_equal (fun s => strings.Split s "/")) in Heq.
    rewrite !Split_Join in Heq by (try apply plain_no_slash; assumption).
    rewrite <- (app_nil_r base) in Heq at 2. apply app_inv_head in Heq. contradiction. }
  apply String.eqb_neq in Hdiff. rewrite Hdiff.
  assert (forall segs, segs <> [] -> Forall plain segs ->
                       strings.Join segs "/" <> ".") as Hdot.
  { intros segs Hs Hps Heq. apply (f_equal (fun s => strings.Split s "/")) in Heq.
    rewrite Split_Join in Heq by (try apply plain_no_slash; assumption).
    change (strings.Split "." "/") with ["."] in Heq. subst segs.
    inversion Hps as [|? ? (_ & _ & Hd & _) _]. contradiction. }
  pose proof (Hdot base Hb Hpb) as Hdb. pose proof (Hdot _ Hne Hall) as Hdt.
  apply String.eqb_neq in Hdb, Hdt. rewrite Hdb, Hdt.
  unfold filepath.Separator.
  rewrite !not_rooted, !elements_plain by assumption. cbn [Bool.eqb negb].
  rewrite strip_common_prefix. reflexivity.
Qed.


(** ** Where a claimed file goes, and under which key it is uploaded *)

Lemma plain_incoming : plain "incoming".
Proof. split; [reflexivity | repeat split; discriminate]. Qed.

Lemma plain_processing : plain "processing".
Proof. split; [reflexivity | repeat split; discriminate]. Qed.

Ltac plain_list :=
  repeat (constructor;
          [solve [ exact plain_incoming | exact plain_processing | assumption ]|]);
  try first [ assumption | constructor ].

(** The pieces [handleFileEvent] cuts a relative path into. *)
Lemma parts_of_rel p b ks :
  no_slash p -> no_slash b ->
  strings.SplitN (strings.Join (p :: b :: ks) "/") "/" 3
  = p :: b :: match ks with [] => [] | _ :: _ => [strings.Join ks "/"] end.
Proof.
  intros Hp Hb. destruct ks as [|k ks].
  - apply SplitN_Join; [repeat constructor; assumption | discriminate | cbn; lia].
  - rewrite !Join_cons2, SplitN_SS, (Cut_seg p _ Hp), SplitN_SS, (Cut_seg b _ Hb).
    reflexivity.
Qed.

(** The four pieces the executors cut a processing path into. *)
Lemma SplitN_Join_4 a b c d rest :
  no_slash a -> no_slash b -> no_slash c ->
  strings.SplitN (strings.Join (a :: b :: c :: d :: rest) "/") "/" 4
  = [a; b; c; strings.Join (d :: rest) "/"].
Proof.
  intros Ha Hb Hc.
  rewrite !Join_cons2, SplitN_SS, (Cut_seg a _ Ha), SplitN_SS, (Cut_seg b _ Hb),
    SplitN_SS, (Cut_seg c _ Hc).
  reflexivity.
Qed.

Lemma handler_rel serverDir segs p b ks :
  server_at serverDir segs -> plain p -> plain b -> Forall plain ks ->
  Rel_or_empty (filepath.Join [serverDir; "incoming"])
               (strings.Join (segs ++ ["incoming"; p; b] ++ ks) "/")
  = strings.Join (p :: b :: ks) "/".
Proof.
  intros Hs Hp Hb Hks.
  rewrite (server_Join serverDir segs ["incoming"] Hs);
    [| discriminate | plain_list].
  change (segs ++ ["incoming"; p; b] ++ ks) with (segs ++ ["incoming"] ++ p :: b :: ks).
  rewrite app_assoc. unfold Rel_or_empty.
  rewrite Rel_under_plain; [reflexivity | | discriminate | |].
  - destruct segs; discriminate.
  - apply Forall_app. split; [|plain_list].
    destruct Hs as [[_ ->]|(_ & Hall & _)]; [constructor | exact Hall].
  - plain_list.
Qed.

Lemma server_segs_plain serverDir segs : server_at serverDir segs -> Forall plain segs.
Proof. intros [[_ ->]|(_ & Hall & _)]; [constructor | exact Hall]. Qed.

(** [filepath.Join] of the server directory, [processing] and a relative
    path of plain segments. *)
Lemma server_Join_rel serverDir segs ys :
  server_at serverDir segs -> ys <> [] -> Forall plain ys ->
  filepath.Join [serverDir; "processing"; strings.Join ys "/"]
  = strings.Join (segs ++ "processing" :: ys) "/".
Proof.
  intros [[-> ->]|(Hne & Hall & ->)] Hys Hplain.
  - rewrite fJoin_nonempty by discriminate.
    change ["."; "processing"; strings.Join ys "/"]
      with (["."; "processing"] ++ [strings.Join ys "/"]).
    rewrite Join_flat_last by assumption.
    apply (Clean_dot ("processing" :: ys)); [discriminate|].
    plain_list.
  - rewrite fJoin_nonempty by (apply Join_nonempty; assumption).
    rewrite Join_flat by assumption.
    change (segs ++ ["processing"; strings.Join ys "/"])
      with (segs ++ ["processing"] ++ [strings.Join ys "/"]).
    rewrite app_assoc, Join_flat_last by assumption.
    rewrite <- app_assoc. cbn [app].
    apply Clean_plain; [destruct segs; [contradiction | discriminate]|].
    apply Forall_app. split; [assumption | plain_list].
Qed.

Section Addressing.

Variable env : Env.

Lemma no_put_puts b k f ev : no_put ev = true -> puts_are b k f ev = true.
Proof. destruct ev; cbn; congruence. Qed.

Lemma only_puts_PutObject p b k f : only (puts_are b k f) (PutObject_ env p b k f).
Proof.
  unfold PutObject_. apply only_call. intros r. cbn [puts_are].
  rewrite !String.eqb_refl. reflexivity.
Qed.

Ltac without_put lemma :=
  apply (only_weaken no_put); [apply no_put_puts | apply lemma].

Lemma only_puts_uploadToS3 f b k p : only (puts_are b k f) (uploadToS3 env f b k p).
Proof.
  unfold uploadToS3.
  repeat first [ without_put no_put_getAWSConfig | apply only_puts_PutObject | only_step ].
Qed.

(** Every upload of an executor call sends the path it was given, to the
    bucket it was given, under the key cut from that path. *)
Lemma only_puts_processFileWithRetry path p b n :
  only (puts_are b (key_of path) path) (processFileWithRetry env path p b n).
Proof.
  remember (S maxRetries - n) as k eqn:Hk. revert n Hk.
  induction k as [k IH] using lt_wf_ind. intros n Hk.
  rewrite processFileWithRetry_equation_1.
  destruct (decide (maxRetries < n)).
  - repeat first [ without_put no_put_moveToFailed | without_put no_put_logRetry
                 | only_step ].
  - repeat first [ without_put no_put_moveToFailed | without_put no_put_logRetry
                 | without_put no_put_validate | apply only_puts_uploadToS3
                 | only_step
                 | (apply (IH (S maxRetries - (n + 1))); lia) ].
Qed.

(** A path with fewer than four pieces is never uploaded. *)
Lemma no_put_unaddressable path p b n :
  ~ addressable path -> only no_put (processFileWithRetry env path p b n).
Proof.
  intros Hna. rewrite processFileWithRetry_equation_1.
  destruct (decide (maxRetries < n)).
  - repeat first [ apply no_put_moveToFailed | apply no_put_logRetry | only_step ].
  - apply only_bind; [only_step | intros _].
    apply only_bind; [apply no_put_validate | intros [e|]].
    + repeat first [ apply no_put_moveToFailed | apply no_put_logRetry | only_step ].
    + cbv zeta.
      destruct (Nat.ltb_spec (List.length (strings.SplitN path filepath.Separator 4)) 4)
        as [_|Hge]; [only_step | exfalso; apply Hna; exact Hge].
Qed.

(** X15. For a server directory that is [.] or a relative path of plain
    segments, a known profile [p], and a file notified at
    [<serverDir>/incoming/p/b/<ks>], the handler of [main.go] claims the
    file by renaming it to [<serverDir>/processing/p/b], a path that does
    not depend on the file's own relative path [ks], and every upload of the
    call sends that path to bucket [b] under the key cut from that path.
    With the server directory [.] the path has three pieces and nothing is
    ever uploaded; with a server directory of one segment the key is the
    bucket name [b]; in general it is what follows the third segment of
    [<serverDir>/processing/p/b].  The file's name is in no case part of the
    key. *)
Theorem X15_claim_forgets_file_name serverDir segs profiles profile p b ks t :
  server_at serverDir segs -> plain p -> plain b -> Forall plain ks ->
  profiles !! p = Some profile ->
  let path := strings.Join (segs ++ ["incoming"; p; b] ++ ks) "/" in
  let P := strings.Join (segs ++ ["processing"; p; b]) "/" in
  exists r1 r2 s,
    trace_of (handleFileEvent env serverDir profiles path t)
    = t ++ OsMkdirAll P r1 :: OsRename path P r2 :: s
    /\ forallb (puts_are b (key_of P) P) s = true
    /\ (segs = [] -> uploads s = 0)
    /\ (forall s1, segs = [s1] -> key_of P = b)
    /\ (segs <> [] ->
        key_of P = strings.Join (skipn 3 (segs ++ ["processing"; p; b])) "/").
Proof.
  intros Hs Hp Hb Hks Hprof path P.
  pose proof (server_segs_plain serverDir segs Hs) as Hsegs.
  assert (filepath.Join [serverDir; "processing"; p; b] = P) as HP.
  { apply (server_Join serverDir segs ["processing"; p; b] Hs); [discriminate|].
    plain_list. }
  unfold handleFileEvent. cbv zeta. unfold path, filepath.Separator.
  rewrite !(handler_rel serverDir segs p b ks Hs Hp Hb Hks).
  rewrite !(parts_of_rel p b ks (proj1 Hp) (proj1 Hb)).
  cbn [List.length nth Nat.ltb Nat.leb]. rewrite Hprof, !HP. fold path.
  unfold bind at 1. unfold os_MkdirAll_ at 1, call. cbv zeta.
  unfold bind at 1. unfold os_Rename_ at 1, call. cbv zeta.
  match goal with |- context [processFileWithRetry env P profile b 0 ?tr] =>
    set (t0 := tr);
    destruct (only_puts_processFileWithRetry P profile b 0 t0) as (s & Hrun & Hq)
  end.
  eexists _, _, s. split; [rewrite Hrun; unfold t0; rewrite <- !app_assoc; reflexivity|].
  split; [exact Hq|].
  assert (forall a rest, segs = a :: rest ->
            key_of P = strings.Join (skipn 3 (segs ++ ["processing"; p; b])) "/") as Hkey.
  { intros a rest ->. unfold key_of, P, filepath.Separator.
    inversion Hsegs as [|? ? Ha Hrest]; subst.
    destruct rest as [|a2 rest].
    - cbn [app]. rewrite SplitN_Join_4;
        [reflexivity | apply Ha | reflexivity | apply Hp].
    - inversion Hrest as [|? ? Ha2 Hrest']; subst.
      destruct rest as [|a3 rest].
      + cbn [app]. rewrite SplitN_Join_4; [reflexivity | apply Ha | apply Ha2 | reflexivity].
      + inversion Hrest' as [|? ? Ha3 _]; subst.
        destruct rest as [|a4 rest]; cbn [app];
          (rewrite SplitN_Join_4; [reflexivity | apply Ha | apply Ha2 | apply Ha3]). }
  split; [|split].
  - intros ->.
    assert (~ addressable P) as Hna.
    { unfold addressable, P, filepath.Separator. cbn [app].
      rewrite SplitN_Join; [cbn; lia | | discriminate | cbn; lia].
      repeat constructor; first [ apply Hp | apply Hb ]. }
    destruct (no_put_unaddressable P profile b 0 Hna t0) as (s' & Hrun' & Hq').
    rewrite Hrun in Hrun'. apply app_inv_head in Hrun'. subst s'.
    unfold uploads. apply (count_none no_put); [exact no_put_spec | exact Hq'].
  - intros s1 Heq. rewrite (Hkey s1 [] Heq). subst segs. reflexivity.
  - intros Hne. destruct segs as [|a rest]; [contradiction|]. apply (Hkey a rest eq_refl).
Qed.

End Addressing.

(** A photo arriving for bucket [b1] of profile [p1] under [srv]. *)
Lemma X15_claim_forgets_file_name_witness :
  let path := strings.Join (["srv"] ++ ["incoming"; "p1"; "b1"] ++ ["photos"; "a.jpg"]) "/" in
  let P := strings.Join (["srv"] ++ ["processing"; "p1"; "b1"]) "/" in
  exists r1 r2 s,
    trace_of (handleFileEvent calm "srv" known_profiles path [])
    = [] ++ OsMkdirAll P r1 :: OsRename path P r2 :: s
    /\ forallb (puts_are "b1" (key_of P) P) s = true
    /\ (["srv"] = [] -> uploads s = 0)
    /\ (forall s1, ["srv"] = [s1] -> key_of P = "b1")
    /\ (["srv"] <> [] ->
        key_of P = strings.Join (skipn 3 (["srv"] ++ ["processing"; "p1"; "b1"])) "/").
Proof.
  apply (X15_claim_forgets_file_name calm "srv" ["srv"] known_profiles p1 "p1" "b1"
           ["photos"; "a.jpg"] []).
  - right. split; [discriminate|]. split; [|reflexivity].
    repeat constructor; discriminate.
  - split; [reflexivity | repeat split; discriminate].
  - split; [reflexivity | repeat split; discriminate].
  - repeat constructor; discriminate.
  - reflexivity.
Defined.


(** ** The same for the earlier executor *)

Section Part000Addressing.

Variable env : Env.

Ltac without_put lemma :=
  apply (only_weaken no_put); [apply no_put_puts | apply lemma].

Lemma only_puts_Part000_uploadToS3 f b k p :
  only (puts_are b k f) (Part000.uploadToS3 env f b k p).
Proof.
  unfold Part000.uploadToS3, Part000.checkFileExistsInS3, Part000.computeMD5Hash,
    Part000.upload_unless, Part000.HeadObject_.
  repeat first [ apply only_puts_PutObject | only_step ].
Qed.

(** Every upload of [processFile] sends the path it was given to the
    bucket and under the key it cuts from that path: its third piece and
    what follows it. *)
Lemma only_puts_Part000_processFile path profile :
  only (puts_are (nth 2 (strings.SplitN path "/" 4) "")
                 (nth 3 (strings.SplitN path "/" 4) "") path)
       (Part000.processFile env path profile).
Proof.
  unfold Part000.processFile, filepath.Separator. cbv zeta.
  repeat first [ apply only_puts_Part000_uploadToS3 | without_put no_put_moveToFailed
               | only_step ].
Qed.

(** X16. The handler of [part_000] keeps the file's relative path when it
    claims it: a file notified at [<serverDir>/incoming/p/b/<ks>] is renamed
    to [<serverDir>/processing/p/b/<ks>].  Its executor takes the bucket and
    the key from the third and fourth piece of that path, so they are the
    bucket [b] and the file's path [ks] under it exactly when the server
    directory is [.]: with a server directory of one segment every upload
    goes to a bucket named after the profile [p], under the key [b/<ks>],
    and with a longer one to a bucket named [processing] or after a segment
    of the server directory. *)
Theorem X16_part000_addressing serverDir segs profiles profile p b ks t :
  server_at serverDir segs -> plain p -> plain b -> ks <> [] -> Forall plain ks ->
  profiles !! p = Some profile ->
  let path := strings.Join (segs ++ ["incoming"; p; b] ++ ks) "/" in
  let P := strings.Join (segs ++ ["processing"; p; b] ++ ks) "/" in
  exists r1 r2 s,
    trace_of (Part000.handleFileEvent env serverDir profiles path t)
    = t ++ OsMkdirAll (filepath.Dir P) r1 :: OsRename path P r2 :: s
    /\ (segs = [] -> forallb (puts_are b (strings.Join ks "/") P) s = true)
    /\ (forall s1, segs = [s1] ->
          forallb (puts_are p (strings.Join (b :: ks) "/") P) s = true)
    /\ (forall s1 s2 rest, segs = s1 :: s2 :: rest ->
          forallb (puts_are (nth 2 (segs ++ ["processing"]) "")
                            (strings.Join (skipn 3 (segs ++ ["processing"; p; b] ++ ks)) "/")
                            P) s = true).
Proof.
  intros Hs Hp Hb Hne Hks Hprof path P.
  pose proof (server_segs_plain serverDir segs Hs) as Hsegs.
  assert (filepath.Join [serverDir; "processing"; strings.Join (p :: b :: ks) "/"] = P)
    as HP.
  { apply (server_Join_rel serverDir segs (p :: b :: ks) Hs); [discriminate | plain_list]. }
  unfold Part000.handleFileEvent. cbv zeta. unfold path, filepath.Separator.
  rewrite !(handler_rel serverDir segs p b ks Hs Hp Hb Hks).
  rewrite !(parts_of_rel p b ks (proj1 Hp) (proj1 Hb)).
  cbn [List.length nth Nat.ltb Nat.leb]. rewrite Hprof, !HP. fold path.
  unfold bind at 1. unfold os_MkdirAll_ at 1, call. cbv zeta.
  unfold bind at 1. unfold os_Rename_ at 1, call. cbv zeta.
  match goal with |- context [Part000.processFile env P profile ?tr] =>
    set (t0 := tr);
    destruct (only_puts_Part000_processFile P profile t0) as (s & Hrun & Hq)
  end.
  eexists _, _, s. split; [rewrite Hrun; unfold t0; rewrite <- !app_assoc; reflexivity|].
  destruct ks as [|k ks]; [contradiction|].
  inversion Hks as [|? ? Hk _]; subst.
  split; [|split].
  - intros ->. unfold P in Hq |- *. cbn [app] in Hq |- *.
    rewrite SplitN_Join_4 in Hq; [exact Hq | reflexivity | apply Hp | apply Hb].
  - intros s1 ->. inversion Hsegs as [|? ? H1 _]; subst.
    unfold P in Hq |- *. cbn [app] in Hq |- *.
    rewrite SplitN_Join_4 in Hq; [exact Hq | apply H1 | reflexivity | apply Hp].
  - intros s1 s2 rest ->. inversion Hsegs as [|? ? H1 Hrest]; subst.
    inversion Hrest as [|? ? H2 Hrest']; subst.
    unfold P in Hq |- *. destruct rest as [|s3 rest].
    + cbn [app] in Hq |- *.
      rewrite SplitN_Join_4 in Hq; [exact Hq | apply H1 | apply H2 | reflexivity].
    + inversion Hrest' as [|? ? H3 _]; subst.
      destruct rest as [|s4 rest]; cbn [app] in Hq |- *;
        (rewrite SplitN_Join_4 in Hq; [exact Hq | apply H1 | apply H2 | apply H3]).
Qed.

End Part000Addressing.

(** A photo arriving for bucket [b1] of profile [p1] under [srv]. *)
Lemma X16_part000_addressing_witness :
  let path := strings.Join (["srv"] ++ ["incoming"; "p1"; "b1"] ++ ["photos"; "a.jpg"]) "/" in
  let P := strings.Join (["srv"] ++ ["processing"; "p1"; "b1"] ++ ["photos"; "a.jpg"]) "/" in
  exists r1 r2 s,
    trace_of (Part000.handleFileEvent calm "srv" known_profiles path [])
    = [] ++ OsMkdirAll (filepath.Dir P) r1 :: OsRename path P r2 :: s
    /\ (["srv"] = [] -> forallb (puts_are "b1" (strings.Join ["photos"; "a.jpg"] "/") P) s = true)
    /\ (forall s1, ["srv"] = [s1] ->
          forallb (puts_are "p1" (strings.Join ("b1" :: ["photos"; "a.jpg"]) "/") P) s = true)
    /\ (forall s1 s2 rest, ["srv"] = s1 :: s2 :: rest ->
          forallb (puts_are (nth 2 (["srv"] ++ ["processing"]) "")
                            (strings.Join (skipn 3 (["srv"] ++ ["processing"; "p1"; "b1"]
                                                     ++ ["photos"; "a.jpg"])) "/")
                            P) s = true).
Proof.
  apply (X16_part000_addressing calm "srv" ["srv"] known_profiles p1 "p1" "b1"
           ["photos"; "a.jpg"] []).
  - right. split; [discriminate|]. split; [|reflexivity].
    repeat constructor; discriminate.
  - split; [reflexivity | repeat split; discriminate].
  - split; [reflexivity | repeat split; discriminate].
  - discriminate.
  - repeat constructor; discriminate.
  - reflexivity.
Defined.


(** ** How the startup scan names the objects it uploads *)

Section RecoveryAddressing.

Variable env : Env.

Ltac without_put lemma :=
  apply (only_weaken no_put); [apply no_put_puts | apply lemma].

(** Every upload of the [processFile] that the startup scan calls sends the
    path it was given to the bucket named by its third piece, under the key
    that follows it. *)
Lemma only_puts_processFile path profile :
  only (puts_are (nth 2 (strings.SplitN path "/" 4) "")
                 (nth 3 (strings.SplitN path "/" 4) "") path)
       (processFile env path profile).
Proof.
  unfold processFile, filepath.Separator. cbv zeta.
  repeat first [ apply only_puts_uploadToS3 | without_put no_put_moveToFailed
               | only_step ].
Qed.

(** What [processFile] uploads, it names after the path alone. *)
Lemma only_by_path_processFile path profile :
  only put_by_path (processFile env path profile).
Proof.
  apply (only_weaken (puts_are (nth 2 (strings.SplitN path "/" 4) "")
                               (nth 3 (strings.SplitN path "/" 4) "") path));
    [|apply only_puts_processFile].
  intros ev. destruct ev; try reflexivity. cbn [puts_are put_by_path].
  unfold filepath.Separator.
  rewrite !andb_true_iff, !String.eqb_eq. intros [[-> ->] ->]. split; reflexivity.
Qed.

Lemma only_by_path_processExistingFiles serverDir profiles :
  only put_by_path (processExistingFiles env serverDir profiles).
Proof.
  unfold processExistingFiles. apply only_for_range. intros p. cbv zeta.
  apply only_bind; [|intros _; apply only_ret].
  apply only_Walk; [reflexivity|]. intros e.
  apply only_on_files. intros path. apply only_by_path_processFile.
Qed.

(** X17. The startup scan of [processing] names every object it uploads
    after the uploaded file's own path, whatever the walk finds and whatever
    profile the file is found under: the bucket is the third piece of the
    path between separators, the key is what follows that piece.  Under a
    server directory of one segment, a file left at
    [<serverDir>/processing/p/b/...] therefore goes to a bucket named after
    the profile [p], under a key that starts with the bucket directory [b];
    only with the server directory [.] (paths [processing/p/b/k/...]) does
    it go to bucket [b] under the key [k/...]. *)
Theorem X17_scan_names_objects_by_path serverDir profiles t :
  exists s,
    trace_of (processExistingFiles env serverDir profiles t) = t ++ s
    /\ forall q bk key f r,
         In (S3PutObject q bk key f r) s ->
         bk = nth 2 (strings.SplitN f filepath.Separator 4) ""
         /\ key = nth 3 (strings.SplitN f filepath.Separator 4) ""
         /\ (forall s1 p b ks,
               no_slash s1 -> no_slash p ->
               f = strings.Join (s1 :: "processing" :: p :: b :: ks) "/" ->
               bk = p /\ key = strings.Join (b :: ks) "/")
         /\ (forall p b k ks,
               no_slash p -> no_slash b ->
               f = strings.Join ("processing" :: p :: b :: k :: ks) "/" ->
               bk = b /\ key = strings.Join (k :: ks) "/").
Proof.
  destruct (only_by_path_processExistingFiles serverDir profiles t) as (s & Hrun & Hq).
  exists s. split; [exact Hrun|].
  intros q bk key f r Hin.
  rewrite forallb_forall in Hq. specialize (Hq _ Hin). cbn [put_by_path] in Hq.
  unfold filepath.Separator in *.
  apply andb_true_iff in Hq as [Hb Hk]. apply String.eqb_eq in Hb, Hk.
  split; [exact Hb|]. split; [exact Hk|]. split.
  - intros s1 p b ks H1 Hp Hf. subst f.
    pose proof (SplitN_Join_4 s1 "processing" p b ks H1 eq_refl Hp)
      as Hparts.
    rewrite Hparts in Hb, Hk. split; assumption.
  - intros p b k ks Hp Hb' Hf. subst f.
    pose proof (SplitN_Join_4 "processing" p b k ks eq_refl Hp Hb')
      as Hparts.
    rewrite Hparts in Hb, Hk. split; assumption.
Qed.

End RecoveryAddressing.

(** The scan on the disk of the crash-recovery scenario: [x.bin], left in
    [srv/processing/p1/b1], is uploaded to a bucket named [p1], the profile,
    under the key [b1/x.bin]. *)
Lemma scan_after_crash_uploads_to_profile :
  In (S3PutObject p1 "p1" "b1/x.bin" "srv/processing/p1/b1/x.bin" None)
     (trace_of (processExistingFiles after_crash "srv" known_profiles [])).
Proof. vm_compute. tauto. Qed.

(** ** Where a finalized file goes *)

Lemma HasPrefix_nil s : strings.HasPrefix s "" = true.
Proof. destruct s; reflexivity. Qed.

Lemma HasPrefix_self sep r : strings.HasPrefix (sep +:+ r) sep = true.
Proof.
  induction sep as [|c sep IH]; [apply HasPrefix_nil|].
  change (String c sep +:+ r) with (String c (sep +:+ r)).
  cbn [strings.HasPrefix]. rewrite Ascii.eqb_refl. exact IH.
Qed.

Lemma drop_self sep r : strings.drop (String.length sep) (sep +:+ r) = r.
Proof. induction sep as [|c sep IH]; [destruct r; reflexivity | exact IH]. Qed.

Lemma Cut_hit s sep :
  strings.HasPrefix s sep = true ->
  strings.Cut s sep = Some (EmptyString, strings.drop (String.length sep) s).
Proof. intros H. destruct s; cbn [strings.Cut]; rewrite H; reflexivity. Qed.

(** When no occurrence of [sep] starts inside [a], cutting [a +:+ sep +:+ r]
    gives [a] and [r]. *)
Lemma Cut_first a sep r :
  clear_before a (sep +:+ r) sep = true ->
  strings.Cut (a +:+ sep +:+ r) sep = Some (a, r).
Proof.
  induction a as [|c a IH]; intros Hclear.
  - change ("" +:+ sep +:+ r) with (sep +:+ r).
    rewrite Cut_hit by apply HasPrefix_self. rewrite drop_self. reflexivity.
  - cbn [clear_before] in Hclear. apply andb_true_iff in Hclear as [Hhere Hrest].
    apply negb_true_iff in Hhere.
    change (String c a +:+ sep +:+ r) with (String c (a +:+ sep +:+ r)) in *.
    rewrite Cut_cons, Hhere, (IH Hrest). reflexivity.
Qed.

(** A separator cannot be part of a match of a word that has none. *)
Lemma HasPrefix_past_slash s sep X :
  strings.HasPrefix s sep = false -> char_in "/" sep = false ->
  strings.HasPrefix (s +:+ "/" +:+ X) sep = false.
Proof.
  revert sep. induction s as [|c s IH]; intros sep Hs Hsep.
  - destruct sep as [|a sep]; [discriminate|].
    change ("" +:+ "/" +:+ X) with (String "/" X).
    cbn [char_in] in Hsep. apply orb_false_iff in Hsep as [Ha _].
    cbn [strings.HasPrefix]. rewrite Ha. reflexivity.
  - destruct sep as [|a sep]; [discriminate|].
    change (String c s +:+ "/" +:+ X) with (String c (s +:+ "/" +:+ X)).
    cbn [strings.HasPrefix] in Hs |- *.
    destruct (Ascii.eqb a c); [|reflexivity].
    cbn [char_in] in Hsep. apply orb_false_iff in Hsep as [_ Hsep].
    apply IH; assumption.
Qed.

Lemma clear_before_dir s sep X :
  strings.Contains s sep = false -> char_in "/" sep = false ->
  clear_before (s +:+ "/") X sep = true.
Proof.
  intros Hs Hsep. induction s as [|c s IH].
  - pose proof (HasPrefix_past_slash "" sep X) as Hhere.
    change ("" +:+ "/" +:+ X) with ("/" +:+ X) in Hhere.
    change ("" +:+ "/") with "/". cbn [clear_before].
    rewrite Hhere; [reflexivity | | exact Hsep].
    destruct sep; [discriminate | reflexivity].
  - rewrite Contains_cons in Hs. apply orb_false_iff in Hs as [Hhere Hrest].
    pose proof (HasPrefix_past_slash (String c s) sep X Hhere Hsep) as Hpast.
    rewrite <- append_assoc in Hpast.
    change (String c s +:+ "/") with (String c (s +:+ "/")) in *.
    cbn [clear_before]. rewrite Hpast, (IH Hrest). reflexivity.
Qed.

Lemma HasPrefix_length s sep :
  strings.HasPrefix s sep = true -> String.length sep <= String.length s.
Proof.
  revert s. induction sep as [|a sep IH]; intros s H; [cbn; lia|].
  destruct s as [|c s]; [discriminate|]. cbn [strings.HasPrefix] in H.
  destruct (Ascii.eqb a c); [|discriminate]. specialize (IH s H). cbn. lia.
Qed.

Lemma Cut_length s sep x y :
  strings.Cut s sep = Some (x, y) -> String.length sep <= String.length s.
Proof.
  revert x y. induction s as [|c s IH]; intros x y H.
  - cbn [strings.Cut] in H. destruct (strings.HasPrefix "" sep) eqn:Hp; [|discriminate].
    apply HasPrefix_length, Hp.
  - rewrite Cut_cons in H. destruct (strings.HasPrefix (String c s) sep) eqn:Hp.
    + apply HasPrefix_length, Hp.
    + destruct (strings.Cut s sep) as [[x' y']|]; [|discriminate].
      specialize (IH x' y' eq_refl). cbn. lia.
Qed.

Lemma HasPrefix_app s r sep :
  String.length sep <= String.length s ->
  strings.HasPrefix (s +:+ r) sep = strings.HasPrefix s sep.
Proof.
  revert s. induction sep as [|a sep IH]; intros s Hlen.
  - rewrite !HasPrefix_nil. reflexivity.
  - destruct s as [|c s]; [cbn in Hlen; lia|].
    change (String c s +:+ r) with (String c (s +:+ r)).
    cbn [strings.HasPrefix]. destruct (Ascii.eqb a c); [|reflexivity].
    apply IH. cbn in Hlen. lia.
Qed.

Lemma drop_app s r n :
  n <= String.length s -> strings.drop n (s +:+ r) = strings.drop n s +:+ r.
Proof.
  revert s. induction n as [|n IH]; intros s Hlen; [destruct s; reflexivity|].
  destruct s as [|c s]; [cbn in Hlen; lia|].
  change (String c s +:+ r) with (String c (s +:+ r)). cbn [strings.drop].
  apply IH. cbn in Hlen. lia.
Qed.

(** The first occurrence of [sep] in [s] is also the first one in any
    longer text that starts with [s]. *)
Lemma Cut_app s r sep x y :
  strings.Cut s sep = Some (x, y) -> strings.Cut (s +:+ r) sep = Some (x, y +:+ r).
Proof.
  revert x y. induction s as [|c s IH]; intros x y H.
  - cbn [strings.Cut] in H. destruct (strings.HasPrefix "" sep) eqn:Hp; [|discriminate].
    destruct sep; [|discriminate]. inversion H; subst.
    change ("" +:+ r) with r. rewrite Cut_hit by apply HasPrefix_nil.
    destruct r; reflexivity.
  - pose proof (Cut_length _ _ _ _ H) as Hlen.
    rewrite Cut_cons in H.
    change (String c s +:+ r) with (String c (s +:+ r)).
    rewrite Cut_cons.
    change (String c (s +:+ r)) with (String c s +:+ r).
    rewrite (HasPrefix_app (String c s) r sep Hlen).
    destruct (strings.HasPrefix (String c s) sep) eqn:Hp.
    + inversion H; subst. rewrite drop_app by exact Hlen. reflexivity.
    + destruct (strings.Cut s sep) as [[x' y']|] eqn:Hcut; [|discriminate].
      inversion H; subst. rewrite (IH x' y eq_refl). reflexivity.
Qed.

Section Finalize.

Variable env : Env.

(** X18. [moveToFailed] renames a file to the path in which the first
    occurrence of the word [processing] is replaced.  When the server
    directory's own path does not hold that word, a file at
    [<serverDir>/processing<r>] goes to [<serverDir>/failed<r>], and a
    completed one to [<serverDir>/completed<r>], whatever [r] is.  When it
    does hold the word, the replacement is made inside the server
    directory's name: the file is sent to a path outside the server's
    [failed] tree, which still has [/processing] in it. *)
Theorem X18_first_processing_replaced serverDir :
  (strings.Contains serverDir "processing" = false ->
   forall r t, exists r1 r2,
     moveToFailed env (serverDir +:+ "/processing" +:+ r) t
     = Returned tt
         (t ++ [OsMkdirAll (filepath.Dir (serverDir +:+ "/failed" +:+ r)) r1;
                OsRename (serverDir +:+ "/processing" +:+ r)
                         (serverDir +:+ "/failed" +:+ r) r2])
     /\ completedPath (serverDir +:+ "/processing" +:+ r)
        = serverDir +:+ "/completed" +:+ r)
  /\ (forall x y, strings.Cut serverDir "processing" = Some (x, y) ->
      forall r t, exists r1 r2,
        moveToFailed env (serverDir +:+ "/processing" +:+ r) t
        = Returned tt
            (t ++ [OsMkdirAll (filepath.Dir (x +:+ "failed" +:+ y +:+ "/processing" +:+ r)) r1;
                   OsRename (serverDir +:+ "/processing" +:+ r)
                            (x +:+ "failed" +:+ y +:+ "/processing" +:+ r) r2])
        /\ completedPath (serverDir +:+ "/processing" +:+ r)
           = x +:+ "completed" +:+ y +:+ "/processing" +:+ r).
Proof.
  split.
  - intros Hclean r t.
    assert (strings.Cut (serverDir +:+ "/processing" +:+ r) "processing"
            = Some (serverDir +:+ "/", r)) as Hcut.
    { change ("/processing" +:+ r) with ("/" +:+ "processing" +:+ r).
      rewrite <- append_assoc. apply Cut_first.
      apply clear_before_dir; [exact Hclean | reflexivity]. }
    destruct (moveToFailed_run env (serverDir +:+ "/processing" +:+ r) t) as (r1 & r2 & Hrun).
    assert (forall stage,
              strings.Replace1 (serverDir +:+ "/processing" +:+ r) "processing" stage
              = serverDir +:+ "/" +:+ stage +:+ r) as Hrep.
    { intros stage. unfold strings.Replace1. rewrite Hcut. apply append_assoc. }
    exists r1, r2. unfold failedPath in Hrun. rewrite (Hrep "failed") in Hrun.
    split; [exact Hrun|]. unfold completedPath. apply (Hrep "completed").
  - intros x y Hcut r t.
    pose proof (Cut_app serverDir ("/processing" +:+ r) "processing" x y Hcut) as Hcut'.
    destruct (moveToFailed_run env (serverDir +:+ "/processing" +:+ r) t) as (r1 & r2 & Hrun).
    exists r1, r2. unfold failedPath, completedPath, strings.Replace1 in *.
    rewrite Hcut' in *. split; [exact Hrun | reflexivity].
Qed.

End Finalize.

Lemma X18_first_processing_replaced_witness :
  (exists r1 r2,
     moveToFailed calm ("srv" +:+ "/processing" +:+ "/p1/b1") []
     = Returned tt
         ([] ++ [OsMkdirAll (filepath.Dir ("srv" +:+ "/failed" +:+ "/p1/b1")) r1;
                 OsRename ("srv" +:+ "/processing" +:+ "/p1/b1")
                          ("srv" +:+ "/failed" +:+ "/p1/b1") r2])
     /\ completedPath ("srv" +:+ "/processing" +:+ "/p1/b1")
        = "srv" +:+ "/completed" +:+ "/p1/b1")
  /\ (exists r1 r2,
        moveToFailed calm (reprocessing_dir +:+ "/processing" +:+ "/p1/b1") []
        = Returned tt
            ([] ++ [OsMkdirAll (filepath.Dir ("data/re" +:+ "failed" +:+ "/srv"
                                               +:+ "/processing" +:+ "/p1/b1")) r1;
                    OsRename (reprocessing_dir +:+ "/processing" +:+ "/p1/b1")
                             ("data/re" +:+ "failed" +:+ "/srv" +:+ "/processing"
                              +:+ "/p1/b1") r2])
        /\ completedPath (reprocessing_dir +:+ "/processing" +:+ "/p1/b1")
           = "data/re" +:+ "completed" +:+ "/srv" +:+ "/processing" +:+ "/p1/b1").
Proof.
  split.
  - apply (proj1 (X18_first_processing_replaced calm "srv")). reflexivity.
  - apply (proj2 (X18_first_processing_replaced calm reprocessing_dir) "data/re" "/srv").
    reflexivity.
Defined.


(** ** A configuration that stops loading *)

Section ConfigDown.

Variable env : Env.
Hypothesis Hfails : config_fails env.

Lemma getAWSConfig_fatal p t :
  exists e,
    getAWSConfig env p t
    = Exited (t ++ [LoadDefaultConfig p (Some e);
                    Log ("failed to load configuration: " +:+ Error e)]).
Proof.
  unfold getAWSConfig, bind, LoadDefaultConfig_, call. cbv zeta.
  destruct (config_LoadDefaultConfig env t p) as [e|] eqn:He;
    [|exfalso; exact (Hfails t p He)].
  exists e. unfold log_Fatal. rewrite <- app_assoc. reflexivity.
Qed.

(** X19. In server mode a failure to load the SDK configuration is not
    contained to the file at hand: [getAWSConfig] ends the whole process.
    An executor round below the retry ceiling exits right after its first
    log line, before the bucket is listed: the claimed file stays in
    [processing], it is not moved to [failed], nothing is retried and no
    row is written.  The startup scan of [processing] ends the same way at
    the first file it hands to [processFile]. *)
Theorem X19_config_failure_ends_server path p b n t :
  (n <= maxRetries ->
   exists e,
     processFileWithRetry env path p b n t
     = Exited (t ++ [Log (attempt_line path p b n);
                     LoadDefaultConfig p (Some e);
                     Log ("failed to load configuration: " +:+ Error e)]))
  /\ (addressable path ->
      exists e,
        processFile env path p t
        = Exited (t ++ [Log ("Uploading " +:+ path +:+ " to S3 for profile " +:+ Name p);
                        LoadDefaultConfig p (Some e);
                        Log ("failed to load configuration: " +:+ Error e)])).
Proof.
  split.
  - intros Hn. rewrite processFileWithRetry_equation_1.
    destruct (decide (maxRetries < n)); [lia|].
    unfold bind at 1. unfold log_Print at 1, emit at 1.
    unfold bind at 1. unfold validateBucketExists, bind at 1.
    match goal with |- context [getAWSConfig env p ?tr] =>
      destruct (getAWSConfig_fatal p tr) as (e & Hrun)
    end.
    rewrite Hrun. exists e. unfold attempt_line. rewrite <- app_assoc. reflexivity.
  - intros Ha. unfold processFile.
    unfold bind at 1. unfold log_Print at 1, emit at 1. cbv zeta.
    destruct (Nat.ltb_spec (List.length (strings.SplitN path filepath.Separator 4)) 4)
      as [Hlt|_]; [unfold addressable in Ha; lia|].
    unfold bind at 1. unfold uploadToS3, bind at 1.
    match goal with |- context [getAWSConfig env p ?tr] =>
      destruct (getAWSConfig_fatal p tr) as (e & Hrun)
    end.
    rewrite Hrun. exists e. rewrite <- app_assoc. reflexivity.
Qed.

End ConfigDown.

Lemma X19_config_failure_ends_server_witness :
  (0 <= maxRetries ->
   exists e,
     processFileWithRetry config_broken "srv/processing/p1/b1" p1 "b1" 0 []
     = Exited ([] ++ [Log (attempt_line "srv/processing/p1/b1" p1 "b1" 0);
                      LoadDefaultConfig p1 (Some e);
                      Log ("failed to load configuration: " +:+ Error e)]))
  /\ (addressable "srv/processing/p1/b1" ->
      exists e,
        processFile config_broken "srv/processing/p1/b1" p1 []
        = Exited ([] ++ [Log ("Uploading " +:+ "srv/processing/p1/b1"
                              +:+ " to S3 for profile " +:+ Name p1);
                         LoadDefaultConfig p1 (Some e);
                         Log ("failed to load configuration: " +:+ Error e)])).
Proof.
  apply (X19_config_failure_ends_server config_broken).
  intros t p. discriminate.
Defined.

(** ** The destination of a copy *)

Lemma TrimPrefix_scheme rest : strings.TrimPrefix ("s3://" +:+ rest) "s3://" = rest.
Proof.
  unfold strings.TrimPrefix. rewrite HasPrefix_self. apply drop_self.
Qed.

Section CopyDestination.

Variable env : Env.

(** X20. How [runCopyMode] reads its destination.  The scheme [s3://] is
    optional: a destination without it is treated like the same text with
    it.  A destination that names a profile and a bucket but no object key
    is refused as an invalid URI, and one whose profile is not known is
    refused whatever bucket and key it names; in both cases the process
    exits with that one log line, before anything is asked of the endpoint
    or touched on disk. *)
Theorem X20_copy_destination serverDir sourceFile recursiveFlag profiles t :
  (forall rest,
     strings.HasPrefix rest "s3://" = false ->
     runCopyMode env serverDir sourceFile ("s3://" +:+ rest) recursiveFlag profiles t
     = runCopyMode env serverDir sourceFile rest recursiveFlag profiles t)
  /\ (forall p b,
        no_slash p -> no_slash b ->
        runCopyMode env serverDir sourceFile ("s3://" +:+ p +:+ "/" +:+ b)
                    recursiveFlag profiles t
        = Exited (t ++ [Log "Invalid S3 URI"]))
  /\ (forall p b key,
        no_slash p -> no_slash b -> profiles !! p = None ->
        runCopyMode env serverDir sourceFile ("s3://" +:+ p +:+ "/" +:+ b +:+ "/" +:+ key)
                    recursiveFlag profiles t
        = Exited (t ++ [Log ("Unknown profile: " +:+ p)])).
Proof.
  split; [|split].
  - intros rest Hrest. unfold runCopyMode. cbv zeta. rewrite TrimPrefix_scheme.
    unfold strings.TrimPrefix. rewrite Hrest. reflexivity.
  - intros p b Hp Hb. unfold runCopyMode. cbv zeta. rewrite TrimPrefix_scheme.
    change (p +:+ "/" +:+ b) with (strings.Join [p; b] "/").
    rewrite SplitN_Join; [reflexivity | | discriminate | cbn; lia].
    repeat constructor; assumption.
  - intros p b key Hp Hb Hunknown. unfold runCopyMode. cbv zeta.
    rewrite TrimPrefix_scheme.
    rewrite SplitN_SS, (Cut_seg p _ Hp), SplitN_SS, (Cut_seg b _ Hb).
    cbn [strings.SplitN List.length Nat.ltb Nat.leb nth]. rewrite Hunknown. reflexivity.
Qed.

End CopyDestination.

Lemma X20_copy_destination_witness :
  runCopyMode calm "" "photos/a.jpg" ("s3://" +:+ "p1/b1/photos/a.jpg") false known_profiles []
  = runCopyMode calm "" "photos/a.jpg" "p1/b1/photos/a.jpg" false known_profiles []
  /\ runCopyMode calm "" "photos/a.jpg" ("s3://" +:+ "p1" +:+ "/" +:+ "b1") false
                 known_profiles []
     = Exited ([] ++ [Log "Invalid S3 URI"])
  /\ runCopyMode calm "" "photos/a.jpg"
                 ("s3://" +:+ "p2" +:+ "/" +:+ "b1" +:+ "/" +:+ "photos/a.jpg") false
                 known_profiles []
     = Exited ([] ++ [Log ("Unknown profile: " +:+ "p2")]).
Proof.
  destruct (X20_copy_destination calm "" "photos/a.jpg" false known_profiles [])
    as (Hscheme & Hshort & Hunknown).
  split; [|split].
  - apply Hscheme. reflexivity.
  - apply Hshort; reflexivity.
  - apply Hunknown; reflexivity.
Defined.

(** ** Server mode comes back *)

Lemma returns_for_range {A} (xs : list A) (body : A -> M unit) :
  (forall x, returns (body x)) -> returns (for_range xs body).
Proof.
  intros Hbody. induction xs as [|x xs IH]; cbn [for_range].
  - apply returns_ret.
  - apply returns_bind; [apply Hbody | intros _; exact IH].
Qed.

Lemma returns_walk_entries_info fn entries :
  Forall has_info entries -> (forall e, has_info e -> returns (fn e)) ->
  returns (walk_entries fn entries).
Proof.
  intros Hinfo Hfn. induction Hinfo as [|e rest He _ IH]; cbn [walk_entries].
  - apply returns_ret.
  - apply returns_bind; [apply Hfn, He | intros [err|]]; [apply returns_ret | exact IH].
Qed.

Lemma returns_on_files act e :
  has_info e -> (forall path, returns (act path)) -> returns (on_files act e).
Proof.
  intros He Hact. destruct e as [path [|]|path [[|]|] err]; cbn [on_files];
    try contradiction; repeat first [ apply Hact | returns_step ].
Qed.

Section ServerReturns.

Variable env : Env.
Hypothesis Hconfig : config_loads env.
Hypothesis Hledger : ledger_accepts env.
Hypothesis Hnew : forall t, fsnotify_NewWatcher env t = None.
Hypothesis Hadd : forall t d, watcher_Add env t d = None.
Hypothesis Hinfo : forall t root, Forall has_info (filepath_Walk env t root).

Lemma returns_Walk_info root fn :
  (forall e, has_info e -> returns (fn e)) -> returns (filepath_Walk_ env root fn).
Proof.
  intros Hfn t. unfold filepath_Walk_, bind, call. cbv zeta.
  apply returns_walk_entries_info; [apply Hinfo | exact Hfn].
Qed.

Lemma returns_processFile path p : returns (processFile env path p).
Proof.
  unfold processFile. apply returns_bind; [returns_step | intros _]. cbv zeta.
  destruct (Nat.ltb _ 4); [returns_step|].
  apply returns_bind; [apply returns_uploadToS3, Hconfig | intros [e|]].
  - apply returns_bind; [returns_step | intros _]. apply returns_moveToFailed.
  - repeat returns_step.
Qed.

Lemma returns_processExistingFiles serverDir profiles :
  returns (processExistingFiles env serverDir profiles).
Proof.
  unfold processExistingFiles. apply returns_for_range. intros profile. cbv zeta.
  apply returns_bind; [|intros _; apply returns_ret].
  apply returns_Walk_info. intros e He.
  apply returns_on_files; [exact He | intros path; apply returns_processFile].
Qed.

Lemma returns_processIncomingFiles serverDir profiles :
  returns (processIncomingFiles env serverDir profiles).
Proof.
  unfold processIncomingFiles. apply returns_for_range. intros profile. cbv zeta.
  apply returns_bind; [|intros _; apply returns_ret].
  apply returns_Walk_info. intros e He.
  apply returns_on_files; [exact He | intros path].
  apply returns_handleFileEvent; assumption.
Qed.

Lemma returns_setupWatcher serverDir : returns (setupWatcher env serverDir).
Proof.
  intros t. rewrite setupWatcher_walk. unfold bind at 1. unfold call at 1. cbv zeta.
  rewrite Hnew. unfold bind at 1. unfold emit at 1.
  unfold bind at 1. unfold filepath_Walk_, bind at 1, call. cbv zeta.
  match goal with |- context [walk_entries (watch_entry env) ?es ?tr] =>
    destruct (watch_walk env es tr Hadd (Hinfo _ _)) as (s & Hrun & _)
  end.
  rewrite Hrun. eexists _, _. reflexivity.
Qed.

(** X22. When the SDK configuration loads, the ledger accepts writes, the
    watcher can be created and takes every directory, and every path of
    every walk can be stat'ed, [runServerMode] returns to [main]: the two
    scans and the watcher setup neither exit nor panic, and nothing in
    [runServerMode] waits for the events the watcher will deliver. *)
Theorem X22_server_mode_returns serverDir profiles t :
  exists t', runServerMode env serverDir profiles t = Returned tt t'.
Proof.
  assert (returns (runServerMode env serverDir profiles)) as Hret.
  { unfold runServerMode.
    apply returns_bind; [apply returns_processExistingFiles | intros _].
    apply returns_bind; [apply returns_setupWatcher | intros _].
    apply returns_processIncomingFiles. }
  destruct (Hret t) as ([] & t' & Hrun). exists t'. exact Hrun.
Qed.

End ServerReturns.

(** The server started after the crash of the spec's recovery scenario. *)
Lemma X22_server_mode_returns_witness :
  exists t', runServerMode after_crash "srv" known_profiles [] = Returned tt t'.
Proof.
  apply (X22_server_mode_returns after_crash).
  - intros t p. reflexivity.
  - split; intros; reflexivity.
  - intros t. reflexivity.
  - intros t d. reflexivity.
  - intros t root. unfold after_crash, world, filepath_Walk, crash_disk.
    repeat (match goal with |- context [String.eqb ?a ?b] => destruct (String.eqb a b) end);
      repeat constructor.
Defined.


(** ** What a copy writes *)

Lemma data_read_app (t t' : Trace) : data_read (t ++ t') = data_read t ++ data_read t'.
Proof. unfold data_read. apply flat_map_app. Qed.

#[local] Hint Rewrite data_read_app : trace.

Section CopyContents.

Variable env : Env.
Hypothesis Hdisk : disk_works env.

Lemma copy_walk_data src dst entries t :
  exists r s,
    walk_entries (copy_entry env src dst) entries t = Returned r (t ++ s)
    /\ files_written s
       = List.map (fun '(name, data) => (moved_under src dst name, data)) (data_read s).
Proof.
  revert t. induction entries as [|e rest IH]; intros t.
  - exists None, []. rewrite app_nil_r. repeat split.
  - destruct e as [path [|]|path info err].
    + assert (walk_entries (copy_entry env src dst) (Visit path true :: rest) t
              = walk_entries (copy_entry env src dst) rest
                  (t ++ [OsMkdirAll (moved_under src dst path)
                           (os_MkdirAll env t (moved_under src dst path))]))
        as -> by reflexivity.
      match goal with |- context [walk_entries _ rest ?tr] =>
        destruct (IH tr) as (r & s & Hrun & Hwr)
      end.
      rewrite Hrun, <- app_assoc. eexists r, (_ :: s). split; [reflexivity|]. exact Hwr.
    + destruct (copyFile_ok env Hdisk path (moved_under src dst path) t) as (data & Hcopy).
      cbn [walk_entries copy_entry]. cbv zeta. unfold bind at 1. unfold bind at 1.
      fold (moved_under src dst path). rewrite Hcopy. unfold ret at 1.
      match goal with |- context [walk_entries _ rest ?tr] =>
        destruct (IH tr) as (r & s & Hrun & Hwr)
      end.
      rewrite Hrun, <- app_assoc. eexists r, (_ ++ s). split; [reflexivity|].
      autorewrite with trace. rewrite Hwr, List.map_app. reflexivity.
    + exists (Some err), []. rewrite app_nil_r. repeat split.
Qed.

(** X23. On a disk that takes every read, directory creation and write, a
    copy writes what it read: [copyFile] writes to its destination exactly
    the contents it read from its source, and [copyDirectory] writes, for
    every file it read and in the same order, the contents it read, at the
    file's relative path under the destination; nothing else is written. *)
Theorem X23_copy_preserves_contents src dst t :
  (exists data,
     os_ReadFile env t src = inr data
     /\ files_written (trace_of (copyFile env src dst t))
        = files_written t ++ [(dst, data)])
  /\ (exists s,
        trace_of (copyDirectory env src dst t) = t ++ s
        /\ files_written s
           = List.map (fun '(name, data) => (moved_under src dst name, data))
                      (data_read s)).
Proof.
  split.
  - destruct (copyFile_ok env Hdisk src dst t) as (data & Hcopy).
    exists data. split.
    + destruct Hdisk as (Hread & _). destruct (Hread t src) as (data' & Hr).
      unfold copyFile, bind, os_ReadFile_, call in Hcopy. cbv zeta in Hcopy.
      rewrite Hr in Hcopy |- *.
      destruct Hdisk as (_ & Hmk & Hwrite).
      unfold os_MkdirAll_, os_WriteFile_, call in Hcopy. cbv zeta in Hcopy.
      rewrite Hmk, Hwrite in Hcopy. unfold ret in Hcopy.
      inversion Hcopy as [Heq]. rewrite <- !app_assoc in Heq. cbn [app] in Heq.
      apply app_inv_head in Heq. inversion Heq. reflexivity.
    + rewrite Hcopy. cbn [trace_of]. autorewrite with trace. reflexivity.
  - rewrite copyDirectory_walk. unfold bind at 1. unfold filepath_Walk_, bind at 1, call.
    cbv zeta.
    match goal with |- context [walk_entries _ ?es ?tr] =>
      destruct (copy_walk_data src dst es tr) as (r & s & Hrun & Hwr)
    end.
    rewrite Hrun. unfold ret. cbn [trace_of]. rewrite <- app_assoc.
    eexists (_ :: s). split; [reflexivity|]. exact Hwr.
Qed.

End CopyContents.

Lemma X23_copy_preserves_contents_witness :
  (exists data,
     os_ReadFile half_readable [] "photos" = inr data
     /\ files_written (trace_of (copyFile half_readable "photos" "incoming_tmp/p1/b1/album" []))
        = files_written [] ++ [("incoming_tmp/p1/b1/album", data)])
  /\ (exists s,
        trace_of (copyDirectory half_readable "photos" "incoming_tmp/p1/b1/album" [])
        = [] ++ s
        /\ files_written s
           = List.map (fun '(name, data) =>
                         (moved_under "photos" "incoming_tmp/p1/b1/album" name, data))
                      (data_read s)).
Proof.
  apply (X23_copy_preserves_contents half_readable).
  split; [|split]; intros; [eexists|..]; reflexivity.
Defined.

(** ** The earlier executor: one attempt, no ledger *)

Section Part000Shape.

Variable env : Env.
Variable serverDir : string.
Variable profiles : gmap string Profile.

Lemma no_head_spec ev : no_head ev = true -> is_head ev = false.
Proof. unfold no_head. destruct (is_head ev); [discriminate | reflexivity]. Qed.

Lemma only_part000_uploadToS3 f b k p :
  only part000_event (Part000.uploadToS3 env f b k p).
Proof.
  unfold Part000.uploadToS3, Part000.checkFileExistsInS3, Part000.computeMD5Hash,
    Part000.upload_unless, Part000.HeadObject_.
  repeat only_step.
Qed.

Lemma only_part000_handleFileEvent path :
  only part000_event (Part000.handleFileEvent env serverDir profiles path).
Proof.
  unfold Part000.handleFileEvent, Part000.processFile, moveToFailed. cbv zeta.
  repeat first [ apply only_part000_uploadToS3 | only_step ].
Qed.

Lemma adds_call_1 kind {A} (oracle : Trace -> A) (ev : A -> Event) :
  adds kind 1 (call oracle ev).
Proof.
  intros t. unfold call, trace_of. rewrite count_app. unfold count at 2.
  cbn [List.filter]. destruct (kind _); cbn [List.length]; lia.
Qed.

Ltac none_of Q spec := apply (only_adds Q); [repeat only_step | exact spec].
Ltac at_most_one kind tac := apply (adds_weaken kind 0 1); [lia | tac].

Lemma adds_put_part000_uploadToS3 f b k p :
  adds is_put 1 (Part000.uploadToS3 env f b k p).
Proof.
  unfold Part000.uploadToS3.
  apply adds_bind; [none_of no_put no_put_spec | intros [e|]];
    [at_most_one is_put ltac:(idtac; none_of no_put no_put_spec)|].
  apply adds_bind; [none_of no_put no_put_spec | intros [e|]];
    [at_most_one is_put ltac:(idtac; none_of no_put no_put_spec)|].
  apply adds_bind.
  { unfold Part000.checkFileExistsInS3, Part000.computeMD5Hash, Part000.HeadObject_.
    none_of no_put no_put_spec. }
  intros r. cbv zeta.
  assert (adds is_put 1 (Part000.upload_unless env (fst r) f b k p)) as Hunless.
  { unfold Part000.upload_unless. destruct (fst r).
    - at_most_one is_put ltac:(idtac; none_of no_put no_put_spec).
    - apply (adds_bind_plus is_put 1 0); [apply adds_call_1 | intros [e|]];
        none_of no_put no_put_spec. }
  destruct (snd r) as [e|]; [|exact Hunless].
  destruct (negb _); [|exact Hunless].
  at_most_one is_put ltac:(idtac; none_of no_put no_put_spec).
Qed.

Lemma adds_head_part000_uploadToS3 f b k p :
  adds is_head 1 (Part000.uploadToS3 env f b k p).
Proof.
  unfold Part000.uploadToS3.
  apply adds_bind; [none_of no_head no_head_spec | intros [e|]];
    [at_most_one is_head ltac:(idtac; none_of no_head no_head_spec)|].
  apply adds_bind; [none_of no_head no_head_spec | intros [e|]];
    [at_most_one is_head ltac:(idtac; none_of no_head no_head_spec)|].
  apply (adds_bind_plus is_head 1 0).
  { unfold Part000.checkFileExistsInS3, Part000.computeMD5Hash, Part000.HeadObject_.
    apply (adds_bind_plus is_head 1 0); [apply adds_call_1 | intros [err|ETag]];
      none_of no_head no_head_spec. }
  intros r. cbv zeta. unfold Part000.upload_unless.
  none_of no_head no_head_spec.
Qed.

Lemma adds_put_part000_handleFileEvent path :
  adds is_put 1 (Part000.handleFileEvent env serverDir profiles path).
Proof.
  unfold Part000.handleFileEvent. cbv zeta.
  destruct (Nat.ltb _ 2);
    [at_most_one is_put ltac:(idtac; none_of no_put no_put_spec)|].
  destruct (profiles !! _) as [profile|];
    [|at_most_one is_put ltac:(idtac; none_of no_put no_put_spec)].
  apply adds_bind; [none_of no_put no_put_spec | intros _].
  apply adds_bind; [none_of no_put no_put_spec | intros _].
  unfold Part000.processFile.
  apply adds_bind; [none_of no_put no_put_spec | intros _]. cbv zeta.
  destruct (Nat.ltb _ 4);
    [at_most_one is_put ltac:(idtac; none_of no_put no_put_spec)|].
  apply (adds_bind_plus is_put 1 0);
    [apply adds_put_part000_uploadToS3 | intros [e|]];
    unfold moveToFailed; none_of no_put no_put_spec.
Qed.

Lemma adds_head_part000_handleFileEvent path :
  adds is_head 1 (Part000.handleFileEvent env serverDir profiles path).
Proof.
  unfold Part000.handleFileEvent. cbv zeta.
  destruct (Nat.ltb _ 2);
    [at_most_one is_head ltac:(idtac; none_of no_head no_head_spec)|].
  destruct (profiles !! _) as [profile|];
    [|at_most_one is_head ltac:(idtac; none_of no_head no_head_spec)].
  apply adds_bind; [none_of no_head no_head_spec | intros _].
  apply adds_bind; [none_of no_head no_head_spec | intros _].
  unfold Part000.processFile.
  apply adds_bind; [none_of no_head no_head_spec | intros _]. cbv zeta.
  destruct (Nat.ltb _ 4);
    [at_most_one is_head ltac:(idtac; none_of no_head no_head_spec)|].
  apply (adds_bind_plus is_head 1 0);
    [apply adds_head_part000_uploadToS3 | intros [e|]];
    unfold moveToFailed; none_of no_head no_head_spec.
Qed.

(** X24. Whatever the environment answers, handling an event in
    [part_000] makes at most one HEAD request and at most one [PutObject]:
    a failed upload is not tried again.  It never lists the buckets, never
    sleeps and writes nothing to the ledger. *)
Theorem X24_part000_single_attempt path t :
  let t' := trace_of (Part000.handleFileEvent env serverDir profiles path t) in
  uploads t' <= uploads t + 1
  /\ count is_head t' <= count is_head t + 1
  /\ ledger t' = ledger t
  /\ sleeps t' = sleeps t
  /\ count is_list t' = count is_list t.
Proof.
  cbv zeta.
  pose proof (adds_put_part000_handleFileEvent path t) as Hput.
  pose proof (adds_head_part000_handleFileEvent path t) as Hhead.
  destruct (only_part000_handleFileEvent path t) as (s & Hs & Hq).
  rewrite Hs in *. unfold uploads. autorewrite with trace in *.
  rewrite (ledger_none part000_event s), (count_none part000_event is_list s);
    try assumption.
  - unfold sleeps at 2.
    rewrite (flat_map_none _ part000_event s); try assumption.
    + rewrite !app_nil_r. repeat split; lia.
    + intros ev Hev. destruct ev; try reflexivity; discriminate.
  - intros ev Hev. destruct ev; try reflexivity; discriminate.
  - intros ev Hev. destruct ev; try reflexivity; discriminate.
Qed.

End Part000Shape.

(** * The rounds of the executor, as the trace shows them *)

Section Rounds.

Variable env : Env.

Lemma only_ledger_logRetry f pn b n o : only ledger_event (logRetry env f pn b n o).
Proof. unfold logRetry. repeat only_step. Qed.

(** The calls of [logRetry] send nothing to the endpoint, do not sleep and
    rename nothing. *)
Lemma ledger_events_apart s :
  forallb ledger_event s = true ->
  uploads s = 0 /\ count is_list s = 0 /\ sleeps s = [] /\ renames s = [].
Proof.
  intros Hs. unfold uploads, sleeps, renames.
  rewrite (count_none ledger_event is_put s), (count_none ledger_event is_list s),
    !(flat_map_none _ ledger_event s); try assumption; try (repeat split; fail);
    intros ev Hev; destruct ev; try reflexivity; discriminate.
Qed.

Lemma moveToFailed_exact path t :
  moveToFailed env path t = Returned tt (t ++ failed_move env path t).
Proof.
  unfold moveToFailed, failed_move, failedPath, bind, os_MkdirAll_, os_Rename_, call, ret.
  cbv zeta. rewrite <- app_assoc. reflexivity.
Qed.

Lemma failed_move_apart path t :
  uploads (failed_move env path t) = 0
  /\ count is_list (failed_move env path t) = 0
  /\ sleeps (failed_move env path t) = []
  /\ ledger (failed_move env path t) = []
  /\ renames (failed_move env path t) = [(path, failedPath path)].
Proof. repeat split. Qed.

(** Finalizing to [failed]: the two calls of [moveToFailed], then the calls
    of [logRetry], which, when the database accepts the INSERT, leave one
    row and return. *)
Lemma finalize_failed_trace path p b n t :
  exists s',
    trace_of ((moveToFailed env path ;; logRetry env path (Name p) b n "failure") t)
    = t ++ failed_move env path t ++ s'
    /\ forallb ledger_event s' = true
    /\ (ledger_accepts env ->
        exists now,
          (moveToFailed env path ;; logRetry env path (Name p) b n "failure") t
          = Returned tt (t ++ failed_move env path t ++ s')
          /\ ledger s' = [mkRow path p b n now "failure"]).
Proof.
  assert ((moveToFailed env path ;; logRetry env path (Name p) b n "failure") t
          = logRetry env path (Name p) b n "failure" (t ++ failed_move env path t)) as ->.
  { unfold bind. rewrite moveToFailed_exact. reflexivity. }
  destruct (only_ledger_logRetry path (Name p) b n "failure" (t ++ failed_move env path t))
    as (s' & Hs & Hq).
  exists s'. split; [rewrite Hs, app_assoc; reflexivity|]. split; [exact Hq|].
  intros Hl. pose proof (logRetry_ok env path (Name p) b n "failure"
                           (t ++ failed_move env path t) Hl) as Hrun.
  cbv zeta in Hrun. rewrite Hrun in Hs |- *. cbn [trace_of] in Hs.
  apply app_inv_head in Hs. subst s'.
  eexists. split; [rewrite app_assoc; reflexivity | reflexivity].
Qed.

(** ** C9: the backoff delay *)

(** C9. When attempt [n] (counted from 0, [n <= maxRetries]) fails with a
    transient error, the executor logs the error, draws [j] with
    [rand.Intn(1000)] and sleeps once, for [30s * 2^n] plus [j]
    milliseconds: these three events are what the call appends next to the
    trace the upload left, no sleep comes before them in the round, and what
    follows them is the run of the executor at retry count [n + 1].  The
    jitter lies in [[0, 1s)], the [int64] arithmetic does not wrap, and no
    cap is applied. *)
Theorem C9_backoff_delay path p b n t t1 e t2 :
  n <= maxRetries ->
  validateBucketExists env p b (t ++ [Log (attempt_line path p b n)]) = Returned None t1 ->
  addressable path ->
  uploadToS3 env path b (key_of path) p t1 = Returned (Some e) t2 ->
  isTransientError e = true ->
  exists (j : Z) (s0 s : list Event),
    (0 <= j < 1000)%Z
    /\ (0 <= j * Millisecond < 1 * Second)%Z
    /\ t2 = t ++ s0
    /\ sleeps s0 = []
    /\ trace_of (processFileWithRetry env path p b n t)
       = t2 ++ [Log ("Error uploading to S3: " +:+ Error e);
                RandIntn 1000 j;
                TimeSleep (30 * Second * 2 ^ Z.of_nat n + j * Millisecond)] ++ s
    /\ trace_of (processFileWithRetry env path p b (n + 1)
                   (t2 ++ [Log ("Error uploading to S3: " +:+ Error e);
                           RandIntn 1000 j;
                           TimeSleep (30 * Second * 2 ^ Z.of_nat n + j * Millisecond)]))
       = (t2 ++ [Log ("Error uploading to S3: " +:+ Error e);
                 RandIntn 1000 j;
                 TimeSleep (30 * Second * 2 ^ Z.of_nat n + j * Millisecond)]) ++ s.
Proof.
  intros Hn Hv Ha Hu Ht.
  pose proof (pFWR_transient env path p b n t t1 e t2 Hn Hv Ha Hu Ht) as Hstep.
  cbv zeta in Hstep.
  set (j := (rand_source env (t2 ++ [Log ("Error uploading to S3: " +:+ Error e)])
             mod 1000)%Z) in *.
  assert (0 <= j < 1000)%Z as Hj by (apply Z.mod_pos_bound; lia).
  rewrite delay_exact, <- app_assoc in Hstep by assumption.
  cbn [app] in Hstep.
  match type of Hstep with _ = processFileWithRetry _ _ _ _ _ ?tr =>
    destruct (only_processFileWithRetry env path p b (n + 1) tr) as (s & Hs & _)
  end.
  destruct (only_listing_validate env p b (t ++ [Log (attempt_line path p b n)]))
    as (sv & Hsv & Hqv).
  destruct (only_recovery_uploadToS3 env path b (key_of path) p t1) as (su & Hsu & Hqu).
  rewrite Hv in Hsv. rewrite Hu in Hsu. cbn [trace_of] in Hsv, Hsu.
  exists j, ([Log (attempt_line path p b n)] ++ sv ++ su), s.
  split; [exact Hj|]. split; [unfold Second, Millisecond; lia|].
  split; [rewrite Hsu, Hsv, <- !app_assoc; reflexivity|].
  split.
  - autorewrite with trace. cbn [sleeps flat_map app].
    unfold sleeps.
    rewrite (flat_map_none _ listing_event sv), (flat_map_none _ recovery_event su);
      try assumption; try reflexivity;
      intros ev Hev; destruct ev; try reflexivity; discriminate.
  - split; [|exact Hs].
    rewrite Hstep, Hs, <- app_assoc. reflexivity.
Qed.

(** ** C3: errors of the bucket validation *)

(** C3 (amended). Whatever error the bucket validation returns, a
    connectivity error as much as bucket-not-found, the executor does not
    classify it and does not retry: it logs the error, calls [MkdirAll] for
    the directory of the failed path and [Rename] of the file to the failed
    path, without looking at what either answers, and goes on to [logRetry];
    no further bucket listing, no upload and no sleep follow.  When the
    database accepts the INSERT, the call returns and the ledger has one new
    row, with outcome failure and the retry count of the round. *)
Theorem C3_validation_error_is_final path p b n t e t1 :
  n <= maxRetries ->
  validateBucketExists env p b (t ++ [Log (attempt_line path p b n)]) = Returned (Some e) t1 ->
  let t2 := t1 ++ [Log ("Error: " +:+ Error e)] in
  let t' := trace_of (processFileWithRetry env path p b n t) in
  exists s',
    t' = t2 ++ failed_move env path t2 ++ s'
    /\ forallb ledger_event s' = true
    /\ count is_list t' = count is_list t1
    /\ uploads t' = uploads t1
    /\ sleeps t' = sleeps t1
    /\ renames t' = renames t1 ++ [(path, failedPath path)]
    /\ (ledger_accepts env ->
        exists now,
          processFileWithRetry env path p b n t = Returned tt t'
          /\ ledger t' = ledger t1 ++ [mkRow path p b n now "failure"]).
Proof.
  intros Hn Hv t2 t'. subst t'.
  assert (processFileWithRetry env path p b n t
          = (moveToFailed env path ;; logRetry env path (Name p) b n "failure") t2)
    as ->.
  { rewrite (pFWR_validation_failed env path p b n t e t1) by assumption.
    reflexivity. }
  destruct (finalize_failed_trace path p b n t2) as (s' & Hs & Hq & Hl).
  exists s'. rewrite Hs.
  destruct (ledger_events_apart s' Hq) as (Hu & Hli & Hsl & Hre).
  destruct (failed_move_apart path t2) as (Fu & Fli & Fsl & Fle & Fre).
  split; [reflexivity|]. split; [exact Hq|].
  subst t2. unfold uploads in *. autorewrite with trace.
  rewrite Hu, Hli, Hsl, Hre, Fu, Fli, Fsl, Fre. cbn.
  rewrite !app_nil_r.
  repeat split; try lia.
  intros Hacc. destruct (Hl Hacc) as (now & Hrun & Hrow).
  exists now. split; [exact Hrun|].
  rewrite ?Fle, Hrow. reflexivity.
Qed.

(** ** C1: the retry ceiling *)

Lemma upload_open_failed file b k p t e :
  config_loads env ->
  os_Open env (t ++ [LoadDefaultConfig p None]) file = Some e ->
  uploadToS3 env file b k p t =
    Returned (Some (ErrWrap ("failed to open file " +:+ file +:+ ": ") e))
             (t ++ [LoadDefaultConfig p None; OsOpen file (Some e)]).
Proof.
  intros Hc Ho. unfold uploadToS3, bind. rewrite getAWSConfig_ok by assumption.
  unfold os_Open_, call. rewrite Ho. unfold ret.
  rewrite <- !app_assoc. reflexivity.
Qed.

Lemma upload_put_ok file b k p t :
  config_loads env -> files_open env ->
  s3_PutObject env (t ++ [LoadDefaultConfig p None; OsOpen file None]) p b k file = None ->
  uploadToS3 env file b k p t =
    Returned None (t ++ [LoadDefaultConfig p None; OsOpen file None;
                         S3PutObject p b k file None]).
Proof.
  intros Hc Ho Hp. unfold uploadToS3, bind. rewrite getAWSConfig_ok by assumption.
  unfold os_Open_, PutObject_, call. rewrite Ho.
  rewrite <- !app_assoc. simpl. rewrite Hp. reflexivity.
Qed.


(** ** C2: ledger rows per attempt *)

(** The rounds of a file whose upload fails transiently until [K] calls of
    [PutObject] have been made and succeeds from then on, from round [n]. *)
Lemma recovery_rounds path p b K t :
  config_loads env -> ledger_accepts env -> bucket_exists env p b ->
  files_open env -> addressable path ->
  K <= maxRetries ->
  (forall t', uploads t' < uploads t + K ->
     exists e, s3_PutObject env t' p b (key_of path) path = Some e
               /\ isTransientError (ErrWrap "failed to upload file: " e) = true) ->
  (forall t', uploads t + K <= uploads t' ->
     s3_PutObject env t' p b (key_of path) path = None) ->
  forall d n tn,
    d = K - n -> n <= K -> uploads tn = uploads t + n ->
    exists t' now,
      processFileWithRetry env path p b n tn = Returned tt t'
      /\ uploads t' = uploads t + K + 1
      /\ List.length (sleeps t') = List.length (sleeps tn) + (K - n)
      /\ ledger t' = ledger tn ++ [mkRow path p b K now "success"]
      /\ renames t' = renames tn ++ [(path, completedPath path)].
Proof.
  intros Hc Hl Hb Ho Ha HK Hfail Hok.
  induction d as [|d IH]; intros n tn Hd Hn Hun.
  - assert (n = K) as -> by lia.
    destruct (validate_ok env p b (tn ++ [Log (attempt_line path p b K)]) Hc Hb)
      as (bs & Hv).
    match type of Hv with _ = Returned None ?t1 =>
      assert (s3_PutObject env (t1 ++ [LoadDefaultConfig p None; OsOpen path None])
                           p b (key_of path) path = None) as Hput
        by (apply Hok; unfold uploads in *; autorewrite with trace; cbn; lia);
      pose proof (upload_put_ok path b (key_of path) p t1 Hc Ho Hput) as Hup
    end.
    rewrite (pFWR_upload env path p b K tn _ None _ HK Hv Ha Hup).
    unfold after_upload, bind, os_MkdirAll_, os_Rename_, call.
    rewrite logRetry_ok by assumption.
    do 2 eexists. split; [reflexivity|].
    unfold uploads in *. autorewrite with trace. cbn.
    rewrite !app_nil_r, ?List.length_app. cbn.
    repeat split; lia.
  - destruct (validate_ok env p b (tn ++ [Log (attempt_line path p b n)]) Hc Hb)
      as (bs & Hv).
    match type of Hv with _ = Returned None ?t1 =>
      destruct (Hfail (t1 ++ [LoadDefaultConfig p None; OsOpen path None]))
        as (e & He & Htr);
        [unfold uploads in *; autorewrite with trace; cbn; lia|];
      pose proof (upload_put_failed env path b (key_of path) p t1 e Hc Ho He) as Hup
    end.
    pose proof (pFWR_transient env path p b n tn _ _ _ ltac:(lia) Hv Ha Hup Htr) as Hstep.
    cbv zeta in Hstep. rewrite Hstep.
    match goal with |- context [processFileWithRetry env path p b (n + 1) ?tr] =>
      destruct (IH (n + 1) tr ltac:(lia) ltac:(lia)) as (t' & now & Hrun & Hu & Hs & Hled & Hren);
        [unfold uploads in *; autorewrite with trace; cbn; lia|]
    end.
    exists t', now. split; [exact Hrun|]. split; [exact Hu|].
    autorewrite with trace in Hs, Hled, Hren. cbn in Hs, Hled, Hren.
    rewrite !app_nil_r in *. rewrite !List.length_app in Hs. cbn in Hs.
    repeat split; try lia; assumption.
Qed.

(** C2. When the first [K] uploads of a file fail with a transient error
    and the next one succeeds ([K <= maxRetries]; the SDK configuration
    loads, the ledger accepts writes, the bucket is listed, the file opens
    and its path is addressable), the executor makes [K + 1] upload
    attempts and [K] sleeps, renames the file to its completed path, and
    leaves exactly one new row in the ledger: the one of the last attempt,
    with retry count [K] and outcome success.  The [K] failed attempts
    leave no row. *)
Theorem C2_retry_recovery_single_row path p b K t :
  config_loads env -> ledger_accepts env -> bucket_exists env p b ->
  files_open env -> addressable path ->
  K <= maxRetries ->
  (forall t', uploads t' < uploads t + K ->
     exists e, s3_PutObject env t' p b (key_of path) path = Some e
               /\ isTransientError (ErrWrap "failed to upload file: " e) = true) ->
  (forall t', uploads t + K <= uploads t' ->
     s3_PutObject env t' p b (key_of path) path = None) ->
  exists t' now,
    processFileWithRetry env path p b 0 t = Returned tt t'
    /\ uploads t' = uploads t + (K + 1)
    /\ List.length (sleeps t') = List.length (sleeps t) + K
    /\ ledger t' = ledger t ++ [mkRow path p b K now "success"]
    /\ renames t' = renames t ++ [(path, completedPath path)].
Proof.
  intros Hc Hl Hb Ho Ha HK Hfail Hok.
  destruct (recovery_rounds path p b K t Hc Hl Hb Ho Ha HK Hfail Hok (K - 0) 0 t
              eq_refl ltac:(lia) ltac:(lia)) as (t' & now & Hrun & Hu & Hs & Hled & Hren).
  exists t', now. repeat split; try assumption; lia.
Qed.

(** ** C8: classification of upload errors *)

Lemma Contains_before s r sub :
  strings.Contains s sub = true -> strings.Contains (s +:+ r) sub = true.
Proof.
  induction s as [|c s IH]; intros H.
  - destruct sub; [destruct r; reflexivity | discriminate].
  - change (String c s +:+ r) with (String c (s +:+ r)).
    rewrite Contains_cons in H |- *. apply orb_true_iff in H as [H|H].
    + change (String c (s +:+ r)) with (String c s +:+ r).
      rewrite HasPrefix_app by (apply HasPrefix_length; exact H).
      rewrite H. reflexivity.
    + rewrite (IH H). apply orb_true_r.
Qed.

(** C8. [isTransientError] classifies an error by its text alone: it is
    transient exactly when the text contains "timeout", "connection reset"
    or "DNS error".  An error that is no network error at all is therefore
    retried when one of these texts occurs in it: when the local file
    cannot be opened and its path contains a marker (the SDK configuration
    loads, the bucket is listed, the path is addressable), the executor
    started at retry count [n <= maxRetries + 1] goes through all the
    remaining rounds, sleeping [maxRetries + 1 - n] times, without ever
    calling [PutObject], before it calls [moveToFailed]. *)
Theorem C8_classified_by_text path p b n t :
  config_loads env -> bucket_exists env p b -> addressable path ->
  never_opens env path ->
  has_marker path = true ->
  n <= S maxRetries ->
  (forall e, isTransientError e = has_marker (Error e))
  /\ exists s s',
       trace_of (processFileWithRetry env path p b n t)
       = t ++ s ++ failed_move env path (t ++ s) ++ s'
       /\ uploads s = 0
       /\ List.length (sleeps s) = S maxRetries - n
       /\ renames s = []
       /\ forallb ledger_event s' = true.
Proof.
  intros Hc Hb Ha Hno Hmark Hn. split; [reflexivity|].
  remember (S maxRetries - n) as k eqn:Hk. revert n t Hk Hn.
  induction k as [k IH] using lt_wf_ind. intros n t Hk Hn.
  destruct (Nat.ltb_spec maxRetries n) as [Hgt|Hle].
  - assert (processFileWithRetry env path p b n t
            = (moveToFailed env path ;; logRetry env path (Name p) b n "failure")
                (t ++ [Log ("Max retries reached for " +:+ path
                            +:+ ". Moving to failed directory.")])) as ->.
    { rewrite pFWR_ceiling by assumption. reflexivity. }
    destruct (finalize_failed_trace path p b n
                (t ++ [Log ("Max retries reached for " +:+ path
                            +:+ ". Moving to failed directory.")]))
      as (s' & Hs & Hq & _).
    exists [Log ("Max retries reached for " +:+ path +:+ ". Moving to failed directory.")], s'.
    split; [rewrite Hs, <- app_assoc; reflexivity|].
    repeat split; try exact Hq; cbn; lia.
  - destruct (validate_ok env p b (t ++ [Log (attempt_line path p b n)]) Hc Hb)
      as (bs & Hv).
    match type of Hv with _ = Returned None ?t1 =>
      destruct (os_Open env (t1 ++ [LoadDefaultConfig p None]) path) as [e|] eqn:He;
        [|exfalso; exact (Hno _ He)];
      pose proof (upload_open_failed path b (key_of path) p t1 e Hc He) as Hup
    end.
    assert (isTransientError (ErrWrap ("failed to open file " +:+ path +:+ ": ") e) = true)
      as Htr.
    { change (has_marker (("failed to open file " +:+ path +:+ ": ") +:+ Error e) = true).
      unfold has_marker in *. rewrite !orb_true_iff in *.
      destruct Hmark as [[H|H]|H]; [left; left | left; right | right];
        apply Contains_before, Contains_after, Contains_before, H. }
    pose proof (pFWR_transient env path p b n t _ _ _ Hle Hv Ha Hup Htr) as Hstep.
    cbv zeta in Hstep.
    match type of Hstep with _ = processFileWithRetry _ _ _ _ _ ?tr =>
      assert (exists round, tr = t ++ round /\ uploads round = 0
                            /\ List.length (sleeps round) = 1 /\ renames round = [])
        as (round & Hround & Ru & Rs & Rr)
        by (eexists; split; [rewrite <- !app_assoc; reflexivity | repeat split]);
      rewrite Hround in Hstep
    end.
    destruct (IH (S maxRetries - (n + 1)) ltac:(lia) (n + 1) (t ++ round)
                 eq_refl ltac:(lia)) as (s & s' & Hrun & Hu & Hsl & Hre & Hq).
    exists (round ++ s), s'.
    split; [rewrite Hstep, Hrun, <- !app_assoc; reflexivity|].
    unfold uploads in *. autorewrite with trace.
    rewrite List.length_app, Hre, Rr.
    repeat split; try exact Hq; lia.
Qed.

End Rounds.

(** ** The scenarios of the spec, run *)




Lemma recovers_config : config_loads recovers_on_full_disk.
Proof. intros t p. reflexivity. Qed.
Lemma recovers_ledger : ledger_accepts recovers_on_full_disk.
Proof. split; intros; reflexivity. Qed.
Lemma recovers_bucket : bucket_exists recovers_on_full_disk p1 "b1".
Proof. intros t. exists ["media"; "b1"]. split; reflexivity. Qed.
Lemma recovers_open : files_open recovers_on_full_disk.
Proof. intros t f. reflexivity. Qed.

(** The executor run of the retry-recovery scenario, after the claim of
    [srv/incoming/p1/b1/x.bin]. *)
Lemma C2_retry_recovery_single_row_witness :
  let claimed :=
    [OsMkdirAll "srv/processing/p1/b1"
                (Some (ErrText "mkdir srv/processing/p1/b1: no space left on device"));
     OsRename "srv/incoming/p1/b1/x.bin" "srv/processing/p1/b1" None] in
  exists t' now,
    processFileWithRetry recovers_on_full_disk "srv/processing/p1/b1" p1 "b1" 0 claimed
    = Returned tt t'
    /\ uploads t' = uploads claimed + (3 + 1)
    /\ List.length (sleeps t') = List.length (sleeps claimed) + 3
    /\ ledger t' = ledger claimed ++ [mkRow "srv/processing/p1/b1" p1 "b1" 3 now "success"]
    /\ renames t' = renames claimed
                    ++ [("srv/processing/p1/b1", completedPath "srv/processing/p1/b1")].
Proof.
  intros claimed.
  apply (C2_retry_recovery_single_row recovers_on_full_disk
           "srv/processing/p1/b1" p1 "b1" 3 claimed).
  - exact recovers_config.
  - exact recovers_ledger.
  - exact recovers_bucket.
  - exact recovers_open.
  - unfold addressable. vm_compute. lia.
  - unfold maxRetries. lia.
  - intros t' Hlt. eexists.
    change (uploads claimed) with 0 in Hlt.
    change (s3_PutObject recovers_on_full_disk t' p1 "b1"
              (key_of "srv/processing/p1/b1") "srv/processing/p1/b1")
      with (if Nat.ltb (uploads t') 3
            then Some (ErrText "dial tcp 203.0.113.7:443: i/o timeout") else None).
    destruct (Nat.ltb_spec (uploads t') 3); [split; reflexivity | lia].
  - intros t' Hge.
    change (uploads claimed) with 0 in Hge.
    change (s3_PutObject recovers_on_full_disk t' p1 "b1"
              (key_of "srv/processing/p1/b1") "srv/processing/p1/b1")
      with (if Nat.ltb (uploads t') 3
            then Some (ErrText "dial tcp 203.0.113.7:443: i/o timeout") else None).
    destruct (Nat.ltb_spec (uploads t') 3); [lia | reflexivity].
Defined.

(** The retry-recovery scenario from the arrival of the file: the disk has
    no inode left, so the processing path cannot be made a directory and the
    file that arrives as [srv/incoming/p1/b1/x.bin] is claimed as the regular
    file [srv/processing/p1/b1]; its first three uploads time out, the
    fourth succeeds.  Four uploads are made and the file is moved to
    [completed], but the ledger holds a single row, the one of the
    successful fourth attempt (retry count 3); the three failed attempts
    wrote none. *)
Lemma C2_failing_run :
  let run := handleFileEvent recovers_on_full_disk "srv" known_profiles
               "srv/incoming/p1/b1/x.bin" [] in
  uploads (trace_of run) = 4
  /\ List.length (sleeps (trace_of run)) = 3
  /\ List.map (fun r => (col_retries r, col_upload_outcome r)) (ledger (trace_of run))
     = [(3, "success")]
  /\ List.length (ledger (trace_of run)) <> 4
  /\ moved (trace_of run) =
       [("srv/incoming/p1/b1/x.bin", "srv/processing/p1/b1");
        ("srv/processing/p1/b1", "srv/completed/p1/b1")].
Proof. vm_compute. repeat split; congruence. Qed.

(** The first round of a file whose bucket cannot be listed. *)
Lemma C3_validation_error_is_final_witness :
  let path := "srv/processing/p1/b1" in
  let e := ErrWrap "failed to list buckets: " (ErrText "dial tcp 203.0.113.7:443: i/o timeout") in
  let t1 := trace_of (validateBucketExists list_unreachable p1 "b1"
                        ([] ++ [Log (attempt_line path p1 "b1" 0)])) in
  let t2 := t1 ++ [Log ("Error: " +:+ Error e)] in
  let t' := trace_of (processFileWithRetry list_unreachable path p1 "b1" 0 []) in
  exists s',
    t' = t2 ++ failed_move list_unreachable path t2 ++ s'
    /\ forallb ledger_event s' = true
    /\ count is_list t' = count is_list t1
    /\ uploads t' = uploads t1
    /\ sleeps t' = sleeps t1
    /\ renames t' = renames t1 ++ [(path, failedPath path)]
    /\ (ledger_accepts list_unreachable ->
        exists now,
          processFileWithRetry list_unreachable path p1 "b1" 0 [] = Returned tt t'
          /\ ledger t' = ledger t1 ++ [mkRow path p1 "b1" 0 now "failure"]).
Proof.
  intros path e t1.
  apply (C3_validation_error_is_final list_unreachable path p1 "b1" 0 [] e t1).
  - unfold maxRetries. lia.
  - reflexivity.
Defined.

(** C3 as stated fails: when listing the buckets fails with a connectivity
    error (an i/o timeout, which [isTransientError] itself would call
    transient), the file that arrives as [srv/incoming/p1/b1/x.bin] is moved
    to [failed] immediately: the buckets are listed once, nothing sleeps,
    and the ledger gets one failure row with retry count 0. *)
Lemma C3_counterexample :
  let run := handleFileEvent list_unreachable "srv" known_profiles
               "srv/incoming/p1/b1/x.bin" [] in
  isTransientError (ErrWrap "failed to list buckets: "
                            (ErrText "dial tcp 203.0.113.7:443: i/o timeout")) = true
  /\ count is_list (trace_of run) = 1
  /\ sleeps (trace_of run) = []
  /\ renames (trace_of run) =
       [("srv/incoming/p1/b1/x.bin", "srv/processing/p1/b1");
        ("srv/processing/p1/b1", "srv/failed/p1/b1")]
  /\ List.map (fun r => (col_retries r, col_upload_outcome r)) (ledger (trace_of run))
     = [(0, "failure")].
Proof. vm_compute. repeat split. Qed.

(** The executor on a file that cannot be opened and whose bucket, and so
    its path, is named [timeout-logs]. *)
Lemma C8_classified_by_text_witness :
  let path := "srv/processing/p1/timeout-logs" in
  (forall e, isTransientError e = has_marker (Error e))
  /\ exists s s',
       trace_of (processFileWithRetry unreadable_on_full_disk path p1 "timeout-logs" 0 [])
       = [] ++ s ++ failed_move unreadable_on_full_disk path ([] ++ s) ++ s'
       /\ uploads s = 0
       /\ List.length (sleeps s) = S maxRetries - 0
       /\ renames s = []
       /\ forallb ledger_event s' = true.
Proof.
  intros path.
  apply (C8_classified_by_text unreadable_on_full_disk path p1 "timeout-logs" 0 []).
  - intros t p. reflexivity.
  - intros t. exists ["timeout-logs"]. split; reflexivity.
  - unfold addressable. vm_compute. lia.
  - intros t. discriminate.
  - reflexivity.
  - unfold maxRetries. lia.
Defined.

(** An error that is no network timeout, connection reset or DNS failure
    is retried as transient when its text happens to contain one of the
    three markers.  Here the file that arrives as
    [srv/incoming/p1/timeout-logs/a.txt] is claimed as the regular file
    [srv/processing/p1/timeout-logs] and cannot be opened (permission
    denied); its path contains "timeout", and it is retried with backoff
    through all eleven rounds, although nothing is ever sent to the upload
    endpoint, before it is moved to [failed]. *)
Lemma C8_failing_run :
  let path := "srv/processing/p1/timeout-logs" in
  let e := ErrWrap ("failed to open file " +:+ path +:+ ": ")
                   (ErrText ("open " +:+ path +:+ ": permission denied")) in
  let run := handleFileEvent unreadable_on_full_disk "srv" known_profiles
               "srv/incoming/p1/timeout-logs/a.txt" [] in
  (forall t, exists t', uploadToS3 unreadable_on_full_disk path "timeout-logs"
                          (key_of path) p1 t
                        = Returned (Some e) t' /\ uploads t' = uploads t)
  /\ isTransientError e = true
  /\ uploads (trace_of run) = 0
  /\ List.length (sleeps (trace_of run)) = 11
  /\ moved (trace_of run) =
       [("srv/incoming/p1/timeout-logs/a.txt", "srv/processing/p1/timeout-logs");
        ("srv/processing/p1/timeout-logs", "srv/failed/p1/timeout-logs")].
Proof.
  cbv zeta. split; [|vm_compute; repeat split].
  intros t. eexists. split; [reflexivity|].
  unfold uploads. autorewrite with trace. cbn. lia.
Qed.

(** The fourth round (retry count 3) of the retry-exhaustion scenario. *)
Lemma C9_backoff_delay_witness :
  let path := "srv/processing/p1/b1" in
  let t := [Log "three rounds earlier"] in
  let t1 := trace_of (validateBucketExists timeouts_on_full_disk p1 "b1"
                        (t ++ [Log (attempt_line path p1 "b1" 3)])) in
  let e := ErrWrap "failed to upload file: " (ErrText "dial tcp 203.0.113.7:443: i/o timeout") in
  let t2 := trace_of (uploadToS3 timeouts_on_full_disk path "b1" (key_of path) p1 t1) in
  exists (j : Z) (s0 s : list Event),
    (0 <= j < 1000)%Z
    /\ (0 <= j * Millisecond < 1 * Second)%Z
    /\ t2 = t ++ s0
    /\ sleeps s0 = []
    /\ trace_of (processFileWithRetry timeouts_on_full_disk path p1 "b1" 3 t)
       = t2 ++ [Log ("Error uploading to S3: " +:+ Error e);
                RandIntn 1000 j;
                TimeSleep (30 * Second * 2 ^ Z.of_nat 3 + j * Millisecond)] ++ s
    /\ trace_of (processFileWithRetry timeouts_on_full_disk path p1 "b1" (3 + 1)
                   (t2 ++ [Log ("Error uploading to S3: " +:+ Error e);
                           RandIntn 1000 j;
                           TimeSleep (30 * Second * 2 ^ Z.of_nat 3 + j * Millisecond)]))
       = (t2 ++ [Log ("Error uploading to S3: " +:+ Error e);
                 RandIntn 1000 j;
                 TimeSleep (30 * Second * 2 ^ Z.of_nat 3 + j * Millisecond)]) ++ s.
Proof.
  intros path t t1 e t2.
  apply (C9_backoff_delay timeouts_on_full_disk path p1 "b1" 3 t t1 e t2).
  - unfold maxRetries. lia.
  - reflexivity.
  - unfold addressable. vm_compute. lia.
  - reflexivity.
  - reflexivity.
Defined.
